(** * Centipede: feature/corpus engine, knobs and fuzzing loop

    A shallow embedding of the parts of Centipede that the specification
    describes, with the properties proved over it.

    - [Knobs] follows [knobs.h].
    - [Loop] follows [Centipede::FuzzingLoop], [Centipede::RunBatch],
      [Centipede::LoadShard], [Centipede::MergeFromOtherCorpus] and
      [Centipede::ReportCrash] of [centipede.cc].
    - [CorpusExport] follows [Centipede::ExportCorpusFromLocalDir] of
      [centipede.cc], [Sancov] the data-flow callback of
      [runner_sancov.cc], and [RunPuzzle] the parsing of the script name
      in [puzzles/run_puzzle.sh].
    - [FeatureSet], [WeightedDistribution], [Corpus] and
      [CoverageFrontier] are declared in [corpus.h] / [coverage.h], which
      are not part of this development's sources; their models follow the
      specification text and the unit tests of [corpus_test.cc]. *)

From Stdlib Require Import ZArith Lia Bool String Ascii.
From stdpp Require Import base option list gmap.

Local Open Scope Z_scope.

(** ** Machine integers *)

(** [size_t] and [uint64_t] are 64 bits wide, [uint8_t] is 8 bits wide;
    arithmetic on them wraps around. *)
Definition wrap64 (x : Z) : Z := x mod 2 ^ 64.
Definition wrap8 (x : Z) : Z := x mod 2 ^ 8.

Definition is_u64 (x : Z) : Prop := 0 <= x < 2 ^ 64.
Definition is_u8 (x : Z) : Prop := 0 <= x < 2 ^ 8.

Definition ByteArray : Type := list Byte.byte.
Definition feature_t : Type := Z.
Definition FeatureVec : Type := list feature_t.

(** ** Outcomes of a call

    A call either returns or stops the process ([Fatal]: a
    [__builtin_trap()], a failed [CHECK], a [LOG(FATAL)]), or leaves the
    defined behaviour of the program ([Undefined]). *)
Inductive ub : Type :=
| unreachable       (* __builtin_unreachable() was reached *)
| out_of_range      (* unchecked read past the end of an array *)
| division_by_zero  (* x % 0 *)
| unspecified.      (* the specification leaves the case open *)

Inductive outcome (A : Type) : Type :=
| Returns (a : A)
| Fatal
| Undefined (u : ub).
Arguments Returns {A} a.
Arguments Fatal {A}.
Arguments Undefined {A} u.

Definition obind {A B} (m : outcome A) (f : A -> outcome B) : outcome B :=
  match m with
  | Returns a => f a
  | Fatal => Fatal
  | Undefined u => Undefined u
  end.

Notation "x <~ m ;; k" := (obind m (fun x => k))
  (at level 100, m at next level, right associativity).

(** [CHECK(cond)]. *)
Definition CHECK (cond : bool) : outcome unit :=
  if cond then Returns tt else Fatal.

(** Reading [s[i]] of a span or vector, unchecked. *)
Definition span_at {A} (s : list A) (i : Z) : outcome A :=
  match s !! Z.to_nat i with
  | Some a => Returns a
  | None => Undefined out_of_range
  end.

(** ** Knobs ([knobs.h]) *)
Module Knobs.

Definition kNumKnobs : Z := 32.
(** [1 << (8 * sizeof(value_type))] with [value_type = uint8_t]. *)
Definition kNumPossibleValues : Z := Z.shiftl 1 (8 * 1).

(** A [KnobId] wraps a [size_t]. *)
Definition KnobId : Type := Z.

(** [value_type knobs_[kNumKnobs]]. *)
Record Knobs : Type := { knobs_ : list Z }.

Definition wf (k : Knobs) : Prop :=
  Z.of_nat (length (knobs_ k)) = kNumKnobs /\ Forall is_u8 (knobs_ k).

(** [KnobId]s are handed out by [NewId], which traps when it runs out
    of ids, so the id of a [KnobId] is below [kNumKnobs]. *)
Definition valid_id (id : KnobId) : Prop := 0 <= id < kNumKnobs.

Definition Set_ (value : Z) (k : Knobs) : Knobs :=
  {| knobs_ := map (fun _ => value) (knobs_ k) |}.

(** [Set(absl::Span<const value_type> values)]: the loop
    [for (; i < n; ++i) knobs_[i] = values[i]], with [count] iterations
    left. Both accesses are unchecked. *)
Fixpoint SetSpan_loop (values : list Z) (i count : nat) (ks : list Z)
  : outcome (list Z) :=
  match count with
  | O => Returns ks
  | S count' =>
      v <~ span_at values (Z.of_nat i) ;;
      if (i <? length ks)%nat
      then SetSpan_loop values (S i) count' (<[i := v]> ks)
      else Undefined out_of_range
  end.

Definition SetSpan (values : list Z) (k : Knobs) : outcome Knobs :=
  let n := Z.min kNumKnobs (Z.of_nat (length values)) in
  ks <~ SetSpan_loop values 0 (Z.to_nat n) (knobs_ k) ;;
  Returns {| knobs_ := ks |}.

Definition Value (k : Knobs) (knob_id : KnobId) : outcome Z :=
  if kNumKnobs <=? knob_id then Fatal
  else span_at (knobs_ k) knob_id.

Definition GenerateBool (k : Knobs) (knob_id : KnobId)
           (default_value : bool) (random : Z) : outcome bool :=
  value <~ Value k knob_id ;;
  if (value =? 0) || (value =? 255) then Returns default_value
  else if value =? 1 then Returns false
  else if value =? 254 then Returns true
  else
    let kNumOtherKnobValues := kNumPossibleValues - 4 in
    let value_minus2 := wrap8 (value - 2) in
    let random := random mod kNumOtherKnobValues in
    Returns (random <=? value_minus2).

(** The first loop of [Choose]: [sum += Value(knob_id)]. *)
Fixpoint sum_values (k : Knobs) (knob_ids : list KnobId) (sum : Z)
  : outcome Z :=
  match knob_ids with
  | [] => Returns sum
  | knob_id :: rest =>
      v <~ Value k knob_id ;;
      sum_values k rest (wrap64 (sum + v))
  end.

(** The second loop of [Choose]; falling off its end reaches
    [__builtin_unreachable()]. *)
Fixpoint scan {T} (k : Knobs) (knob_ids : list KnobId) (choices : list T)
         (random partial_sum idx : Z) : outcome T :=
  match knob_ids with
  | [] => Undefined unreachable
  | knob_id :: rest =>
      v <~ Value k knob_id ;;
      let partial_sum := wrap64 (partial_sum + v) in
      if random <? partial_sum then span_at choices idx
      else scan k rest choices random partial_sum (wrap64 (idx + 1))
  end.

Definition Choose {T} (k : Knobs) (knob_ids : list KnobId)
           (choices : list T) (random : Z) : outcome T :=
  match choices with
  | [] => Fatal
  | _ :: _ =>
      if negb (length knob_ids =? length choices)%nat then Fatal
      else
        sum <~ sum_values k knob_ids 0 ;;
        if sum =? 0
        then span_at choices (random mod Z.of_nat (length choices))
        else scan k knob_ids choices (random mod sum) 0 0
  end.

(** [Choose(choices, random)]: the choices are the knob ids. *)
Definition ChooseId (k : Knobs) (choices : list KnobId) (random : Z)
  : outcome KnobId :=
  Choose k choices choices random.

(** The sum of the knob values of [knob_ids], without wrap-around; the
    values of knobs that are not there count as 0. *)
Definition weight_of (k : Knobs) (knob_id : KnobId) : Z :=
  default 0 (knobs_ k !! Z.to_nat knob_id).

Definition weight_sum (k : Knobs) (knob_ids : list KnobId) : Z :=
  foldr (fun id acc => weight_of k id + acc) 0 knob_ids.

(** Whether a call of [GenerateBool] returned [true]. *)
Definition returns_true (o : outcome bool) : bool :=
  match o with Returns true => true | _ => false end.

(** A knob array for the examples: knob [i] holds [i], but the last one
    holds 255. *)
Definition sample_knobs : Knobs :=
  {| knobs_ := [0; 1; 2; 3; 4; 5; 6; 7; 8; 9; 10; 11; 12; 13; 14; 15;
                16; 17; 18; 19; 20; 21; 22; 23; 24; 25; 26; 27; 28; 29;
                254; 255] |}.

End Knobs.

(** ** CoverageFrontier

    Only the two accessors matter here; [Compute] fills the per-PC
    tables, one entry per element of the PC table. *)
Module CoverageFrontier.

Record t : Type := {
  frontier_ : list bool;
  frontier_weight_ : list Z;
  num_functions_in_frontier_ : nat
}.

(** The frontier of a binary with [n] PCs before anything is covered. *)
Definition make (n : nat) : t :=
  {| frontier_ := replicate n false;
     frontier_weight_ := replicate n 0;
     num_functions_in_frontier_ := 0 |}.





End CoverageFrontier.

(** ** FeatureSet *)
Module FeatureSet.

(** Modelled from the spec: the state of [FeatureSet] ([corpus.h] is
    missing): the frequency threshold, a mapping from features to
    frequencies (0 when absent), the number of distinct features seen per
    domain, and their total. *)
Record t : Type := {
  frequency_threshold_ : Z;
  frequencies_ : gmap Z Z;
  features_per_domain_ : gmap nat nat;
  num_features_ : nat
}.

Definition make (frequency_threshold : Z) : t :=
  {| frequency_threshold_ := frequency_threshold;
     frequencies_ := ∅;
     features_per_domain_ := ∅;
     num_features_ := 0 |}.

Definition Frequency (fs : t) (f : feature_t) : Z :=
  default 0 (frequencies_ fs !! f).

Definition size (fs : t) : nat := num_features_ fs.

Definition CountFeatures (fs : t) (domain : nat) : nat :=
  default 0%nat (features_per_domain_ fs !! domain).

(** What the specification leaves open: the numeric ranges of the
    domains ([feature.h] is missing), the two factors of a feature's
    weight, and the bonus a record gets from the coverage frontier. *)
Class Scoring : Type := {
  FeatureToDomainId : feature_t -> nat;
  domain_scale : t -> nat -> Z;
  rarity : Z -> Z;
  frontier_bonus : FeatureVec -> CoverageFrontier.t -> Z
}.

(** Modelled from the spec: [CountUnseenAndPruneFrequentFeatures]. The
    loop counts the features of frequency 0 and keeps, in order, the
    features whose frequency is below the threshold. *)
Fixpoint count_and_prune (fs : t) (features : FeatureVec)
         (number_of_unseen_features : nat) (kept : FeatureVec)
  : nat * FeatureVec :=
  match features with
  | [] => (number_of_unseen_features, kept)
  | feature :: rest =>
      let freq := Frequency fs feature in
      count_and_prune fs rest
        (if freq =? 0 then S number_of_unseen_features
         else number_of_unseen_features)
        (if freq <? frequency_threshold_ fs then kept ++ [feature]
         else kept)
  end.

Definition CountUnseenAndPruneFrequentFeatures (fs : t)
           (features : FeatureVec) : nat * FeatureVec :=
  count_and_prune fs features 0 [].

(** Modelled from the spec: [IncrementFrequencies]. The counter of a
    feature saturates at the threshold; a feature seen for the first
    time is counted in its domain. *)
Definition increment_one `{Scoring} (fs : t) (f : feature_t) : t :=
  let freq := Frequency fs f in
  let domain := FeatureToDomainId f in
  {| frequency_threshold_ := frequency_threshold_ fs;
     frequencies_ :=
       if freq <? frequency_threshold_ fs
       then <[f := freq + 1]> (frequencies_ fs)
       else frequencies_ fs;
     features_per_domain_ :=
       if freq =? 0
       then <[domain := S (CountFeatures fs domain)]>
              (features_per_domain_ fs)
       else features_per_domain_ fs;
     num_features_ :=
       if freq =? 0 then S (num_features_ fs) else num_features_ fs |}.

Definition IncrementFrequencies `{Scoring} (features : FeatureVec) (fs : t)
  : t :=
  fold_left increment_one features fs.

(** Modelled from the spec: [ComputeWeight]. Each feature contributes
    [domain_scale(domain) * rarity(frequency)] and the contributions are
    summed; asking for the weight of a feature that was never seen is a
    fatal programming error. *)
Fixpoint ComputeWeight `{Scoring} (fs : t) (features : FeatureVec)
  : outcome Z :=
  match features with
  | [] => Returns 0
  | feature :: rest =>
      if Frequency fs feature =? 0 then Fatal
      else
        weight <~ ComputeWeight fs rest ;;
        Returns (domain_scale fs (FeatureToDomainId feature)
                 * rarity (Frequency fs feature) + weight)
  end.

(** [IncrementFrequencies(features)] done [n] times in a row. *)
Definition increment_times `{Scoring} (n : nat) (features : FeatureVec)
           (fs : t) : t :=
  Nat.iter n (IncrementFrequencies features) fs.

(** [IncrementFrequencies] on each vector of [vs] in turn. *)
Definition increment_all `{Scoring} (vs : list FeatureVec) (fs : t) : t :=
  fold_left (fun fs v => IncrementFrequencies v fs) vs fs.

(** The states the constructor and [IncrementFrequencies] produce. *)
Definition wf `{Scoring} (fs : t) : Prop :=
  (2 <= frequency_threshold_ fs /\ frequency_threshold_ fs <= 255) /\
  (forall f, 0 <= Frequency fs f /\
             Frequency fs f <= frequency_threshold_ fs) /\
  (forall f, 0 < Frequency fs f ->
             (0 < CountFeatures fs (FeatureToDomainId f))%nat) /\
  (forall d, (CountFeatures fs d <= num_features_ fs)%nat).


(** A scoring that has these properties, used to run the unit tests:
    features below [2^32] are in domain 0 and every further block of
    [2^32] features is a domain; a domain counts the more the fewer
    features it has; a feature counts the more the rarer it is. *)
Definition test_scoring : Scoring := {|
  FeatureToDomainId f := Z.to_nat (Z.shiftr f 32);
  domain_scale fs d := Z.of_nat (1 + num_features_ fs - CountFeatures fs d);
  rarity freq := 256 - freq;
  frontier_bonus _ _ := 0
|}.

(** The feature set of [TEST(FeatureSet, ComputeWeight)] at its end:
    threshold 10, features 1, 2, 3 with frequencies 3, 2, 1. *)
Definition weight_test_fs : t :=
  @IncrementFrequencies test_scoring [1]
    (@IncrementFrequencies test_scoring [1; 2]
       (@IncrementFrequencies test_scoring [1; 2; 3] (make 10))).

(** The feature set of [TEST(FeatureSet, ComputeWeightWithDifferentDomains)]:
    one feature of the first domain, two of the second, three of the
    third (here the domains 1, 2 and 3). *)
Definition domain_test_fs : t :=
  @IncrementFrequencies test_scoring
    [2 ^ 32; 2 * 2 ^ 32; 2 * 2 ^ 32 + 1;
     3 * 2 ^ 32; 3 * 2 ^ 32 + 1; 3 * 2 ^ 32 + 2]
    (make 10).

End FeatureSet.

(** ** WeightedDistribution *)
Module WeightedDistribution.

(** Modelled from the spec: the state of [WeightedDistribution]
    ([corpus.h] is missing): [weights[0..n]], [prefix_sums[0..n]] with
    [prefix_sums[i]] the sum of [weights[0..=i]], and whether the prefix
    sums are up to date with the weights. *)
Record t : Type := {
  weights : list Z;
  prefix_sums : list Z;
  prefix_sums_valid : bool
}.

Definition clear : t :=
  {| weights := []; prefix_sums := []; prefix_sums_valid := true |}.

Definition size (wd : t) : nat := length (weights wd).

Definition AddWeight (w : Z) (wd : t) : t :=
  {| weights := weights wd ++ [w];
     prefix_sums := prefix_sums wd ++ [default 0 (last (prefix_sums wd)) + w];
     prefix_sums_valid := prefix_sums_valid wd |}.

(** [change_weight(i, w)] asks for a later [recompute_internal_state]. *)
Definition ChangeWeight (i : nat) (w : Z) (wd : t) : t :=
  {| weights := <[i := w]> (weights wd);
     prefix_sums := prefix_sums wd;
     prefix_sums_valid := false |}.

Fixpoint running_sums (acc : Z) (ws : list Z) : list Z :=
  match ws with
  | [] => []
  | w :: rest => (acc + w) :: running_sums (acc + w) rest
  end.

Definition RecomputeInternalState (wd : t) : t :=
  {| weights := weights wd;
     prefix_sums := running_sums 0 (weights wd);
     prefix_sums_valid := true |}.

Definition PopBack (wd : t) : t :=
  {| weights := removelast (weights wd);
     prefix_sums := removelast (prefix_sums wd);
     prefix_sums_valid := prefix_sums_valid wd |}.

(** The index a binary search for [target] finds in the increasing
    [sums]: the first one whose prefix sum exceeds [target]. *)
Fixpoint upper_bound (sums : list Z) (target : Z) (idx : nat) : option nat :=
  match sums with
  | [] => None
  | s :: rest =>
      if target <? s then Some idx else upper_bound rest target (S idx)
  end.

(** Modelled from the spec: [RandomIndex]. Sampling after a
    [ChangeWeight] without [RecomputeInternalState] is a fatal
    programming error; with no weight, or all weights zero, the result is
    left undefined. *)
Definition RandomIndex (wd : t) (random : Z) : outcome nat :=
  if negb (prefix_sums_valid wd) then Fatal
  else
    match last (prefix_sums wd) with
    | None => Undefined unspecified
    | Some total =>
        if total =? 0 then Undefined unspecified
        else
          match upper_bound (prefix_sums wd) (random mod total) 0 with
          | Some idx => Returns idx
          | None => Undefined unspecified
          end
    end.

Definition sum (ws : list Z) : Z := foldr Z.add 0 ws.

Definition total_weight (wd : t) : Z := sum (weights wd).

(** [set_weights] of the unit test: [clear] and [AddWeight] each. *)
Definition set_weights (ws : list Z) : t :=
  fold_left (fun wd w => AddWeight w wd) ws clear.

(** [compute_freq] of the unit test: how often each index is drawn
    when [RandomIndex] is fed the numbers [0 .. kNumIter - 1]; [None] when
    a draw does not return. *)
Fixpoint compute_freq (wd : t) (kNumIter : nat) (freq : list nat)
  : option (list nat) :=
  match kNumIter with
  | O => Some freq
  | S i =>
      match RandomIndex wd (Z.of_nat i) with
      | Returns idx =>
          compute_freq wd i (<[idx := S (default O (freq !! idx))]> freq)
      | _ => None
      end
  end.

End WeightedDistribution.

(** ** Random numbers

    [Rng] is a generator of 64-bit numbers whose implementation is not
    part of the engine; [rng_next] is one call [rng()]. *)
Class RandomSource : Type := {
  Rng : Type;
  rng_next : Rng -> Z * Rng
}.

(** A generator for the examples: it counts up from its seed. *)
Definition counting_rng : RandomSource :=
  {| Rng := Z; rng_next := fun s => (s, s + 1) |}.

(** ** Corpus *)
Module Corpus.

Record CorpusRecord : Type := {
  data : ByteArray;
  features : FeatureVec;
  cmp_args : ByteArray
}.

(** Modelled from the spec: the state of [Corpus] ([corpus.h] is
    missing): the live records in order, a weighted distribution of the
    same length, and the number of records ever added. *)
Record t : Type := {
  records_ : list CorpusRecord;
  weighted_distribution_ : WeightedDistribution.t;
  num_total_ : nat
}.

Definition empty : t :=
  {| records_ := [];
     weighted_distribution_ := WeightedDistribution.clear;
     num_total_ := 0 |}.

Definition NumActive (c : t) : nat := length (records_ c).
Definition NumTotal (c : t) : nat := num_total_ c.

Definition Get (c : t) (i : nat) : outcome ByteArray :=
  r <~ span_at (records_ c) (Z.of_nat i) ;; Returns (data r).

Definition GetCmpArgs (c : t) (i : nat) : outcome ByteArray :=
  r <~ span_at (records_ c) (Z.of_nat i) ;; Returns (cmp_args r).

Section WithScoring.
Context `{FeatureSet.Scoring}.

(** The weight of a record:
    [feature_set.compute_weight(features) + frontier_bonus(features, frontier)]. *)
Definition ComputeWeight (fv : FeatureVec) (fs : FeatureSet.t)
           (frontier : CoverageFrontier.t) : outcome Z :=
  w <~ FeatureSet.ComputeWeight fs fv ;;
  Returns (w + FeatureSet.frontier_bonus fv frontier).

(** Modelled from the spec: [Add] appends an active record with its
    initial weight and counts it in [num_total]. *)
Definition Add (data : ByteArray) (fv : FeatureVec) (cmp_args : ByteArray)
           (fs : FeatureSet.t) (frontier : CoverageFrontier.t) (c : t)
  : outcome t :=
  weight <~ ComputeWeight fv fs frontier ;;
  Returns
    {| records_ :=
         records_ c
           ++ [{| data := data; features := fv; cmp_args := cmp_args |}];
       weighted_distribution_ :=
         WeightedDistribution.AddWeight weight (weighted_distribution_ c);
       num_total_ := S (num_total_ c) |}.

(** A record all of whose features are frequent. *)
Definition all_frequent (fs : FeatureSet.t) (r : CorpusRecord) : bool :=
  forallb
    (fun f => FeatureSet.frequency_threshold_ fs <=? FeatureSet.Frequency fs f)
    (features r).

(** Step 1 of pruning: the all-frequent flag and the fresh weight of
    every active record. *)
Fixpoint fresh_weights (fs : FeatureSet.t) (frontier : CoverageFrontier.t)
         (rs : list CorpusRecord) : outcome (list (CorpusRecord * bool * Z)) :=
  match rs with
  | [] => Returns []
  | r :: rest =>
      w <~ ComputeWeight (features r) fs frontier ;;
      tl <~ fresh_weights fs frontier rest ;;
      Returns ((r, all_frequent fs r, w) :: tl)
  end.

End WithScoring.

(** Swap-remove: the last element takes the place of the one removed. *)
Definition swap_remove {A} (idx : nat) (l : list A) : list A :=
  match last l with
  | Some x => removelast (<[idx := x]> l)
  | None => l
  end.

(** The indices of the positive weights. *)
Definition positive_indices (ws : list Z) : list nat :=
  List.filter (fun i => 0 <? default 0 (ws !! i)) (seq 0 (length ws)).

Section WithRng.
Context `{RandomSource}.

(** Step 4 of pruning, [excess] times: pick a uniformly random index
    among those of positive weight and swap-remove it. Nothing is said of
    the case in which no weight is positive. *)
Fixpoint remove_random (excess : nat) (rs : list CorpusRecord)
         (ws : list Z) (rng : Rng)
  : outcome (list CorpusRecord * list Z * Rng) :=
  match excess with
  | O => Returns (rs, ws, rng)
  | S n =>
      let '(r, rng) := rng_next rng in
      let candidates := positive_indices ws in
      match candidates !! Z.to_nat (r mod Z.of_nat (length candidates)) with
      | None => Undefined unspecified
      | Some idx =>
          remove_random n (swap_remove idx rs) (swap_remove idx ws) rng
      end
  end.

Context `{FeatureSet.Scoring}.

(** Modelled from the spec: [Prune], by the four steps of the pruning
    algorithm. It fails fatally when [max_corpus_size] is 0, returns the
    number of records removed and leaves [num_total] alone. *)
Definition Prune (fs : FeatureSet.t) (frontier : CoverageFrontier.t)
           (max_corpus_size : nat) (rng : Rng) (c : t)
  : outcome (nat * t * Rng) :=
  _ <~ CHECK (negb (max_corpus_size =? 0)%nat) ;;
  scored <~ fresh_weights fs frontier (records_ c) ;;
  let survivors :=
    List.filter (fun x => negb (snd (fst x))) scored in
  let rs := map (fun x => fst (fst x)) survivors in
  let ws := map snd survivors in
  res <~ remove_random (length rs - max_corpus_size) rs ws rng ;;
  let '(rs, ws, rng) := res in
  Returns
    ((length (records_ c) - length rs)%nat,
     {| records_ := rs;
        weighted_distribution_ :=
          WeightedDistribution.RecomputeInternalState
            (WeightedDistribution.set_weights ws);
        num_total_ := num_total_ c |},
     rng).

End WithRng.

(** Modelled from the spec: [WeightedRandom] and [UniformRandom] return
    the input of a record drawn by weight, or uniformly. Nothing is said
    of a corpus without records, from which there is no input to return. *)
Definition WeightedRandom (c : t) (random : Z) : outcome ByteArray :=
  idx <~ WeightedDistribution.RandomIndex (weighted_distribution_ c) random ;;
  Get c idx.

Definition UniformRandom (c : t) (random : Z) : outcome ByteArray :=
  if (NumActive c =? 0)%nat then Undefined unspecified
  else Get c (Z.to_nat (random mod Z.of_nat (NumActive c))).

(** Records all of whose features were seen by [IncrementFrequencies],
    as they are when [Add] follows [IncrementFrequencies]. *)
Definition records_seen (fs : FeatureSet.t) (rs : list CorpusRecord) : Prop :=
  Forall (fun r => Forall (fun f => FeatureSet.Frequency fs f <> 0)
                          (features r)) rs.

(** *** The fixture of [TEST(Corpus, Prune)]

    [Add] of the test is [fs.IncrementFrequencies(record.features)]
    followed by [corpus.Add(record.data, record.features, {}, fs,
    coverage_frontier)]; the frontier is over a PC table of 100 entries
    and the threshold is 3. *)
Definition test_frontier : CoverageFrontier.t := CoverageFrontier.make 100.

Definition test_Add (data : ByteArray) (fv : FeatureVec)
           (acc : FeatureSet.t * t) : outcome (FeatureSet.t * t) :=
  let fs := @FeatureSet.IncrementFrequencies FeatureSet.test_scoring fv
              (fst acc) in
  c <~ @Add FeatureSet.test_scoring data fv [] fs test_frontier (snd acc) ;;
  Returns (fs, c).

Definition test_Prune (max_corpus_size : nat)
           (acc : FeatureSet.t * t * Z) : outcome (nat * (FeatureSet.t * t * Z)) :=
  let '(fs, c, rng) := acc in
  r <~ @Prune counting_rng FeatureSet.test_scoring fs test_frontier
         max_corpus_size rng c ;;
  let '(removed, c, rng) := r in
  Returns (removed, (fs, c, rng)).

(** The five [Add]s of the test. *)
Definition prune_test_start : outcome (FeatureSet.t * t) :=
  s <~ test_Add [Byte.x00] [20; 40] (FeatureSet.make 3, empty) ;;
  s <~ test_Add [Byte.x01] [20; 30] s ;;
  s <~ test_Add [Byte.x02] [30; 40] s ;;
  s <~ test_Add [Byte.x03] [40; 50] s ;;
  test_Add [Byte.x04] [10; 20] s.

Definition prune_test_state : FeatureSet.t * t :=
  match prune_test_start with
  | Returns s => s
  | _ => (FeatureSet.make 3, empty)
  end.

(** What the test observes of a corpus: the inputs of the active
    records, and [NumTotal]. *)
Definition observe (c : t) : list ByteArray * nat :=
  (map data (records_ c), NumTotal c).

(** The first [Prune] of the test. *)
Definition prune_test_first : outcome (nat * (list ByteArray * nat)) :=
  s <~ prune_test_start ;;
  r <~ test_Prune 1000 (s, 0) ;;
  Returns (fst r, observe (snd (fst (snd r)))).

(** The rest of the test: one more [Add], then [Prune] with the caps
    1000, 3, 2, 1 and 0; the numbers of records removed, [NumActive] and
    [NumTotal] before the last [Prune], and the outcome of the last one. *)
Definition prune_test_rest
  : outcome (list nat * nat * nat * outcome nat) :=
  s <~ prune_test_start ;;
  r1 <~ test_Prune 1000 (s, 0) ;;
  s <~ test_Add [Byte.x05] [30; 60] (fst (snd r1)) ;;
  r2 <~ test_Prune 1000 (s, snd (snd r1)) ;;
  r3 <~ test_Prune 3 (snd r2) ;;
  r4 <~ test_Prune 2 (snd r3) ;;
  r5 <~ test_Prune 1 (snd r4) ;;
  let c := snd (fst (snd r5)) in
  Returns ([fst r1; fst r2; fst r3; fst r4; fst r5], NumActive c, NumTotal c,
           x <~ test_Prune 0 (snd r5) ;; Returns (fst x)).

End Corpus.

(** ** The fuzzing loop ([centipede.cc]) *)
Module Loop.

(** The fields of [Environment] the loop reads. [max_corpus_size] is
    not read by [centipede.cc]: it is the cap the specification's
    [Corpus::prune] takes. *)
Record Environment : Type := {
  total_shards : Z;
  my_shard_index : Z;
  num_runs : Z;
  batch_size : Z;
  prune_frequency : Z;
  load_other_shard_frequency : Z;
  max_num_crash_reports : Z;
  use_corpus_weights : bool;
  exit_on_crash : bool;
  input_filter_empty : bool;
  binary : string;
  extra_binaries : list string;
  crash_reproducer_dir : string;
  max_corpus_size : nat
}.

Record BatchResult : Type := {
  exit_code : Z;
  log : string;
  num_outputs_read : Z;
  results : list FeatureVec
}.

(** [CentipedeCallbacks] and the other collaborators of the loop: the
    target runner, the mutator, the hash and file utilities, the function
    filter, the external input filter and the reader of shard files.
    [ExternalState] is whatever they depend on outside the engine. *)
Class Collaborators : Type := {
  ExternalState : Type;
  Execute : string -> list ByteArray -> ExternalState
            -> bool * BatchResult * ExternalState;
  Mutate : list ByteArray -> ExternalState -> list ByteArray * ExternalState;
  DummyValidInput : ByteArray;
  Hash : ByteArray -> string;
  path_append : string -> string -> string;
  (** whether [RemoteFileOpen(path, "w")] yields a file *)
  RemoteFileOpen_ok : string -> bool;
  function_filter : FeatureVec -> bool;
  (** the external filter command: was it interrupted, did it exit with 0 *)
  run_input_filter : ByteArray -> bool * bool;
  ReadCorpusRecords : Z -> ExternalState
                      -> list Corpus.CorpusRecord * ExternalState
}.

(** What the engine does to the outside, in order. [EvSample] is a ghost
    event: it records the number of active records a call of
    [WeightedRandom] or [UniformRandom] finds. *)
Inductive Event : Type :=
| EvLog (msg : string)
| EvExecute (binary : string) (inputs : list ByteArray) (success : bool)
| EvMkdir (path : string)
| EvWrite (path : string) (bytes : ByteArray)
| EvSample (num_active : nat).

(** What a crash report shows to the outside: the executions with
    their results and the files written. *)
Inductive Obs : Type :=
| Ran (inputs : list ByteArray) (success : bool)
| Wrote (path : string) (bytes : ByteArray).

Definition observe_event (e : Event) : list Obs :=
  match e with
  | EvExecute _ inputs success => [Ran inputs success]
  | EvWrite path bytes => [Wrote path bytes]
  | _ => []
  end.

Definition observations (tr : list Event) : list Obs :=
  flat_map observe_event tr.

Section WithCollaborators.
Context `{Collaborators} `{RandomSource} `{FeatureSet.Scoring}.

(** The members of [Centipede], with the process-wide early-exit flag
    and the trace of events. The specification's [Corpus] is also handed
    a coverage frontier. *)
Record Centipede : Type := {
  fs_ : FeatureSet.t;
  corpus_ : Corpus.t;
  coverage_frontier_ : CoverageFrontier.t;
  rng_ : Rng;
  num_runs_ : Z;
  num_crash_reports_ : Z;
  early_exit_requested : bool;
  ext : ExternalState;
  trace : list Event
}.

Definition emit (e : Event) (st : Centipede) : Centipede :=
  {| fs_ := fs_ st; corpus_ := corpus_ st;
     coverage_frontier_ := coverage_frontier_ st; rng_ := rng_ st;
     num_runs_ := num_runs_ st; num_crash_reports_ := num_crash_reports_ st;
     early_exit_requested := early_exit_requested st; ext := ext st;
     trace := trace st ++ [e] |}.

Definition set_ext (x : ExternalState) (st : Centipede) : Centipede :=
  {| fs_ := fs_ st; corpus_ := corpus_ st;
     coverage_frontier_ := coverage_frontier_ st; rng_ := rng_ st;
     num_runs_ := num_runs_ st; num_crash_reports_ := num_crash_reports_ st;
     early_exit_requested := early_exit_requested st; ext := x;
     trace := trace st |}.

Definition set_fs (fs : FeatureSet.t) (st : Centipede) : Centipede :=
  {| fs_ := fs; corpus_ := corpus_ st;
     coverage_frontier_ := coverage_frontier_ st; rng_ := rng_ st;
     num_runs_ := num_runs_ st; num_crash_reports_ := num_crash_reports_ st;
     early_exit_requested := early_exit_requested st; ext := ext st;
     trace := trace st |}.

Definition set_corpus (c : Corpus.t) (st : Centipede) : Centipede :=
  {| fs_ := fs_ st; corpus_ := c;
     coverage_frontier_ := coverage_frontier_ st; rng_ := rng_ st;
     num_runs_ := num_runs_ st; num_crash_reports_ := num_crash_reports_ st;
     early_exit_requested := early_exit_requested st; ext := ext st;
     trace := trace st |}.

Definition set_rng (r : Rng) (st : Centipede) : Centipede :=
  {| fs_ := fs_ st; corpus_ := corpus_ st;
     coverage_frontier_ := coverage_frontier_ st; rng_ := r;
     num_runs_ := num_runs_ st; num_crash_reports_ := num_crash_reports_ st;
     early_exit_requested := early_exit_requested st; ext := ext st;
     trace := trace st |}.

Definition set_num_runs (n : Z) (st : Centipede) : Centipede :=
  {| fs_ := fs_ st; corpus_ := corpus_ st;
     coverage_frontier_ := coverage_frontier_ st; rng_ := rng_ st;
     num_runs_ := n; num_crash_reports_ := num_crash_reports_ st;
     early_exit_requested := early_exit_requested st; ext := ext st;
     trace := trace st |}.

Definition set_num_crash_reports (n : Z) (st : Centipede) : Centipede :=
  {| fs_ := fs_ st; corpus_ := corpus_ st;
     coverage_frontier_ := coverage_frontier_ st; rng_ := rng_ st;
     num_runs_ := num_runs_ st; num_crash_reports_ := n;
     early_exit_requested := early_exit_requested st; ext := ext st;
     trace := trace st |}.

Definition RequestEarlyExit (st : Centipede) : Centipede :=
  {| fs_ := fs_ st; corpus_ := corpus_ st;
     coverage_frontier_ := coverage_frontier_ st; rng_ := rng_ st;
     num_runs_ := num_runs_ st; num_crash_reports_ := num_crash_reports_ st;
     early_exit_requested := true; ext := ext st;
     trace := trace st |}.

(** [user_callbacks_.Execute(binary, inputs, batch_result)]. *)
Definition CallExecute (binary : string) (inputs : list ByteArray)
           (st : Centipede) : bool * BatchResult * Centipede :=
  let '(success, batch_result, x) := Execute binary inputs (ext st) in
  (success, batch_result,
   emit (EvExecute binary inputs success) (set_ext x st)).

(** *** [Centipede::ReportCrash] *)

(** The lambda [TryOneInput]: executes one input; if it crashes, dumps
    the reproducer to disk and returns true. *)
Definition TryOneInput (env : Environment) (binary : string)
           (input : ByteArray) (st : Centipede) : outcome (bool * Centipede) :=
  let '(success, _, st) := CallExecute binary [input] st in
  if success then Returns (false, st)
  else
    let hash := Hash input in
    let crash_dir := crash_reproducer_dir env in
    let st := emit (EvMkdir crash_dir) st in
    let file_path := path_append crash_dir hash in
    let st := emit (EvLog "crash detected, saving input") st in
    let st := emit (EvLog "input bytes") st in
    if RemoteFileOpen_ok file_path
    then Returns (true, emit (EvWrite file_path input) st)
    else Fatal.

(** [for (auto &input : input_vec) if (TryOneInput(input)) return;] *)
Fixpoint try_one_by_one (env : Environment) (binary : string)
         (inputs : list ByteArray) (st : Centipede)
  : outcome (bool * Centipede) :=
  match inputs with
  | [] => Returns (false, st)
  | input :: rest =>
      r <~ TryOneInput env binary input st ;;
      if fst r then Returns (true, snd r)
      else try_one_by_one env binary rest (snd r)
  end.

Definition one_by_one (env : Environment) (binary : string)
           (input_vec : list ByteArray) (st : Centipede) : outcome Centipede :=
  let st := emit (EvLog "executing inputs one-by-one") st in
  r <~ try_one_by_one env binary input_vec st ;;
  if fst r then Returns (snd r)
  else
    Returns
      (emit (EvLog "crash was not observed when running inputs one-by-one")
            (snd r)).

Definition ReportCrash (env : Environment) (binary : string)
           (input_vec : list ByteArray) (batch_result : BatchResult)
           (st : Centipede) : outcome Centipede :=
  if max_num_crash_reports env <=? num_crash_reports_ st then Returns st
  else
    let st := emit (EvLog "Batch execution failed") st in
    let st := emit (EvLog "the crash occurred when running") st in
    let st := set_num_crash_reports (wrap64 (num_crash_reports_ st + 1)) st in
    let st :=
      if num_crash_reports_ st =? max_num_crash_reports env
      then emit (EvLog "Reached max number of crash reports") st
      else st in
    _ <~ CHECK (length input_vec =? length (results batch_result))%nat ;;
    if num_outputs_read batch_result <? Z.of_nat (length input_vec)
    then
      let st := emit (EvLog "executing input") st in
      input <~ span_at input_vec (num_outputs_read batch_result) ;;
      r <~ TryOneInput env binary input st ;;
      if fst r then Returns (snd r)
      else one_by_one env binary input_vec (snd r)
    else one_by_one env binary input_vec st.

(** *** [Centipede::RunBatch] *)

Definition ExecuteAndReportCrash (env : Environment) (binary : string)
           (input_vec : list ByteArray) (st : Centipede)
  : outcome (bool * BatchResult * Centipede) :=
  let '(success, batch_result, st) := CallExecute binary input_vec st in
  st <~ (if success then Returns st
         else ReportCrash env binary input_vec batch_result st) ;;
  Returns (success, batch_result, st).

Definition InputPassesFilter (env : Environment) (input : ByteArray)
           (st : Centipede) : bool * Centipede :=
  if input_filter_empty env then (true, st)
  else
    let '(interrupted, ok) := run_input_filter input in
    (ok, if interrupted then RequestEarlyExit st else st).

(** [corpus_.Prune(fs_)], with the cap and the random source of the
    specification's [prune]. *)
Definition PruneCorpus (env : Environment) (st : Centipede)
  : outcome Centipede :=
  r <~ Corpus.Prune (fs_ st) (coverage_frontier_ st) (max_corpus_size env)
         (rng_ st) (corpus_ st) ;;
  let '(_, c, rng) := r in
  Returns (set_rng rng (set_corpus c st)).

(** The body of the loop over the inputs of a batch. The appends to the
    shard files touch neither [fs_] nor [corpus_] and are left out. *)
Definition RunBatch_input (env : Environment) (input : ByteArray)
           (fv : FeatureVec) (acc : Centipede * bool)
  : outcome (Centipede * bool) :=
  let '(st, batch_gained_new_coverage) := acc in
  let function_filter_passed := function_filter fv in
  let '(unseen, fv) :=
    FeatureSet.CountUnseenAndPruneFrequentFeatures (fs_ st) fv in
  let input_gained_new_coverage := negb (unseen =? 0)%nat in
  if input_gained_new_coverage then
    let '(passes, st) := InputPassesFilter env input st in
    if negb passes then Returns (st, batch_gained_new_coverage)
    else
      let st := set_fs (FeatureSet.IncrementFrequencies fv (fs_ st)) st in
      _ <~ CHECK (0 <? length fv)%nat ;;
      st <~ (if function_filter_passed
             then
               c <~ Corpus.Add input fv [] (fs_ st) (coverage_frontier_ st)
                      (corpus_ st) ;;
               Returns (set_corpus c st)
             else Returns st) ;;
      st <~ (if negb (prune_frequency env =? 0)
                && (Z.of_nat (Corpus.NumTotal (corpus_ st))
                      mod prune_frequency env =? 0)
             then PruneCorpus env st
             else Returns st) ;;
      Returns (st, true)
  else Returns (st, batch_gained_new_coverage).

Fixpoint RunBatch_inputs (env : Environment) (input_vec : list ByteArray)
         (fvs : list FeatureVec) (acc : Centipede * bool)
  : outcome (Centipede * bool) :=
  match input_vec, fvs with
  | input :: inputs, fv :: fvs' =>
      acc <~ RunBatch_input env input fv acc ;;
      RunBatch_inputs env inputs fvs' acc
  | _, _ => Returns acc
  end.

(** The loop over [env_.extra_binaries]. *)
Fixpoint run_extra_binaries (env : Environment) (binaries : list string)
         (input_vec : list ByteArray) (acc : bool * Centipede)
  : outcome (bool * Centipede) :=
  match binaries with
  | [] => Returns acc
  | extra_binary :: rest =>
      r <~ ExecuteAndReportCrash env extra_binary input_vec (snd acc) ;;
      let '(ok, _, st) := r in
      run_extra_binaries env rest input_vec (ok && fst acc, st)
  end.

Definition RunBatch (env : Environment) (input_vec : list ByteArray)
           (st : Centipede) : outcome (bool * Centipede) :=
  r <~ ExecuteAndReportCrash env (binary env) input_vec st ;;
  let '(success, batch_result, st) := r in
  _ <~ CHECK (length input_vec =? length (results batch_result))%nat ;;
  r <~ run_extra_binaries env (extra_binaries env) input_vec (success, st) ;;
  let '(success, st) := r in
  if negb success && exit_on_crash env
  then Returns (false, RequestEarlyExit (emit (EvLog "exiting soon") st))
  else
    _ <~ CHECK (length (results batch_result) =? length input_vec)%nat ;;
    let st := set_num_runs
                (wrap64 (num_runs_ st + Z.of_nat (length input_vec))) st in
    r <~ RunBatch_inputs env input_vec (results batch_result) (st, false) ;;
    Returns (snd r, fst r).

(** *** [Centipede::LoadShard] *)

(** The loop over the records of a shard. Records without features are
    collected for a rerun when [rerun] is set. *)
Fixpoint LoadShard_records (rerun : bool) (records : list Corpus.CorpusRecord)
         (acc : Centipede * nat * list ByteArray)
  : outcome (Centipede * nat * list ByteArray) :=
  match records with
  | [] => Returns acc
  | cr :: rest =>
      let '(st, added_to_corpus, to_rerun) := acc in
      match Corpus.features cr with
      | [] =>
          LoadShard_records rerun rest
            (st, added_to_corpus,
             if rerun then to_rerun ++ [Corpus.data cr] else to_rerun)
      | _ :: _ =>
          let '(unseen, fv) :=
            FeatureSet.CountUnseenAndPruneFrequentFeatures
              (fs_ st) (Corpus.features cr) in
          if negb (unseen =? 0)%nat then
            let st := set_fs (FeatureSet.IncrementFrequencies fv (fs_ st)) st in
            c <~ Corpus.Add (Corpus.data cr) fv [] (fs_ st)
                   (coverage_frontier_ st) (corpus_ st) ;;
            LoadShard_records rerun rest
              (set_corpus c st, S added_to_corpus, to_rerun)
          else LoadShard_records rerun rest acc
      end
  end.

(** [LoadShard(env_, shard_index, /*rerun=*/false)], the call of the main
    loop: nothing is collected for a rerun, so the function returns after
    the loop over the records. *)
Definition LoadShard_no_rerun (shard_index : Z) (st : Centipede)
  : outcome Centipede :=
  let '(records, x) := ReadCorpusRecords shard_index (ext st) in
  r <~ LoadShard_records false records (set_ext x st, O, []) ;;
  let '(st, added_to_corpus, _) := r in
  Returns (if (added_to_corpus =? 0)%nat then st
           else emit (EvLog "load-shard") st).

(** *** [Centipede::FuzzingLoop] *)

(** [if (corpus_.NumTotal() == 0) corpus_.Add(DummyValidInput(), {}, fs_);] *)
Definition add_dummy_if_empty (st : Centipede) : outcome Centipede :=
  if (Corpus.NumTotal (corpus_ st) =? 0)%nat then
    c <~ Corpus.Add DummyValidInput [] [] (fs_ st) (coverage_frontier_ st)
           (corpus_ st) ;;
    Returns (set_corpus c st)
  else Returns st.

(** One slot of a batch: [corpus_.WeightedRandom(rng_())] or
    [corpus_.UniformRandom(rng_())]. *)
Definition sample_input (env : Environment) (st : Centipede)
  : outcome (ByteArray * Centipede) :=
  let '(r, rng) := rng_next (rng_ st) in
  let st := emit (EvSample (Corpus.NumActive (corpus_ st))) (set_rng rng st) in
  input <~ (if use_corpus_weights env
            then Corpus.WeightedRandom (corpus_ st) r
            else Corpus.UniformRandom (corpus_ st) r) ;;
  Returns (input, st).

Fixpoint sample_inputs (env : Environment) (n : nat) (st : Centipede)
  : outcome (list ByteArray * Centipede) :=
  match n with
  | O => Returns ([], st)
  | S n' =>
      r <~ sample_input env st ;;
      rest <~ sample_inputs env n' (snd r) ;;
      Returns (fst r :: fst rest, snd rest)
  end.

(** The condition of the periodic load of another shard. *)
Definition load_other_shard_fires (env : Environment) (batch_index : Z)
  : bool :=
  negb (load_other_shard_frequency env =? 0)
  && (batch_index mod load_other_shard_frequency env =? 0)
  && (1 <? total_shards env).

(** [(env_.my_shard_index + 1 + rand) % env_.total_shards] with
    [rand = rng_() % (env_.total_shards - 1)]. *)
Definition other_shard_index (env : Environment) (rng_value : Z) : Z :=
  let rand := rng_value mod wrap64 (total_shards env - 1) in
  wrap64 (wrap64 (my_shard_index env + 1) + rand) mod total_shards env.

(** The choice of the shard with its [CHECK_NE]. *)
Definition pick_other_shard (env : Environment) (rng_value : Z) : outcome Z :=
  let other := other_shard_index env rng_value in
  _ <~ CHECK (negb (other =? my_shard_index env)) ;;
  Returns other.

Definition LoadOtherShard (env : Environment) (batch_index : Z)
           (st : Centipede) : outcome Centipede :=
  if load_other_shard_fires env batch_index then
    let '(r, rng) := rng_next (rng_ st) in
    other <~ pick_other_shard env r ;;
    LoadShard_no_rerun other (set_rng rng st)
  else Returns st.

(** The body of the main loop after the early-exit test. *)
Definition FuzzingLoop_batch (env : Environment) (batch_index : Z)
           (acc : Centipede * Z) : outcome (Centipede * Z) :=
  let '(st, new_runs) := acc in
  _ <~ CHECK (new_runs <? num_runs env) ;;
  let remaining_runs := num_runs env - new_runs in
  let batch_size := Z.min (batch_size env) remaining_runs in
  r <~ sample_inputs env (Z.to_nat batch_size) st ;;
  let '(input_vec, st) := r in
  let '(input_vec, x) := Mutate input_vec (ext st) in
  r <~ RunBatch env input_vec (set_ext x st) ;;
  let '(gained_new_coverage, st) := r in
  let new_runs := wrap64 (new_runs + Z.of_nat (length input_vec)) in
  let batch_is_power_of_two :=
    Z.land (wrap64 (batch_index - 1)) batch_index =? 0 in
  let st :=
    if gained_new_coverage then emit (EvLog "new-feature") st
    else if batch_is_power_of_two then emit (EvLog "pulse") st
    else st in
  let st :=
    if batch_is_power_of_two then emit (EvLog "corpus-stats") st else st in
  st <~ LoadOtherShard env batch_index st ;;
  Returns (st, new_runs).

(** The main loop, [n] batches from [batch_index] on. *)
Fixpoint FuzzingLoop_batches (env : Environment) (n : nat) (batch_index : Z)
         (acc : Centipede * Z) : outcome (Centipede * Z) :=
  match n with
  | O => Returns acc
  | S n' =>
      if early_exit_requested (fst acc) then Returns acc
      else
        acc <~ FuzzingLoop_batch env batch_index acc ;;
        FuzzingLoop_batches env n' (wrap64 (batch_index + 1)) acc
  end.

(** [(env_.num_runs + env_.batch_size - 1) / env_.batch_size]. *)
Definition number_of_batches (env : Environment) : outcome Z :=
  if batch_size env =? 0 then Undefined division_by_zero
  else
    Returns (wrap64 (wrap64 (num_runs env + batch_size env) - 1)
             / batch_size env).

(** The state in which the main loop is entered: [Log("init-done:")],
    [num_runs_ = 0]. *)
Definition start_of_main_loop (st : Centipede) : Centipede :=
  set_num_runs 0 (emit (EvLog "init-done:") st).

(** [FuzzingLoop] from the point where the shards are loaded and merged:
    the dummy input, the reset of the counters, the main loop. Distilling
    and the coverage report write files only and are left out. *)
Definition FuzzingLoop_after_load (env : Environment) (st : Centipede)
  : outcome Centipede :=
  st <~ add_dummy_if_empty st ;;
  let st := start_of_main_loop st in
  n <~ number_of_batches env ;;
  r <~ FuzzingLoop_batches env (Z.to_nat n) 0 (st, 0) ;;
  Returns (emit (EvLog "end-fuzz") (fst r)).

(** An environment for the examples: shard 3 of 5. *)
Definition shard_env : Environment :=
  {| total_shards := 5; my_shard_index := 3; num_runs := 1000;
     batch_size := 10; prune_frequency := 100;
     load_other_shard_frequency := 10; max_num_crash_reports := 5;
     use_corpus_weights := true; exit_on_crash := false;
     input_filter_empty := true; binary := "target";
     extra_binaries := []; crash_reproducer_dir := "crashes";
     max_corpus_size := 1000 |}.




(** Two states of the engine that differ in the outside world and the
    trace at most. *)
Definition engine_same (st st' : Centipede) : Prop :=
  fs_ st' = fs_ st /\ corpus_ st' = corpus_ st /\
  coverage_frontier_ st' = coverage_frontier_ st /\ rng_ st' = rng_ st /\
  num_runs_ st' = num_runs_ st /\
  num_crash_reports_ st' = num_crash_reports_ st /\
  early_exit_requested st' = early_exit_requested st.

(** A step that leaves the feature set, the corpus and the frontier
    alone. *)
Definition same_corpus (st st' : Centipede) : Prop :=
  fs_ st' = fs_ st /\ corpus_ st' = corpus_ st /\
  coverage_frontier_ st' = coverage_frontier_ st.






(** *** Counters, crash reports and the rerun of a shard *)

Definition is_reproducer (o : Obs) : bool :=
  match o with Wrote _ _ => true | Ran _ _ => false end.

(** The number of reproducer files a trace writes. *)
Definition reproducers_written (tr : list Event) : Z :=
  Z.of_nat (length (List.filter is_reproducer (observations tr))).

(** [cr.features.empty()]. *)
Definition without_features (cr : Corpus.CorpusRecord) : bool :=
  match Corpus.features cr with [] => true | _ :: _ => false end.

(** The batches a trace executes, one entry per call of [Execute]. *)
Definition executed_batch (e : Event) : list (list ByteArray) :=
  match e with EvExecute _ inputs _ => [inputs] | _ => [] end.

Definition executed_batches (tr : list Event) : list (list ByteArray) :=
  flat_map executed_batch tr.

(** The mutator returns as many inputs as it is given. *)
Definition mutate_keeps_size : Prop :=
  forall input_vec x, length (fst (Mutate input_vec x)) = length input_vec.

(** Every reproducer written is counted in [num_crash_reports_], which
    is at most [max_num_crash_reports]. *)
Definition crash_reports_bounded (env : Environment) (st : Centipede)
  : Prop :=
  reproducers_written (trace st) <= num_crash_reports_ st
  /\ num_crash_reports_ st <= max_num_crash_reports env.

(** A step that leaves [num_runs_] alone, does not take back a request
    for an early exit and keeps the crash reports bounded. *)
Definition quiet (env : Environment) (st st' : Centipede) : Prop :=
  num_runs_ st' = num_runs_ st /\
  (early_exit_requested st = true -> early_exit_requested st' = true) /\
  (is_u64 (max_num_crash_reports env) ->
   crash_reports_bounded env st -> crash_reports_bounded env st').

(** The values of [new_runs] with which the batches of the main loop
    start, up to the batch that does not return or the early exit. *)
Fixpoint batch_new_runs (env : Environment) (n : nat) (batch_index : Z)
         (acc : Centipede * Z) : list Z :=
  match n with
  | O => []
  | S n' =>
      if early_exit_requested (fst acc) then []
      else
        snd acc
        :: match FuzzingLoop_batch env batch_index acc with
           | Returns acc =>
               batch_new_runs env n' (wrap64 (batch_index + 1)) acc
           | _ => []
           end
  end.

(** A step that leaves the counters and the early-exit flag as they
    were, as the one-input runs of a crash report do. *)
Definition one_more (st st' : Centipede) : Prop :=
  num_runs_ st' = num_runs_ st /\
  num_crash_reports_ st' = num_crash_reports_ st /\
  early_exit_requested st' = early_exit_requested st.

(** The loop of [LoadShard] that re-runs the inputs without features,
    in batches of at most [env_.batch_size] taken from the end of
    [to_rerun]. The loop ends when [to_rerun] is empty; [fuel] bounds the
    number of iterations, and [None] says that it ran out. *)
Fixpoint rerun_loop (env : Environment) (fuel : nat)
         (to_rerun : list ByteArray) (st : Centipede)
  : option (outcome Centipede) :=
  match to_rerun with
  | [] => Some (Returns st)
  | _ :: _ =>
      match fuel with
      | O => None
      | S fuel' =>
          let batch_size :=
            Z.min (Z.of_nat (length to_rerun)) (batch_size env) in
          let kept := (length to_rerun - Z.to_nat batch_size)%nat in
          let batch := drop kept to_rerun in
          let to_rerun := take kept to_rerun in
          match RunBatch env batch st with
          | Returns (gained, st) =>
              rerun_loop env fuel' to_rerun
                (if gained then emit (EvLog "rerun-old") st else st)
          | Fatal => Some Fatal
          | Undefined u => Some (Undefined u)
          end
      end
  end.

(** [LoadShard(load_env, shard_index, rerun)]; [read] is
    [ReadCorpusRecords(load_env, _)]. One iteration of the rerun loop per
    input is allowed for. The files opened for the rerun are only
    appended to and are left out. *)
Definition LoadShard (env : Environment)
           (read : Z -> ExternalState
                   -> list Corpus.CorpusRecord * ExternalState)
           (shard_index : Z) (rerun : bool) (st : Centipede)
  : option (outcome Centipede) :=
  let '(records, x) := read shard_index (ext st) in
  match LoadShard_records rerun records (set_ext x st, O, []) with
  | Returns (st, added_to_corpus, to_rerun) =>
      let st := if (added_to_corpus =? 0)%nat then st
                else emit (EvLog "load-shard") st in
      match to_rerun with
      | [] => Some (Returns st)
      | _ :: _ =>
          rerun_loop env (length to_rerun) to_rerun
                     (emit (EvLog "inputs to rerun") st)
      end
  | Fatal => Some Fatal
  | Undefined u => Some (Undefined u)
  end.

(** [corpus_.Get(idx)] for [count] indices from [idx] on. *)
Fixpoint get_range (c : Corpus.t) (idx count : nat)
  : outcome (list ByteArray) :=
  match count with
  | O => Returns []
  | S count' =>
      input <~ Corpus.Get c idx ;;
      rest <~ get_range c (S idx) count' ;;
      Returns (input :: rest)
  end.

(** [MergeFromOtherCorpus(merge_from_dir, shard_index_to_merge)];
    [read_merge_from] is [ReadCorpusRecords(merge_from_env, _)] and
    [corpus_path] is [env_.MakeCorpusPath(env_.my_shard_index)]. Returns
    the inputs that are packed and appended to [corpus_path]. *)
Definition MergeFromOtherCorpus (env : Environment)
           (read_merge_from : Z -> ExternalState
                              -> list Corpus.CorpusRecord * ExternalState)
           (corpus_path : string) (shard_index_to_merge : Z)
           (st : Centipede)
  : option (outcome (Centipede * list ByteArray)) :=
  let st := emit (EvLog "MergeFromOtherCorpus") st in
  let initial_corpus_size := Corpus.NumActive (corpus_ st) in
  match LoadShard env read_merge_from shard_index_to_merge true st with
  | Some (Returns st) =>
      let new_corpus_size := Corpus.NumActive (corpus_ st) in
      Some
        (_ <~ CHECK (initial_corpus_size <=? new_corpus_size)%nat ;;
         if (initial_corpus_size <? new_corpus_size)%nat then
           combined_inputs <~
             get_range (corpus_ st) initial_corpus_size
                       (new_corpus_size - initial_corpus_size) ;;
           let st := emit (EvLog "merge: new inputs added") st in
           _ <~ CHECK (RemoteFileOpen_ok corpus_path) ;;
           Returns (st, combined_inputs)
         else Returns (st, []))
  | Some Fatal => Some Fatal
  | Some (Undefined u) => Some (Undefined u)
  | None => None
  end.

(** Every execution of the target succeeds. *)
Definition all_succeed : Prop :=
  forall binary inputs x, fst (fst (Execute binary inputs x)) = true.

(** A step that only appends records to the corpus. *)
Definition corpus_grows (st st' : Centipede) : Prop :=
  exists new,
    Corpus.records_ (corpus_ st') = Corpus.records_ (corpus_ st) ++ new.

(** What a crash report may do: run single inputs of the batch, and
    write an input of the batch to the crash directory under its hash. *)
Definition of_the_batch (env : Environment) (input_vec : list ByteArray)
           (o : Obs) : Prop :=
  match o with
  | Ran inputs _ => exists input, inputs = [input] /\ input ∈ input_vec
  | Wrote path bytes =>
      bytes ∈ input_vec /\
      path = path_append (crash_reproducer_dir env) (Hash bytes)
  end.

End WithCollaborators.

(** The number of inputs of a batch before the first one in [crashes]. *)
Fixpoint outputs_read (crashes : ByteArray -> bool) (inputs : list ByteArray)
  : nat :=
  match inputs with
  | [] => O
  | input :: rest =>
      if crashes input then O else S (outputs_read crashes rest)
  end.

(** Collaborators for the examples. A batch fails when one of its inputs
    is in [crashes], and stops reading outputs there; the features of an
    input are [features_of]; the mutator leaves the batch alone; all files
    can be opened; the function filter answers [filter_passes]; no other
    shard has records. *)
Definition simple_collaborators (crashes : ByteArray -> bool)
           (features_of : ByteArray -> FeatureVec) (filter_passes : bool)
  : Collaborators :=
  {| ExternalState := unit;
     Execute := fun _ inputs x =>
       (negb (existsb crashes inputs),
        {| exit_code := if existsb crashes inputs then 1 else 0;
           log := "";
           num_outputs_read :=
             Z.of_nat (outputs_read crashes inputs);
           results := map features_of inputs |},
        x);
     Mutate := fun batch x => (batch, x);
     DummyValidInput := [];
     Hash := string_of_list_byte;
     path_append := fun dir name => (dir ++ "/" ++ name)%string;
     RemoteFileOpen_ok := fun _ => true;
     function_filter := fun _ => filter_passes;
     run_input_filter := fun _ => (false, true);
     ReadCorpusRecords := fun _ x => ([], x) |}.


(** The engine before anything is loaded, with the frequency threshold
    100 of the constructor of [Centipede], the counting generator and the
    collaborators of the examples. *)
Definition initial_state (crashes : ByteArray -> bool)
           (features_of : ByteArray -> FeatureVec) (filter_passes : bool)
  : @Centipede (simple_collaborators crashes features_of filter_passes)
               counting_rng :=
  {| fs_ := FeatureSet.make 100;
     corpus_ := Corpus.empty;
     coverage_frontier_ := CoverageFrontier.make 0;
     rng_ := (0 : @Rng counting_rng);
     num_runs_ := 0;
     num_crash_reports_ := 0;
     early_exit_requested := false;
     ext := (tt : @ExternalState
                    (simple_collaborators crashes features_of filter_passes));
     trace := [] |}.




(** The same run when the function filter lets every input pass. *)
Definition unfiltered_collaborators : Collaborators :=
  simple_collaborators (fun _ => false) (fun _ => [7]) true.

Definition unfiltered_start
  : @Centipede unfiltered_collaborators counting_rng :=
  initial_state (fun _ => false) (fun _ => [7]) true.

(** A target that crashes on the input [*]. *)
Definition crashes_on_star (input : ByteArray) : bool :=
  match input with
  | [b] => Byte.eqb b Byte.x2a
  | _ => false
  end.

Definition crash_batch : list ByteArray :=
  [[Byte.x01]; [Byte.x2a]; [Byte.x03]].

Definition crash_batch_result : BatchResult :=
  {| exit_code := 1; log := ""; num_outputs_read := 1;
     results := [[]; []; []] |}.

(** [bool batch_is_power_of_two = ((batch_index - 1) & batch_index) == 0]. *)
Definition batch_is_power_of_two (batch_index : Z) : bool :=
  Z.land (wrap64 (batch_index - 1)) batch_index =? 0.

(** A call that ends by returning. *)
Definition finished {A} (o : option (outcome A)) : bool :=
  match o with Some (Returns _) => true | _ => false end.

(** A target that crashes on every input, with one crash report
    allowed: one shard, three runs in batches of one. *)
Definition crashing_env : Environment :=
  {| total_shards := 1; my_shard_index := 0; num_runs := 3;
     batch_size := 1; prune_frequency := 0;
     load_other_shard_frequency := 0; max_num_crash_reports := 1;
     use_corpus_weights := false; exit_on_crash := false;
     input_filter_empty := true; binary := "target";
     extra_binaries := []; crash_reproducer_dir := "crashes";
     max_corpus_size := 1000 |}.

(** The same with [--exit_on_crash]. *)
Definition exit_env : Environment :=
  {| total_shards := 1; my_shard_index := 0; num_runs := 3;
     batch_size := 1; prune_frequency := 0;
     load_other_shard_frequency := 0; max_num_crash_reports := 1;
     use_corpus_weights := false; exit_on_crash := true;
     input_filter_empty := true; binary := "target";
     extra_binaries := []; crash_reproducer_dir := "crashes";
     max_corpus_size := 1000 |}.

Definition crashing_collaborators : Collaborators :=
  simple_collaborators (fun _ => true) (fun _ => [7]) true.

Definition crashing_start
  : @Centipede crashing_collaborators counting_rng :=
  initial_state (fun _ => true) (fun _ => [7]) true.

(** The start of the example once the dummy input is in the corpus. *)
Definition crashing_ready
  : @Centipede crashing_collaborators counting_rng :=
  match @add_dummy_if_empty crashing_collaborators counting_rng
          FeatureSet.test_scoring crashing_start with
  | Returns st => st
  | _ => crashing_start
  end.

(** What an example observes of a call: [f] of what it returns. *)
Definition observed {A B} (f : A -> B) (o : outcome A) : option B :=
  match o with Returns a => Some (f a) | _ => None end.

(** A shard with an input without features and one with the feature 5. *)
Definition two_records : list Corpus.CorpusRecord :=
  [{| Corpus.data := [Byte.x01]; Corpus.features := [];
      Corpus.cmp_args := [] |};
   {| Corpus.data := [Byte.x02]; Corpus.features := [5];
      Corpus.cmp_args := [] |}].

(** A run without crashes or pruning that re-runs in batches of two. *)
Definition rerun_env : Environment :=
  {| total_shards := 1; my_shard_index := 0; num_runs := 4;
     batch_size := 2; prune_frequency := 0;
     load_other_shard_frequency := 0; max_num_crash_reports := 5;
     use_corpus_weights := false; exit_on_crash := false;
     input_filter_empty := true; binary := "target";
     extra_binaries := []; crash_reproducer_dir := "crashes";
     max_corpus_size := 1000 |}.

(** The same with [--batch_size=0]. *)
Definition zero_batch_env : Environment :=
  {| total_shards := 1; my_shard_index := 0; num_runs := 4;
     batch_size := 0; prune_frequency := 0;
     load_other_shard_frequency := 0; max_num_crash_reports := 5;
     use_corpus_weights := false; exit_on_crash := false;
     input_filter_empty := true; binary := "target";
     extra_binaries := []; crash_reproducer_dir := "crashes";
     max_corpus_size := 1000 |}.

Definition three_inputs : list ByteArray :=
  [[Byte.x01]; [Byte.x02]; [Byte.x03]].

End Loop.

(** ** Exporting a local directory into the shards ([centipede.cc]) *)
Module CorpusExport.

(** The utilities [ExportCorpusFromLocalDir] calls, which are not part
    of this development's sources: the hash of an input, the packing of
    an input for a blob file, the hashes
    [UnpackBytesFromAppendFile(data, nullptr, &hashes)] finds in the
    contents of a blob file, and whether [RemoteFileOpen(path, "a")] of
    the corpus file of a shard yields a file. *)
Class Files : Type := {
  Hash : ByteArray -> string;
  PackBytesForAppendFile : ByteArray -> ByteArray;
  UnpackedHashes : ByteArray -> list string;
  RemoteFileOpen_append_ok : Z -> bool
}.

(** An entry of the [recursive_directory_iterator]: whether it is a
    regular file, [std::hash<std::string>] of its file name, and what
    [ReadFromLocalFile] reads from it. *)
Record DirEntry : Type := {
  is_regular_file : bool;
  filename_hash : Z;
  contents : ByteArray
}.

Section WithFiles.
Context `{Files}.

(** The first loop: [sharded_paths[filename_hash % total_shards]
    .push_back(path); ++total_paths]. *)
Fixpoint shard_paths (total_shards : Z) (entries : list DirEntry)
         (acc : list (list DirEntry) * Z)
  : outcome (list (list DirEntry) * Z) :=
  match entries with
  | [] => Returns acc
  | entry :: rest =>
      if is_regular_file entry then
        if total_shards =? 0 then Undefined division_by_zero
        else
          let shard := Z.to_nat (filename_hash entry mod total_shards) in
          match fst acc !! shard with
          | Some paths =>
              shard_paths total_shards rest
                (<[shard := paths ++ [entry]]> (fst acc),
                 wrap64 (snd acc + 1))
          | None => Undefined out_of_range
          end
      else shard_paths total_shards rest acc
  end.

(** [existing_hashes.contains(hash)]. *)
Definition contains (existing_hashes : list string) (hash : string) : bool :=
  existsb (String.eqb hash) existing_hashes.

(** The hashes collected from the file of a shard, if it exists. The
    corpus files are kept by shard index; a shard without a binding has
    no file. *)
Definition existing_hashes (files : gmap Z ByteArray) (shard : Z)
  : list string :=
  match files !! shard with
  | Some shard_data => UnpackedHashes shard_data
  | None => []
  end.

(** The loop over the paths of a shard; the accumulator is
    [(shard_data, inputs_added, inputs_ignored)]. *)
Fixpoint add_inputs (existing : list string) (paths : list DirEntry)
         (acc : ByteArray * Z * Z) : ByteArray * Z * Z :=
  match paths with
  | [] => acc
  | path :: rest =>
      let '(shard_data, inputs_added, inputs_ignored) := acc in
      let input := contents path in
      if contains existing (Hash input)
      then add_inputs existing rest
             (shard_data, inputs_added, wrap64 (inputs_ignored + 1))
      else add_inputs existing rest
             (shard_data ++ PackBytesForAppendFile input,
              wrap64 (inputs_added + 1), inputs_ignored)
  end.

(** The loop over the shards, [count] of them from [shard] on. *)
Fixpoint export_shards (count : nat) (shard : Z)
         (sharded_paths : list (list DirEntry)) (files : gmap Z ByteArray)
         (inputs_added inputs_ignored : Z)
  : outcome (gmap Z ByteArray * Z * Z) :=
  match count with
  | O => Returns (files, inputs_added, inputs_ignored)
  | S count' =>
      let existing := existing_hashes files shard in
      paths <~ span_at sharded_paths shard ;;
      let '(shard_data, inputs_added, inputs_ignored) :=
        add_inputs existing paths ([], inputs_added, inputs_ignored) in
      _ <~ CHECK (RemoteFileOpen_append_ok shard) ;;
      let files :=
        <[shard := default [] (files !! shard) ++ shard_data]> files in
      export_shards count' (shard + 1) sharded_paths files
                    inputs_added inputs_ignored
  end.

(** [ExportCorpusFromLocalDir(env, local_dir)]: [entries] is what the
    directory iterator yields, in its order. Returns the shard files and
    the return value 0. *)
Definition ExportCorpusFromLocalDir (total_shards : Z)
           (entries : list DirEntry) (files : gmap Z ByteArray)
  : outcome (gmap Z ByteArray * Z) :=
  r <~ shard_paths total_shards entries
         (replicate (Z.to_nat total_shards) [], 0) ;;
  let '(sharded_paths, total_paths) := r in
  r <~ export_shards (Z.to_nat total_shards) 0 sharded_paths files 0 0 ;;
  let '(files, inputs_added, inputs_ignored) := r in
  _ <~ CHECK (total_paths =? wrap64 (inputs_added + inputs_ignored)) ;;
  Returns (files, 0).

(** The regular files that go to [shard]. *)
Definition paths_of_shard (total_shards shard : Z) (entries : list DirEntry)
  : list DirEntry :=
  List.filter
    (fun e => is_regular_file e && (filename_hash e mod total_shards =? shard))
    entries.

(** The inputs among [paths] that the shard does not hold yet. *)
Definition new_inputs (existing : list string) (paths : list DirEntry)
  : list ByteArray :=
  List.filter (fun input => negb (contains existing (Hash input)))
              (map contents paths).

Definition pack_all (inputs : list ByteArray) : ByteArray :=
  concat (map PackBytesForAppendFile inputs).

(** What the export appends to the file of [shard]. *)
Definition exported (total_shards : Z) (files : gmap Z ByteArray) (shard : Z)
           (entries : list DirEntry) : ByteArray :=
  pack_all (new_inputs (existing_hashes files shard)
                       (paths_of_shard total_shards shard entries)).

(** Blob files out of which the hashes of the packed inputs are read
    back: [well_packed] data stays so when an input is appended, and the
    hash of the input is then found after those of the data. *)
Definition unpack_reads_back (well_packed : ByteArray -> Prop) : Prop :=
  well_packed [] /\
  forall data input,
    well_packed data ->
    well_packed (data ++ PackBytesForAppendFile input) /\
    UnpackedHashes (data ++ PackBytesForAppendFile input)
    = UnpackedHashes data ++ [Hash input].

End WithFiles.

(** A toy blob format for the examples: an input is packed into its
    first byte, which is also its hash. *)
Definition first_byte (input : ByteArray) : Byte.byte :=
  match input with b :: _ => b | [] => Byte.x00 end.

Definition toy_files : Files :=
  {| Hash := fun input => string_of_list_byte [first_byte input];
     PackBytesForAppendFile := fun input => [first_byte input];
     UnpackedHashes := map (fun b => string_of_list_byte [b]);
     RemoteFileOpen_append_ok := fun _ => true |}.

(** A directory with a sub-directory and three files, two of them with
    the same contents. *)
Definition toy_dir : list DirEntry :=
  [{| is_regular_file := true; filename_hash := 7; contents := [Byte.x61] |};
   {| is_regular_file := false; filename_hash := 0; contents := [] |};
   {| is_regular_file := true; filename_hash := 4; contents := [Byte.x62] |};
   {| is_regular_file := true; filename_hash := 5; contents := [Byte.x61] |}].

End CorpusExport.

(** ** The data-flow callback of the runner ([runner_sancov.cc]) *)
Module Sancov.

(** The fields of the global runner state that [TraceLoad] reads. *)
Record RunnerState : Type := {
  use_dataflow_features : bool;
  main_object_start_address : Z;
  main_object_size : Z
}.

(** [TraceLoad(addr)], called from [caller_pc]: the arguments with which
    [ConvertPcPairToNumber] is called to form the feature that is set, if
    one is. The subtractions are on [uintptr_t]. *)
Definition TraceLoad (state : RunnerState) (caller_pc load_addr : Z)
  : option (Z * Z * Z) :=
  if negb (use_dataflow_features state) then None
  else
    let pc_offset := wrap64 (caller_pc - main_object_start_address state) in
    if main_object_size state <=? pc_offset then None
    else
      let addr_offset :=
        wrap64 (load_addr - main_object_start_address state) in
      if main_object_size state <=? addr_offset then None
      else Some (pc_offset, addr_offset, main_object_size state).

(** Whether [x] lies in the main object. *)
Definition in_main_object (state : RunnerState) (x : Z) : bool :=
  (main_object_start_address state <=? x)
  && (x <? main_object_start_address state + main_object_size state).

(** A runner whose main object is the 4096 bytes from 65536 on. *)
Definition sample_state : RunnerState :=
  {| use_dataflow_features := true;
     main_object_start_address := 65536;
     main_object_size := 4096 |}.

End Sancov.

(** ** The puzzle runner ([puzzles/run_puzzle.sh]) *)
Module RunPuzzle.











End RunPuzzle.

(** * Properties *)

(** ** Outcomes *)

Lemma obind_returns {A B} (m : outcome A) (f : A -> outcome B) (b : B) :
  obind m f = Returns b -> exists a, m = Returns a /\ f a = Returns b.
Proof. destruct m as [a| |u]; simpl; intros E; [eauto | discriminate..]. Qed.

Lemma CHECK_returns (c : bool) (u : unit) : CHECK c = Returns u -> c = true.
Proof. destruct c; [reflexivity | discriminate]. Qed.

Lemma wrap64_small (x : Z) : is_u64 x -> wrap64 x = x.
Proof. unfold is_u64, wrap64. intros Hx. apply Z.mod_small. exact Hx. Qed.

Lemma wrap64_range (x : Z) : is_u64 (wrap64 x).
Proof. unfold is_u64, wrap64. apply Z.mod_pos_bound. lia. Qed.

(** ** Knobs *)
Module KnobsFacts.
Import Knobs.

Lemma Value_valid (k : Knobs) (id : KnobId) :
  wf k -> valid_id id ->
  Value k id = Returns (weight_of k id) /\ is_u8 (weight_of k id).
Proof.
  intros [Hlen Hall] [Hlo Hhi]. unfold Value, weight_of, span_at.
  destruct (Z.leb_spec kNumKnobs id) as [Hge|_]; [lia|].
  destruct (knobs_ k !! Z.to_nat id) as [v|] eqn:E.
  - split; [reflexivity|]. simpl.
    rewrite Forall_forall in Hall. apply Hall.
    apply list_elem_of_lookup. eauto.
  - apply lookup_ge_None in E. lia.
Qed.

(** How many of the 252 residues make [GenerateBool] answer [true]. *)
Lemma count_le_below (v : Z) :
  2 <= v <= 253 ->
  Z.of_nat (length (List.filter (fun r => r <=? v - 2) (seqZ 0 252))) = v - 1.
Proof.
  intros Hv.
  assert (Hall : forallb
            (fun v => Z.of_nat (length (List.filter (fun r => r <=? v - 2)
                                                    (seqZ 0 252))) =? v - 1)
            (seqZ 2 252) = true) by (vm_compute; reflexivity).
  rewrite forallb_forall in Hall.
  apply Z.eqb_eq, Hall. apply list_elem_of_In, elem_of_seqZ. lia.
Qed.

Lemma filter_ext_in {A} (f g : A -> bool) (l : list A) :
  (forall x, In x l -> f x = g x) -> List.filter f l = List.filter g l.
Proof.
  induction l as [|a l IH]; simpl; intros Hfg; [reflexivity|].
  rewrite (Hfg a) by (left; reflexivity).
  rewrite IH by (intros x Hx; apply Hfg; right; exact Hx). reflexivity.
Qed.

(** C7: [GenerateBool] returns the default for the knob values 0 and 255,
    false for 1, true for 254, and for a value [v] in [2, 253] it returns
    true exactly when [random mod 252 <= v - 2], which [v - 1] of the 252
    residues satisfy: the share of [true] grows linearly with [v]. *)
Theorem GenerateBool_spec (k : Knobs) (id : KnobId) (default_value : bool)
        (random : Z) :
  wf k -> valid_id id ->
  let v := weight_of k id in
  Value k id = Returns v /\
  (v = 0 \/ v = 255 ->
   GenerateBool k id default_value random = Returns default_value) /\
  (v = 1 -> GenerateBool k id default_value random = Returns false) /\
  (v = 254 -> GenerateBool k id default_value random = Returns true) /\
  (2 <= v <= 253 ->
   GenerateBool k id default_value random
   = Returns (random mod 252 <=? v - 2) /\
   Z.of_nat (length (List.filter
                       (fun r => returns_true
                                   (GenerateBool k id default_value r))
                       (seqZ 0 252))) = v - 1).
Proof.
  intros Hk Hid v. destruct (Value_valid k id Hk Hid) as [HV Hu8].
  fold v in HV, Hu8.
  assert (Hmid : forall r, 2 <= v <= 253 ->
            GenerateBool k id default_value r = Returns (r mod 252 <=? v - 2)).
  { intros r Hv. unfold GenerateBool. rewrite HV. simpl.
    destruct (Z.eqb_spec v 0); [lia|]. destruct (Z.eqb_spec v 255); [lia|].
    destruct (Z.eqb_spec v 1); [lia|]. destruct (Z.eqb_spec v 254); [lia|].
    simpl. unfold wrap8. rewrite (Z.mod_small (v - 2)) by lia.
    reflexivity. }
  split; [exact HV|].
  split; [|split; [|split; [|split]]].
  - intros Hv. unfold GenerateBool. rewrite HV. simpl.
    destruct Hv as [-> | ->]; reflexivity.
  - intros Hv. unfold GenerateBool. rewrite HV, Hv. reflexivity.
  - intros Hv. unfold GenerateBool. rewrite HV, Hv. reflexivity.
  - apply Hmid. assumption.
  - rewrite <- (count_le_below v) by assumption. f_equal. f_equal.
    apply filter_ext_in. intros r Hr.
    apply list_elem_of_In, elem_of_seqZ in Hr.
    rewrite Hmid by assumption. simpl.
    rewrite Z.mod_small by lia.
    destruct (r <=? v - 2); reflexivity.
Qed.

Lemma GenerateBool_spec_witness :
  wf sample_knobs /\ valid_id 5 /\
  GenerateBool sample_knobs 5 false 1000 = Returns false.
Proof.
  assert (Hwf : wf sample_knobs).
  { split; [reflexivity|]. unfold sample_knobs. simpl.
    repeat constructor; unfold is_u8; lia. }
  assert (Hid : valid_id 5) by (unfold valid_id, kNumKnobs; lia).
  split; [exact Hwf|]. split; [exact Hid|].
  destruct (GenerateBool_spec sample_knobs 5 false 1000 Hwf Hid)
    as (_ & _ & _ & _ & Hmid).
  destruct Hmid as [Hmid _]; [vm_compute; split; discriminate|].
  rewrite Hmid. reflexivity.
Defined.

(** *** [Choose] *)

Lemma weight_sum_bounds (k : Knobs) (ids : list KnobId) :
  wf k -> Forall valid_id ids ->
  0 <= weight_sum k ids <= 255 * Z.of_nat (length ids).
Proof.
  intros Hk Hids. induction Hids as [|id ids Hid _ IH]; simpl; [lia|].
  destruct (Value_valid k id Hk Hid) as [_ Hu]. unfold is_u8 in Hu. lia.
Qed.

Lemma weight_sum_app (k : Knobs) (l1 l2 : list KnobId) :
  weight_sum k (l1 ++ l2) = weight_sum k l1 + weight_sum k l2.
Proof. induction l1 as [|a l1 IH]; simpl; [reflexivity | rewrite IH; lia]. Qed.

Lemma sum_values_ok (k : Knobs) (ids : list KnobId) (s : Z) :
  wf k -> Forall valid_id ids ->
  0 <= s -> s + 255 * Z.of_nat (length ids) < 2 ^ 64 ->
  sum_values k ids s = Returns (s + weight_sum k ids).
Proof.
  intros Hk Hids. revert s.
  induction Hids as [|id ids Hid Hrest IH]; intros s Hs Hb; simpl.
  - f_equal. lia.
  - destruct (Value_valid k id Hk Hid) as [HV Hu]. rewrite HV. simpl.
    unfold is_u8 in Hu. simpl length in Hb.
    rewrite wrap64_small by (unfold is_u64; lia).
    rewrite IH by lia. f_equal. lia.
Qed.

(** The scan started after the prefix [pre] of the knob ids, with the
    partial sum of [pre] still at most [random], returns the choice at the
    first index whose partial sum exceeds [random]. *)
Lemma scan_ok {T} (k : Knobs) (choices : list T) (random : Z)
      (rest pre : list KnobId) :
  wf k -> Forall valid_id (pre ++ rest) ->
  length (pre ++ rest) = length choices ->
  255 * Z.of_nat (length (pre ++ rest)) < 2 ^ 64 ->
  weight_sum k pre <= random < weight_sum k (pre ++ rest) ->
  exists (idx : nat) (c : T),
    scan k rest choices random (weight_sum k pre) (Z.of_nat (length pre))
    = Returns c /\
    choices !! idx = Some c /\
    weight_sum k (take idx (pre ++ rest)) <= random
    /\ random < weight_sum k (take (S idx) (pre ++ rest)).
Proof.
  intros Hk. revert pre.
  induction rest as [|id rest IH]; intros pre Hids Hlen Hb Hr.
  - rewrite app_nil_r in Hr. lia.
  - assert (Hid : valid_id id).
    { rewrite Forall_app in Hids. destruct Hids as [_ Hids].
      inversion Hids; assumption. }
    destruct (Value_valid k id Hk Hid) as [HV Hu]. unfold is_u8 in Hu.
    pose proof (weight_sum_bounds k _ Hk Hids) as Hall.
    rewrite weight_sum_app in Hall, Hr. simpl in Hall, Hr.
    assert (Hrestb : 0 <= weight_sum k rest).
    { apply weight_sum_bounds; [assumption|].
      rewrite Forall_app in Hids. destruct Hids as [_ Hids].
      inversion Hids; assumption. }
    assert (Hpreb : 0 <= weight_sum k pre).
    { apply weight_sum_bounds; [assumption|].
      rewrite Forall_app in Hids. tauto. }
    simpl. rewrite HV. simpl.
    rewrite wrap64_small by (unfold is_u64; lia).
    destruct (Z.ltb_spec random (weight_sum k pre + weight_of k id))
      as [Hlt|Hge].
    + assert (Hin : (length pre < length choices)%nat).
      { rewrite <- Hlen, length_app. simpl. lia. }
      destruct (lookup_lt_is_Some_2 choices (length pre) Hin) as [c Hc].
      exists (length pre), c. unfold span_at.
      rewrite Nat2Z.id, Hc. split; [reflexivity|]. split; [reflexivity|].
      rewrite take_app_length.
      replace (S (length pre)) with (length pre + 1)%nat by lia.
      rewrite take_app_add. simpl. rewrite take_0.
      rewrite weight_sum_app. simpl. lia.
    + assert (Hl : Z.of_nat (length (pre ++ id :: rest))
                   = Z.of_nat (length pre) + 1 + Z.of_nat (length rest)).
      { rewrite length_app. simpl. lia. }
      rewrite wrap64_small by (unfold is_u64; lia).
      pose proof (IH (pre ++ [id])) as IH'.
      assert (Heq : (pre ++ [id]) ++ rest = pre ++ id :: rest).
      { rewrite <- app_assoc. reflexivity. }
      assert (Hws : weight_sum k (pre ++ [id])
                    = weight_sum k pre + weight_of k id).
      { rewrite weight_sum_app. simpl. lia. }
      assert (Hl' : Z.of_nat (length (pre ++ [id]))
                    = Z.of_nat (length pre) + 1).
      { rewrite length_app. simpl. lia. }
      rewrite Heq, Hws, Hl' in IH'.
      apply IH'; try assumption.
      rewrite weight_sum_app. simpl. lia.
Qed.

(** C10: on equal-length non-empty slices of valid knob ids and choices,
    [Choose] returns an element of [choices]: [choices[random mod size]]
    when the knob values sum to zero, and otherwise the choice at the first
    index whose partial sum exceeds [random mod sum]; the branch after the
    scan is not reached. *)
Theorem Choose_total {T} (k : Knobs) (knob_ids : list KnobId)
        (choices : list T) (random : Z) :
  wf k -> Forall valid_id knob_ids ->
  length knob_ids = length choices -> choices <> [] ->
  is_u64 random -> Z.of_nat (length knob_ids) < 2 ^ 56 ->
  exists c : T,
    Choose k knob_ids choices random = Returns c /\
    c ∈ choices /\
    (weight_sum k knob_ids = 0 ->
     choices !! Z.to_nat (random mod Z.of_nat (length choices)) = Some c) /\
    (0 < weight_sum k knob_ids ->
     exists idx : nat,
       choices !! idx = Some c /\
       weight_sum k (take idx knob_ids) <= random mod weight_sum k knob_ids /\
       random mod weight_sum k knob_ids < weight_sum k (take (S idx) knob_ids)).
Proof.
  intros Hk Hids Hlen Hne [Hr0 Hr1] Hsmall.
  pose proof (weight_sum_bounds k knob_ids Hk Hids) as Hsum.
  unfold Choose. destruct choices as [|c0 choices']; [congruence|].
  set (choices := c0 :: choices') in *.
  rewrite Hlen, Nat.eqb_refl. simpl negb. cbv iota.
  rewrite sum_values_ok by (try assumption; lia). unfold obind.
  rewrite Z.add_0_l. change (S (length choices')) with (length choices).
  destruct (Z.eqb_spec (weight_sum k knob_ids) 0) as [Hz|Hnz].
  - assert (Hidx : (Z.to_nat (random mod Z.of_nat (length choices))
                    < length choices)%nat).
    { assert (0 < Z.of_nat (length choices)) by (subst choices; simpl; lia).
      pose proof (Z.mod_pos_bound random (Z.of_nat (length choices))). lia. }
    destruct (lookup_lt_is_Some_2 choices _ Hidx) as [c Hc].
    exists c. unfold span_at. rewrite Hc.
    split; [reflexivity|]. split; [eapply list_elem_of_lookup_2; eauto|].
    split; [intros _; reflexivity | intros Hpos; lia].
  - assert (Hpos : 0 < weight_sum k knob_ids) by lia.
    pose proof (Z.mod_pos_bound random (weight_sum k knob_ids) Hpos) as Hm.
    destruct (scan_ok k choices (random mod weight_sum k knob_ids)
                      knob_ids [] Hk)
      as (idx & c & Hscan & Hc & Hlo & Hhi); simpl; try assumption; try lia.
    simpl in Hscan, Hlo, Hhi. exists c.
    split; [exact Hscan|]. split; [eapply list_elem_of_lookup_2; eauto|].
    split; [intros Hz; lia|]. intros _. exists idx. tauto.
Qed.

Lemma Choose_total_witness :
  exists c : string,
    Choose sample_knobs [2; 3; 5] ["a"; "b"; "c"]%string 7 = Returns c /\
    c ∈ ["a"; "b"; "c"]%string.
Proof.
  assert (Hwf : wf sample_knobs).
  { split; [reflexivity|]. unfold sample_knobs. simpl.
    repeat constructor; unfold is_u8; lia. }
  assert (Hids : Forall valid_id [2; 3; 5]).
  { repeat constructor; unfold valid_id, kNumKnobs; lia. }
  destruct (Choose_total sample_knobs [2; 3; 5] ["a"; "b"; "c"]%string 7
              Hwf Hids eq_refl)
    as (c & Hc & Hin & _).
  - discriminate.
  - unfold is_u64. lia.
  - simpl. lia.
  - exists c. split; assumption.
Defined.

End KnobsFacts.

(** ** The periodic load of another shard *)
Module ShardFacts.
Import Loop.

Lemma fires_total_shards (env : Environment) (batch_index : Z) :
  load_other_shard_fires env batch_index = true ->
  load_other_shard_frequency env <> 0 /\
  batch_index mod load_other_shard_frequency env = 0 /\
  1 < total_shards env.
Proof.
  unfold load_other_shard_fires. intros E.
  apply andb_prop in E. destruct E as [E E3].
  apply andb_prop in E. destruct E as [E1 E2].
  apply negb_true_iff, Z.eqb_neq in E1.
  apply Z.eqb_eq in E2. apply Z.ltb_lt in E3. tauto.
Qed.

Lemma other_shard_index_range (env : Environment) (r : Z) :
  is_u64 (total_shards env) -> is_u64 (my_shard_index env) -> is_u64 r ->
  1 < total_shards env ->
  0 <= other_shard_index env r < total_shards env /\
  other_shard_index env r <> my_shard_index env.
Proof.
  unfold is_u64, other_shard_index.
  set (T := total_shards env). set (m := my_shard_index env).
  intros HT Hm Hr H1.
  rewrite (wrap64_small (T - 1)) by (unfold is_u64; lia).
  pose proof (Z.mod_pos_bound r (T - 1) ltac:(lia)) as Hrand.
  set (rand := r mod (T - 1)) in *.
  pose proof (Z.mod_pos_bound (wrap64 (wrap64 (m + 1) + rand)) T ltac:(lia))
    as Hs.
  split; [exact Hs|].
  destruct (Z_lt_le_dec m T) as [HmT|HmT]; [|lia].
  rewrite (wrap64_small (m + 1)) by (unfold is_u64; lia).
  destruct (Z_lt_le_dec (m + 1 + rand) (2 ^ 64)) as [Hx|Hx].
  - rewrite (wrap64_small (m + 1 + rand)) by (unfold is_u64; lia).
    destruct (Z_lt_le_dec (m + 1 + rand) T) as [Hy|Hy].
    + rewrite Z.mod_small by lia. lia.
    + rewrite <- (Zmod_unique (m + 1 + rand) T 1 (m + 1 + rand - T)) by lia.
      lia.
  - unfold wrap64 at 1.
    rewrite <- (Zmod_unique (m + 1 + rand) (2 ^ 64) 1
                            (m + 1 + rand - 2 ^ 64)) by lia.
    rewrite Z.mod_small by lia. lia.
Qed.

(** C5: whenever the periodic load of another shard fires, the shard
    index [(my_shard_index + 1 + rng() mod (total_shards - 1)) mod
    total_shards] is a valid shard index other than [my_shard_index], for
    every value of the random number, so the [CHECK_NE] holds. *)
Theorem other_shard_is_other (env : Environment) (batch_index r : Z) :
  is_u64 (total_shards env) -> is_u64 (my_shard_index env) -> is_u64 r ->
  load_other_shard_fires env batch_index = true ->
  pick_other_shard env r = Returns (other_shard_index env r) /\
  0 <= other_shard_index env r < total_shards env /\
  other_shard_index env r <> my_shard_index env.
Proof.
  intros HT Hm Hr Hf. apply fires_total_shards in Hf.
  destruct Hf as (_ & _ & H1).
  destruct (other_shard_index_range env r HT Hm Hr H1) as [Hrange Hne].
  split; [|split; assumption].
  unfold pick_other_shard.
  destruct (Z.eqb_spec (other_shard_index env r) (my_shard_index env));
    [contradiction | reflexivity].
Qed.

Lemma other_shard_is_other_witness :
  pick_other_shard shard_env 12345 = Returns 0 /\
  load_other_shard_fires shard_env 20 = true.
Proof.
  assert (HT : is_u64 (total_shards shard_env)) by (unfold is_u64; simpl; lia).
  assert (Hm : is_u64 (my_shard_index shard_env))
    by (unfold is_u64; simpl; lia).
  assert (Hr : is_u64 12345) by (unfold is_u64; lia).
  destruct (other_shard_is_other shard_env 20 12345 HT Hm Hr eq_refl)
    as [Hp _].
  split; [rewrite Hp; reflexivity | reflexivity].
Defined.

End ShardFacts.

(** ** FeatureSet *)
Module FeatureSetFacts.
Import FeatureSet.

Section WithScoring.
Context `{Scoring}.

Lemma Frequency_make (thr : Z) (g : feature_t) : Frequency (make thr) g = 0.
Proof. unfold Frequency, make. simpl. rewrite lookup_empty. reflexivity. Qed.

Lemma threshold_increment_one (fs : t) (f : feature_t) :
  frequency_threshold_ (increment_one fs f) = frequency_threshold_ fs.
Proof. reflexivity. Qed.

Lemma threshold_IncrementFrequencies (v : FeatureVec) (fs : t) :
  frequency_threshold_ (IncrementFrequencies v fs) = frequency_threshold_ fs.
Proof.
  unfold IncrementFrequencies. revert fs.
  induction v as [|f v IH]; intros fs; simpl; [reflexivity|].
  rewrite IH. reflexivity.
Qed.

Lemma threshold_increment_all (vs : list FeatureVec) (fs : t) :
  frequency_threshold_ (increment_all vs fs) = frequency_threshold_ fs.
Proof.
  unfold increment_all. revert fs.
  induction vs as [|v vs IH]; intros fs; simpl; [reflexivity|].
  rewrite IH. apply threshold_IncrementFrequencies.
Qed.

Lemma Frequency_increment_one (fs : t) (f g : feature_t) :
  Frequency (increment_one fs f) g
  = if decide (f = g)
    then (if Frequency fs f <? frequency_threshold_ fs
          then Frequency fs f + 1 else Frequency fs f)
    else Frequency fs g.
Proof.
  unfold increment_one, Frequency at 1. simpl.
  destruct (Frequency fs f <? frequency_threshold_ fs) eqn:E.
  - rewrite lookup_insert. destruct (decide (f = g)); reflexivity.
  - destruct (decide (f = g)) as [->|]; reflexivity.
Qed.

Lemma CountFeatures_increment_one (fs : t) (f : feature_t) (d : nat) :
  CountFeatures (increment_one fs f) d
  = if (Frequency fs f =? 0) && bool_decide (FeatureToDomainId f = d)
    then S (CountFeatures fs d) else CountFeatures fs d.
Proof.
  unfold increment_one, CountFeatures at 1. simpl.
  destruct (Frequency fs f =? 0); simpl; [|reflexivity].
  rewrite lookup_insert. case_bool_decide; case_decide; try congruence.
  - subst d. reflexivity.
  - reflexivity.
Qed.

Lemma num_features_increment_one (fs : t) (f : feature_t) :
  num_features_ (increment_one fs f)
  = if Frequency fs f =? 0 then S (num_features_ fs) else num_features_ fs.
Proof. reflexivity. Qed.

(** *** The invariant *)

Lemma wf_make (thr : Z) : 2 <= thr -> thr <= 255 -> wf (make thr).
Proof.
  intros H2 H255. unfold wf. simpl.
  split; [lia|]. split; [|split].
  - intros f. rewrite Frequency_make. lia.
  - intros f. rewrite Frequency_make. lia.
  - intros d. unfold CountFeatures. simpl. rewrite lookup_empty. simpl. lia.
Qed.

Lemma wf_increment_one (fs : t) (f : feature_t) :
  wf fs -> wf (increment_one fs f).
Proof.
  intros (Hthr & Hfreq & Hdom & Hnum). unfold wf.
  rewrite threshold_increment_one.
  split; [exact Hthr|]. split; [|split].
  - intros g. rewrite Frequency_increment_one.
    pose proof (Hfreq f). pose proof (Hfreq g).
    destruct (decide (f = g)); [|lia].
    destruct (Z.ltb_spec (Frequency fs f) (frequency_threshold_ fs)); lia.
  - intros g. rewrite Frequency_increment_one, CountFeatures_increment_one.
    intros Hg. pose proof (Hfreq f) as Hf.
    destruct (Z.eqb_spec (Frequency fs f) 0) as [Hz|Hnz]; simpl.
    + case_bool_decide as Hd; [lia|].
      destruct (decide (f = g)) as [->|]; [congruence|].
      apply Hdom. exact Hg.
    + destruct (decide (f = g)) as [<-|]; apply Hdom; lia.
  - intros d. rewrite CountFeatures_increment_one, num_features_increment_one.
    pose proof (Hnum d).
    destruct (Frequency fs f =? 0); simpl; [|lia].
    case_bool_decide; lia.
Qed.

Lemma wf_IncrementFrequencies (v : FeatureVec) (fs : t) :
  wf fs -> wf (IncrementFrequencies v fs).
Proof.
  unfold IncrementFrequencies. revert fs.
  induction v as [|f v IH]; intros fs Hwf; simpl; [exact Hwf|].
  apply IH, wf_increment_one, Hwf.
Qed.

Lemma wf_increment_all (vs : list FeatureVec) (fs : t) :
  wf fs -> wf (increment_all vs fs).
Proof.
  unfold increment_all. revert fs.
  induction vs as [|v vs IH]; intros fs Hwf; simpl; [exact Hwf|].
  apply IH, wf_IncrementFrequencies, Hwf.
Qed.

Lemma wf_increment_times (n : nat) (v : FeatureVec) (fs : t) :
  wf fs -> wf (increment_times n v fs).
Proof.
  intros Hwf. unfold increment_times.
  induction n as [|n IH]; simpl; [exact Hwf|].
  apply wf_IncrementFrequencies, IH.
Qed.

(** *** Frequencies only grow, up to the threshold *)

Lemma Frequency_increment_one_mono (fs : t) (f g : feature_t) :
  Frequency fs g <= Frequency (increment_one fs f) g.
Proof.
  rewrite Frequency_increment_one.
  destruct (decide (f = g)) as [->|]; [|lia].
  destruct (Frequency fs g <? frequency_threshold_ fs); lia.
Qed.

Lemma Frequency_IncrementFrequencies_mono (v : FeatureVec) (fs : t)
      (g : feature_t) :
  Frequency fs g <= Frequency (IncrementFrequencies v fs) g.
Proof.
  unfold IncrementFrequencies. revert fs.
  induction v as [|f v IH]; intros fs; simpl; [lia|].
  etransitivity; [apply (Frequency_increment_one_mono fs f g) | apply IH].
Qed.

Lemma Frequency_increment_all_mono (vs : list FeatureVec) (fs : t)
      (g : feature_t) :
  Frequency fs g <= Frequency (increment_all vs fs) g.
Proof.
  unfold increment_all. revert fs.
  induction vs as [|v vs IH]; intros fs; simpl; [lia|].
  etransitivity; [apply (Frequency_IncrementFrequencies_mono v fs g)
                 | apply IH].
Qed.

(** One [IncrementFrequencies] of a vector that holds [f] raises the
    frequency of [f] by at least one, unless it is at the threshold. *)
Lemma Frequency_IncrementFrequencies_elem (v : FeatureVec) (fs : t)
      (f : feature_t) :
  f ∈ v ->
  Z.min (frequency_threshold_ fs) (Frequency fs f + 1)
  <= Frequency (IncrementFrequencies v fs) f.
Proof.
  unfold IncrementFrequencies. revert fs.
  induction v as [|a v IH]; intros fs Hin; [inversion Hin|].
  simpl. apply elem_of_cons in Hin. destruct Hin as [<-|Hin].
  - etransitivity;
      [|apply (Frequency_IncrementFrequencies_mono v (increment_one fs f) f)].
    rewrite Frequency_increment_one.
    destruct (decide (f = f)); [|congruence].
    destruct (Z.ltb_spec (Frequency fs f) (frequency_threshold_ fs)); lia.
  - specialize (IH (increment_one fs a) Hin).
    rewrite threshold_increment_one in IH.
    pose proof (Frequency_increment_one_mono fs a f). lia.
Qed.

Lemma Frequency_increment_all_elem (vs : list FeatureVec) (fs : t)
      (f : feature_t) :
  Forall (fun v => f ∈ v) vs ->
  Z.min (frequency_threshold_ fs) (Frequency fs f + Z.of_nat (length vs))
  <= Frequency (increment_all vs fs) f.
Proof.
  unfold increment_all. intros Hall. revert fs.
  induction Hall as [|v vs Hv _ IH]; intros fs; simpl fold_left.
  - simpl. lia.
  - specialize (IH (IncrementFrequencies v fs)).
    rewrite threshold_IncrementFrequencies in IH.
    pose proof (Frequency_IncrementFrequencies_elem v fs f Hv).
    simpl length. lia.
Qed.

(** *** [CountUnseenAndPruneFrequentFeatures] *)

Lemma count_and_prune_spec (fs : t) (features : FeatureVec) (n : nat)
      (kept : FeatureVec) :
  count_and_prune fs features n kept
  = (Nat.add n (length (List.filter (fun f => Frequency fs f =? 0) features)),
     kept ++ List.filter
               (fun f => Frequency fs f <? frequency_threshold_ fs) features).
Proof.
  revert n kept.
  induction features as [|f features IH]; intros n kept; simpl.
  - rewrite Nat.add_0_r, app_nil_r. reflexivity.
  - rewrite IH.
    destruct (Frequency fs f =? 0), (Frequency fs f <? frequency_threshold_ fs);
      simpl; rewrite <- ?app_assoc; simpl; f_equal; lia.
Qed.

Lemma CountUnseenAndPrune_filter (fs : t) (features : FeatureVec) :
  CountUnseenAndPruneFrequentFeatures fs features
  = (length (List.filter (fun f => Frequency fs f =? 0) features),
     List.filter (fun f => Frequency fs f <? frequency_threshold_ fs) features).
Proof.
  unfold CountUnseenAndPruneFrequentFeatures.
  rewrite count_and_prune_spec. reflexivity.
Qed.

Lemma Frequency_increment_one_same (fs : t) (f : feature_t) :
  Frequency (increment_one fs f) f
  = if Frequency fs f <? frequency_threshold_ fs
    then Frequency fs f + 1 else Frequency fs f.
Proof.
  rewrite Frequency_increment_one. destruct (decide (f = f)); congruence.
Qed.

Lemma Frequency_increment_one_other (fs : t) (f g : feature_t) :
  f <> g -> Frequency (increment_one fs f) g = Frequency fs g.
Proof.
  intros Hne. rewrite Frequency_increment_one.
  destruct (decide (f = g)); congruence.
Qed.

Lemma Frequency_after_three (g : feature_t) :
  Frequency (increment_times 3 [10] (make 3)) g
  = if decide (10 = g) then 3 else 0.
Proof.
  unfold increment_times, IncrementFrequencies. simpl Nat.iter.
  simpl fold_left.
  destruct (decide (10 = g)) as [<-|Hne].
  - rewrite !Frequency_increment_one_same, !Frequency_make.
    rewrite !threshold_increment_one. reflexivity.
  - rewrite !Frequency_increment_one_other by exact Hne.
    apply Frequency_make.
Qed.

(** C1: [CountUnseenAndPruneFrequentFeatures] returns the number of
    features of the vector that are not in the set yet, and leaves in the
    vector, in their order, the features whose frequency is below the
    threshold. With threshold 3, after [IncrementFrequencies({10})] three
    times, on [{10, 20}] it returns 1 and leaves [{20}]. A feature
    incremented [frequency_threshold] times is pruned from every later
    vector, whatever is incremented in between. *)
Theorem CountUnseenAndPrune_spec :
  (forall (fs : t) (vec : FeatureVec),
      CountUnseenAndPruneFrequentFeatures fs vec
      = (length (List.filter (fun f => Frequency fs f =? 0) vec),
         List.filter (fun f => Frequency fs f <? frequency_threshold_ fs)
                     vec)) /\
  CountUnseenAndPruneFrequentFeatures
    (increment_times 3 [10] (make 3)) [10; 20] = (1%nat, [20]) /\
  (forall (fs : t) (f : feature_t) (vs later : list FeatureVec)
          (vec : FeatureVec),
      wf fs ->
      Forall (fun v => f ∈ v) vs ->
      Z.of_nat (length vs) = frequency_threshold_ fs ->
      f ∉ snd (CountUnseenAndPruneFrequentFeatures
                 (increment_all later (increment_all vs fs)) vec)).
Proof.
  split; [exact CountUnseenAndPrune_filter|]. split.
  - rewrite CountUnseenAndPrune_filter. simpl List.filter.
    rewrite !Frequency_after_three. reflexivity.
  - intros fs f vs later vec Hwf Hall Hlen.
    rewrite CountUnseenAndPrune_filter. simpl snd.
    rewrite list_elem_of_In, filter_In.
    intros [_ Hlt]. apply Z.ltb_lt in Hlt.
    rewrite threshold_increment_all, threshold_increment_all in Hlt.
    pose proof (Frequency_increment_all_elem vs fs f Hall) as Hge.
    pose proof (Frequency_increment_all_mono later (increment_all vs fs) f).
    destruct Hwf as (_ & Hfreq & _). pose proof (Hfreq f). lia.
Qed.

(** *** Vectors without duplicates *)




(** *** [ComputeWeight] *)





End WithScoring.

Lemma CountUnseenAndPrune_spec_witness :
  @wf test_scoring (make 3) /\
  10 ∉ snd (CountUnseenAndPruneFrequentFeatures
              (@increment_all test_scoring [[30]]
                 (@increment_all test_scoring [[10]; [10]; [10]] (make 3)))
              [10; 20; 30]).
Proof.
  assert (Hwf : @wf test_scoring (make 3)) by (apply wf_make; lia).
  split; [exact Hwf|].
  destruct (@CountUnseenAndPrune_spec test_scoring) as (_ & _ & Hprune).
  apply (Hprune (make 3) 10 [[10]; [10]; [10]] [[30]] [10; 20; 30] Hwf).
  - repeat constructor.
  - reflexivity.
Defined.

(** [TEST(FeatureSet, CountUnseenAndPruneFrequentFeatures_IncrementFrequencies)]:
    threshold 3; after each group of increments, the number of unseen
    features, the pruned vector and the size of the set. *)
Example CountUnseenAndPrune_test :
  let inc := @IncrementFrequencies test_scoring in
  let look fs v := (CountUnseenAndPruneFrequentFeatures fs v, size fs) in
  let fs0 := make 3 in
  let fs1 := inc [10] fs0 in
  let fs2 := inc [10] fs1 in
  let fs3 := inc [10] fs2 in
  let fs4 := inc [30] fs3 in
  let fs5 := inc [30] (inc [30] fs4) in
  let fs6 := inc [20] (inc [20] fs5) in
  let fs7 := inc [20] fs6 in
  look fs0 [10; 20] = ((2%nat, [10; 20]), 0%nat) /\
  look fs1 [10; 20] = ((1%nat, [10; 20]), 1%nat) /\
  look fs2 [10; 20] = ((1%nat, [10; 20]), 1%nat) /\
  look fs3 [10; 20] = ((1%nat, [20]), 1%nat) /\
  look fs4 [10; 20] = ((1%nat, [20]), 2%nat) /\
  look fs4 [10; 20; 30] = ((1%nat, [20; 30]), 2%nat) /\
  look fs5 [10; 20; 30] = ((1%nat, [20]), 2%nat) /\
  look fs6 [10; 20; 30] = ((0%nat, [20]), 3%nat) /\
  look fs7 [10; 20; 30] = ((0%nat, []), 3%nat).
Proof. vm_compute. repeat split. Qed.




(** [TEST(FeatureSet, ComputeWeight)], its last block, and
    [TEST(FeatureSet, ComputeWeightWithDifferentDomains)], with the scoring
    of the examples. *)
Example ComputeWeight_test :
  @ComputeWeight test_scoring weight_test_fs [3] = Returns 255 /\
  @ComputeWeight test_scoring weight_test_fs [2] = Returns 254 /\
  @ComputeWeight test_scoring weight_test_fs [1] = Returns 253 /\
  @ComputeWeight test_scoring weight_test_fs [3; 2] = Returns 509 /\
  @ComputeWeight test_scoring weight_test_fs [3; 1] = Returns 508 /\
  @ComputeWeight test_scoring weight_test_fs [4] = Fatal.
Proof. vm_compute. repeat split. Qed.

Example ComputeWeight_domains_test :
  @ComputeWeight test_scoring domain_test_fs [2 ^ 32] = Returns (6 * 255) /\
  @ComputeWeight test_scoring domain_test_fs [2 * 2 ^ 32] = Returns (5 * 255) /\
  @ComputeWeight test_scoring domain_test_fs [3 * 2 ^ 32] = Returns (4 * 255).
Proof. vm_compute. repeat split. Qed.

End FeatureSetFacts.

(** ** WeightedDistribution *)
Module WeightedDistributionFacts.
Import WeightedDistribution.

Lemma sum_nonneg (ws : list Z) : Forall (fun w => 0 <= w) ws -> 0 <= sum ws.
Proof. induction 1 as [|w ws Hw _ IH]; simpl; lia. Qed.

Lemma last_running_sums (acc : Z) (ws : list Z) :
  last (running_sums acc ws)
  = match ws with [] => None | _ :: _ => Some (acc + sum ws) end.
Proof.
  revert acc. induction ws as [|w ws IH]; intros acc; [reflexivity|].
  simpl running_sums. destruct ws as [|w' ws'].
  - simpl. f_equal. lia.
  - change (last (acc + w :: running_sums (acc + w) (w' :: ws')))
      with (last (running_sums (acc + w) (w' :: ws'))).
    rewrite IH. simpl. f_equal. lia.
Qed.

(** The search over up-to-date prefix sums finds the index whose
    interval of the cumulated weights holds the target. *)
Lemma upper_bound_running_sums (ws : list Z) (acc target : Z) (idx0 : nat) :
  Forall (fun w => 0 <= w) ws ->
  acc <= target -> target < acc + sum ws ->
  exists j : nat,
    upper_bound (running_sums acc ws) target idx0 = Some (idx0 + j)%nat /\
    (j < length ws)%nat /\
    acc + sum (take j ws) <= target /\
    target < acc + sum (take (S j) ws).
Proof.
  intros Hnn. revert acc idx0.
  induction Hnn as [|w ws Hw Hnn IH]; intros acc idx0 Hlo Hhi.
  - simpl in Hhi. lia.
  - simpl running_sums. simpl upper_bound.
    destruct (Z.ltb_spec target (acc + w)) as [Hlt|Hge].
    + exists O. rewrite Nat.add_0_r. simpl. repeat split; lia.
    + destruct (IH (acc + w) (S idx0) Hge) as (j & Hub & Hj & Hl & Hh).
      { simpl in Hhi. lia. }
      exists (S j). rewrite Hub. simpl.
      repeat split; [f_equal; lia | lia | lia | simpl in Hh; lia].
Qed.

Lemma weights_ChangeWeight (i : nat) (w : Z) (wd : t) :
  weights (RecomputeInternalState (ChangeWeight i w wd))
  = <[i := w]> (weights wd).
Proof. reflexivity. Qed.

(** Sampling from a distribution whose prefix sums are up to date. *)
Lemma RandomIndex_recomputed (wd : t) (random : Z) :
  Forall (fun w => 0 <= w) (weights wd) ->
  0 < total_weight wd ->
  exists idx : nat,
    RandomIndex (RecomputeInternalState wd) random = Returns idx /\
    (idx < size wd)%nat /\
    sum (take idx (weights wd)) <= random mod total_weight wd /\
    random mod total_weight wd < sum (take (S idx) (weights wd)).
Proof.
  intros Hnn Hpos. unfold RandomIndex, RecomputeInternalState. simpl.
  rewrite last_running_sums. unfold total_weight in *.
  destruct (weights wd) as [|w ws] eqn:Ews; [simpl in Hpos; lia|].
  rewrite <- Ews in *. rewrite Z.add_0_l.
  destruct (Z.eqb_spec (sum (weights wd)) 0) as [Hz|_]; [lia|].
  pose proof (Z.mod_pos_bound random (sum (weights wd)) Hpos) as Hm.
  destruct (upper_bound_running_sums (weights wd) 0
              (random mod sum (weights wd)) 0 Hnn)
    as (j & Hub & Hj & Hl & Hh); [lia | lia |].
  rewrite Hub. exists j. simpl. unfold size. repeat split; lia.
Qed.

Lemma sum_take_S (ws : list Z) (j : nat) (w : Z) :
  ws !! j = Some w -> sum (take (S j) ws) = sum (take j ws) + w.
Proof.
  revert j. induction ws as [|a ws IH]; intros j Hj; [discriminate|].
  destruct j as [|j]; simpl in *.
  - injection Hj as ->. lia.
  - rewrite (IH j Hj). lia.
Qed.

(** C8: after any [ChangeWeight], [RandomIndex] before
    [RecomputeInternalState] is fatal; once [RecomputeInternalState] is
    called, sampling returns an index inside the distribution, of positive
    weight, whose interval of the cumulated weights holds
    [random mod total] (weights are non-negative and not all zero). *)
Theorem sampling_after_change_weight (wd : t) (i : nat) (w random : Z) :
  Forall (fun x => 0 <= x) (weights wd) -> 0 <= w ->
  RandomIndex (ChangeWeight i w wd) random = Fatal /\
  let wd' := RecomputeInternalState (ChangeWeight i w wd) in
  (0 < total_weight wd' ->
   exists (idx : nat) (wi : Z),
     RandomIndex wd' random = Returns idx /\
     weights wd' !! idx = Some wi /\ 0 < wi /\
     sum (take idx (weights wd')) <= random mod total_weight wd' /\
     random mod total_weight wd' < sum (take idx (weights wd')) + wi).
Proof.
  intros Hnn Hw. split; [reflexivity|]. intros wd' Hpos.
  assert (Hnn' : Forall (fun x => 0 <= x) (weights (ChangeWeight i w wd))).
  { simpl. apply Forall_insert; assumption. }
  destruct (RandomIndex_recomputed (ChangeWeight i w wd) random Hnn' Hpos)
    as (idx & HR & Hidx & Hlo & Hhi).
  destruct (lookup_lt_is_Some_2 (weights (ChangeWeight i w wd)) idx Hidx)
    as [wi Hwi].
  exists idx, wi.
  rewrite (sum_take_S _ _ _ Hwi) in Hhi.
  split; [exact HR|]. split; [exact Hwi|].
  change (weights wd') with (weights (ChangeWeight i w wd)).
  change (total_weight wd') with (total_weight (ChangeWeight i w wd)).
  repeat split; lia.
Qed.

Lemma sampling_after_change_weight_witness :
  RandomIndex (ChangeWeight 2 1 (set_weights [1; 2; 3; 4; 5])) 7 = Fatal /\
  RandomIndex
    (RecomputeInternalState (ChangeWeight 2 1 (set_weights [1; 2; 3; 4; 5])))
    7 = Returns 3%nat.
Proof.
  assert (Hnn : Forall (fun x => 0 <= x) (weights (set_weights [1; 2; 3; 4; 5]))).
  { simpl. repeat constructor; lia. }
  destruct (sampling_after_change_weight
              (set_weights [1; 2; 3; 4; 5]) 2 1 7 Hnn ltac:(lia))
    as [Hfatal _].
  split; [exact Hfatal | reflexivity].
Defined.

(** The [ChangeWeight] block of
    [TEST(WeightedDistribution, WeightedDistribution)]: drawing dies after
    [ChangeWeight(2, 1)], and after [RecomputeInternalState] the
    frequencies of 10000 draws follow the weights [{1, 2, 1, 4, 5}]. *)
Example ChangeWeight_test :
  let wd := ChangeWeight 2 1 (set_weights [1; 2; 3; 4; 5]) in
  compute_freq wd (Z.to_nat 10000) (replicate 5 O) = None /\
  map Z.of_nat
    <$> compute_freq (RecomputeInternalState wd) (Z.to_nat 10000)
          (replicate 5 O)
  = Some [770; 1540; 769; 3076; 3845].
Proof. vm_compute. split; reflexivity. Qed.

(** Two more blocks of the same test: equal weights are drawn equally
    often, and with the weights [{10, 100, 1}] index 1 is drawn more than
    nine times as often as index 0, and index 0 more than nine times as
    often as index 2. *)
Example bias_test :
  map Z.of_nat
    <$> compute_freq (set_weights [1; 1]) (Z.to_nat 10000) (replicate 2 O)
  = Some [5000; 5000] /\
  map Z.of_nat
    <$> compute_freq (set_weights [10; 100; 1]) (Z.to_nat 10000)
          (replicate 3 O)
  = Some [910; 9000; 90].
Proof. vm_compute. split; reflexivity. Qed.

End WeightedDistributionFacts.

(** ** CoverageFrontier *)
Module CoverageFrontierFacts.
Import CoverageFrontier.




End CoverageFrontierFacts.

(** ** Corpus *)
Module CorpusFacts.
Import Corpus.

Lemma length_removelast {A} (l : list A) :
  length (removelast l) = pred (length l).
Proof.
  rewrite removelast_firstn_len, length_take. lia.
Qed.

Lemma length_swap_remove {A} (idx : nat) (l : list A) :
  length (swap_remove idx l) = pred (length l).
Proof.
  unfold swap_remove. destruct (last l) as [x|] eqn:E.
  - rewrite length_removelast, length_insert. reflexivity.
  - destruct l as [|a l]; [reflexivity|].
    rewrite last_cons in E. destruct (last l); discriminate.
Qed.

Section WithScoring.
Context `{FeatureSet.Scoring}.

Lemma ComputeWeight_seen (fs : FeatureSet.t) (fv : FeatureVec) :
  Forall (fun f => FeatureSet.Frequency fs f <> 0) fv ->
  exists w, FeatureSet.ComputeWeight fs fv = Returns w.
Proof.
  induction 1 as [|f fv Hf _ [w IH]]; simpl; [eauto|].
  destruct (Z.eqb_spec (FeatureSet.Frequency fs f) 0); [contradiction|].
  rewrite IH. simpl. eauto.
Qed.

Lemma fresh_weights_seen (fs : FeatureSet.t) (frontier : CoverageFrontier.t)
      (rs : list CorpusRecord) :
  records_seen fs rs ->
  exists scored, fresh_weights fs frontier rs = Returns scored.
Proof.
  induction 1 as [|r rs Hr _ [scored IH]]; simpl; [eauto|].
  unfold ComputeWeight.
  destruct (ComputeWeight_seen fs (features r) Hr) as [w ->]. simpl.
  rewrite IH. simpl. eauto.
Qed.

(** The survivors of step 2 are the records that are not all-frequent,
    in their order. *)
Lemma fresh_weights_survivors (fs : FeatureSet.t)
      (frontier : CoverageFrontier.t) (rs : list CorpusRecord)
      (scored : list (CorpusRecord * bool * Z)) :
  fresh_weights fs frontier rs = Returns scored ->
  map (fun x => fst (fst x))
      (List.filter (fun x => negb (snd (fst x))) scored)
  = List.filter (fun r => negb (all_frequent fs r)) rs.
Proof.
  revert scored. induction rs as [|r rs IH]; intros scored E; simpl in E.
  - injection E as <-. reflexivity.
  - apply obind_returns in E. destruct E as (w & _ & E).
    apply obind_returns in E. destruct E as (tl & Htl & E).
    injection E as <-. simpl.
    destruct (all_frequent fs r); simpl; rewrite (IH tl Htl); reflexivity.
Qed.

End WithScoring.

Lemma filter_length_split {A} (p : A -> bool) (l : list A) :
  (length (List.filter p l) + length (List.filter (fun x => negb (p x)) l)
   = length l)%nat.
Proof.
  induction l as [|a l IH]; simpl; [reflexivity|].
  destruct (p a); simpl; lia.
Qed.

Section WithRng.
Context `{RandomSource}.

Lemma remove_random_length (excess : nat) (rs : list CorpusRecord)
      (ws : list Z) (rng : Rng) rs' ws' rng' :
  remove_random excess rs ws rng = Returns (rs', ws', rng') ->
  length rs' = (length rs - excess)%nat.
Proof.
  revert rs ws rng. induction excess as [|n IH]; intros rs ws rng E.
  - simpl in E. injection E as <- <- <-. lia.
  - simpl in E. destruct (rng_next rng) as [r rng1].
    destruct (positive_indices ws !! _) as [idx|]; [|discriminate].
    apply IH in E. rewrite E, length_swap_remove. lia.
Qed.

Context `{FeatureSet.Scoring}.

Lemma Prune_zero (fs : FeatureSet.t) (frontier : CoverageFrontier.t)
      (rng : Rng) (c : t) :
  Prune fs frontier 0 rng c = Fatal.
Proof. reflexivity. Qed.

(** Pruning when the survivors fit under the cap. *)
Lemma Prune_by_frequency (fs : FeatureSet.t) (frontier : CoverageFrontier.t)
      (max_corpus_size : nat) (rng : Rng) (c : t) :
  (0 < max_corpus_size)%nat ->
  records_seen fs (records_ c) ->
  (length (List.filter (fun r => negb (all_frequent fs r)) (records_ c))
   <= max_corpus_size)%nat ->
  exists c',
    Prune fs frontier max_corpus_size rng c
    = Returns (length (List.filter (all_frequent fs) (records_ c)), c', rng) /\
    records_ c'
    = List.filter (fun r => negb (all_frequent fs r)) (records_ c) /\
    NumTotal c' = NumTotal c.
Proof.
  intros Hmax Hseen Hfit. unfold Prune.
  destruct max_corpus_size as [|m]; [lia|].
  cbn [CHECK negb Nat.eqb obind].
  destruct (fresh_weights_seen fs frontier (records_ c) Hseen)
    as [scored Hscored].
  rewrite Hscored. cbn [obind]. cbv zeta.
  rewrite (fresh_weights_survivors fs frontier _ _ Hscored).
  replace (length (List.filter (fun r => negb (all_frequent fs r))
                               (records_ c)) - S m)%nat with O by lia.
  cbn [remove_random obind].
  eexists. split.
  - f_equal. f_equal. f_equal.
    pose proof (filter_length_split (all_frequent fs) (records_ c)). lia.
  - split; reflexivity.
Qed.

(** What every returning [Prune] does. *)
Lemma Prune_returns (fs : FeatureSet.t) (frontier : CoverageFrontier.t)
      (max_corpus_size : nat) (rng : Rng) (c : t) n c' rng' :
  Prune fs frontier max_corpus_size rng c = Returns (n, c', rng') ->
  (NumActive c' <= NumActive c)%nat /\
  n = (NumActive c - NumActive c')%nat /\
  NumTotal c' = NumTotal c /\
  NumActive c'
  = Nat.min (length (List.filter (fun r => negb (all_frequent fs r))
                                 (records_ c)))
            max_corpus_size /\
  (0 < max_corpus_size)%nat.
Proof.
  unfold Prune. intros E.
  apply obind_returns in E. destruct E as (u & Hcheck & E).
  apply CHECK_returns, negb_true_iff, Nat.eqb_neq in Hcheck.
  apply obind_returns in E. destruct E as (scored & Hscored & E).
  apply obind_returns in E. destruct E as ([[rs ws] rng1] & Hrem & E).
  injection E as <- <- <-.
  apply remove_random_length in Hrem.
  rewrite length_map in Hrem.
  pose proof (fresh_weights_survivors fs frontier _ _ Hscored) as Hsurv.
  apply (f_equal length) in Hsurv. rewrite length_map in Hsurv.
  rewrite Hsurv in Hrem.
  pose proof (filter_length_split (all_frequent fs) (records_ c)).
  unfold NumActive, NumTotal. simpl. repeat split; lia.
Qed.

End WithRng.

(** C2: [Prune] fails fatally when [max_corpus_size] is 0; when the
    records that are not all-frequent fit under the cap, it removes
    exactly the records all of whose features have reached the threshold,
    keeps the others in order and returns the number removed; whenever it
    returns, it returns the number of records removed and leaves
    [num_total] unchanged. In [TEST(Corpus, Prune)] the first [Prune]
    removes the record with the features [{20, 40}] only, which leaves 4
    active records and [num_total = 5]. *)
Theorem Prune_spec :
  (forall (R : RandomSource) (S : FeatureSet.Scoring) fs frontier rng c,
      Prune fs frontier 0 rng c = Fatal) /\
  (forall (R : RandomSource) (S : FeatureSet.Scoring)
          fs frontier max_corpus_size rng c,
      (0 < max_corpus_size)%nat ->
      records_seen fs (records_ c) ->
      (length (List.filter (fun r => negb (all_frequent fs r)) (records_ c))
       <= max_corpus_size)%nat ->
      exists c',
        Prune fs frontier max_corpus_size rng c
        = Returns (length (List.filter (all_frequent fs) (records_ c)),
                   c', rng) /\
        records_ c'
        = List.filter (fun r => negb (all_frequent fs r)) (records_ c) /\
        NumTotal c' = NumTotal c) /\
  (forall (R : RandomSource) (S : FeatureSet.Scoring)
          fs frontier max_corpus_size rng c n c' rng',
      Prune fs frontier max_corpus_size rng c = Returns (n, c', rng') ->
      (NumActive c' <= NumActive c)%nat /\
      n = (NumActive c - NumActive c')%nat /\
      NumTotal c' = NumTotal c) /\
  prune_test_first
  = Returns (1%nat,
             ([[Byte.x01]; [Byte.x02]; [Byte.x03]; [Byte.x04]],
              5%nat)).
Proof.
  split; [|split; [|split]].
  - intros. apply Prune_zero.
  - intros. apply Prune_by_frequency; assumption.
  - intros R S fs frontier m rng c n c' rng' E.
    apply Prune_returns in E. tauto.
  - vm_compute. reflexivity.
Qed.

Lemma Prune_spec_witness :
  records_seen (fst prune_test_state) (records_ (snd prune_test_state)) /\
  exists c',
    @Prune counting_rng FeatureSet.test_scoring (fst prune_test_state)
           test_frontier 1000 0 (snd prune_test_state)
    = Returns (1%nat, c', 0) /\
    map data (records_ c')
    = [[Byte.x01]; [Byte.x02]; [Byte.x03]; [Byte.x04]].
Proof.
  assert (Hseen : records_seen (fst prune_test_state)
                               (records_ (snd prune_test_state))).
  { unfold records_seen. refine (bool_decide_unpack _ _).
    vm_compute. exact I. }
  split; [exact Hseen|].
  destruct Prune_spec as (_ & Hfreq & _).
  destruct (Hfreq counting_rng FeatureSet.test_scoring
                  (fst prune_test_state) test_frontier 1000%nat 0
                  (snd prune_test_state))
    as (c' & HP & Hrec & _).
  - lia.
  - exact Hseen.
  - vm_compute. lia.
  - exists c'. split; [exact HP | rewrite Hrec; reflexivity].
Defined.

(** The rest of [TEST(Corpus, Prune)]: the [Prune]s remove 1, 2, 0, 1
    and 1 records, one record is left of the six ever added, and the cap 0
    is fatal. *)
Example Prune_test_rest :
  prune_test_rest = Returns ([1; 2; 0; 1; 1]%nat, 1%nat, 6%nat, Fatal).
Proof. vm_compute. reflexivity. Qed.

End CorpusFacts.

(** ** The crash reporter *)
Module CrashFacts.
Import Loop.

Section WithCollaborators.
Context `{Collaborators} `{RandomSource} `{FeatureSet.Scoring}.

Lemma engine_same_refl (st : Centipede) : engine_same st st.
Proof. unfold engine_same. tauto. Qed.

Lemma engine_same_trans (a b c : Centipede) :
  engine_same a b -> engine_same b c -> engine_same a c.
Proof. unfold engine_same. intuition congruence. Qed.

Lemma observations_app (l1 l2 : list Event) :
  observations (l1 ++ l2) = observations l1 ++ observations l2.
Proof. unfold observations. apply flat_map_app. Qed.

(** One execution of a single input: it either succeeds, or fails and
    the input is written under its hash. *)
Lemma TryOneInput_returns (env : Environment) (binary : string)
      (input : ByteArray) (st : Centipede) (found : bool) (st' : Centipede) :
  TryOneInput env binary input st = Returns (found, st') ->
  exists evs,
    trace st' = trace st ++ evs /\ engine_same st st' /\
    observations evs
    = if found
      then [Ran [input] false;
            Wrote (path_append (crash_reproducer_dir env) (Hash input)) input]
      else [Ran [input] true].
Proof.
  unfold TryOneInput, CallExecute.
  destruct (Execute binary [input] (ext st)) as [[ok br] x].
  destruct ok.
  - intros E. injection E as <- <-.
    exists [EvExecute binary [input] true]. simpl.
    split; [reflexivity|]. split; [unfold engine_same; simpl; tauto|].
    reflexivity.
  - destruct (RemoteFileOpen_ok _); [|discriminate].
    intros E. injection E as <- <-.
    eexists [EvExecute binary [input] false; EvMkdir _; EvLog _; EvLog _;
             EvWrite _ _].
    simpl. rewrite <- !app_assoc. simpl.
    split; [reflexivity|]. split; [unfold engine_same; simpl; tauto|].
    reflexivity.
Qed.


(** The loop over the batch: the inputs are executed in order up to the
    first that fails. *)
Lemma try_one_by_one_returns (env : Environment) (binary : string)
      (inputs : list ByteArray) (st : Centipede) (found : bool)
      (st' : Centipede) :
  try_one_by_one env binary inputs st = Returns (found, st') ->
  exists evs,
    trace st' = trace st ++ evs /\ engine_same st st' /\
    if found
    then exists (k : nat) (input : ByteArray),
        inputs !! k = Some input /\
        observations evs
        = map (fun x => Ran [x] true) (take k inputs)
          ++ [Ran [input] false;
              Wrote (path_append (crash_reproducer_dir env) (Hash input))
                    input]
    else observations evs = map (fun x => Ran [x] true) inputs.
Proof.
  revert st. induction inputs as [|input rest IH]; intros st E; simpl in E.
  - injection E as <- <-. exists []. rewrite app_nil_r.
    split; [reflexivity|]. split; [apply engine_same_refl|].
    reflexivity.
  - apply obind_returns in E. destruct E as ([f1 st1] & Htry & E).
    apply TryOneInput_returns in Htry.
    destruct Htry as (evs1 & Ht1 & Hs1 & Hobs1). simpl in E.
    destruct f1.
    + injection E as <- <-. exists evs1.
      split; [exact Ht1|]. split; [exact Hs1|].
      exists O, input. split; [reflexivity | exact Hobs1].
    + apply IH in E. destruct E as (evs2 & Ht2 & Hs2 & Hobs2).
      exists (evs1 ++ evs2). rewrite Ht2, Ht1, app_assoc.
      split; [reflexivity|].
      split; [eapply engine_same_trans; eassumption|].
      rewrite observations_app, Hobs1.
      destruct found.
      * destruct Hobs2 as (k & x & Hk & Hobs2).
        exists (S k), x. split; [exact Hk|]. rewrite Hobs2. reflexivity.
      * rewrite Hobs2. reflexivity.
Qed.







(** *** The crash reporter leaves the corpus alone *)

Lemma same_corpus_refl (st : Centipede) : same_corpus st st.
Proof. unfold same_corpus. tauto. Qed.

Lemma same_corpus_trans (a b c : Centipede) :
  same_corpus a b -> same_corpus b c -> same_corpus a c.
Proof. unfold same_corpus. intuition congruence. Qed.

Lemma engine_same_corpus (st st' : Centipede) :
  engine_same st st' -> same_corpus st st'.
Proof. unfold engine_same, same_corpus. tauto. Qed.

Lemma one_by_one_same_corpus (env : Environment) (binary : string)
      (input_vec : list ByteArray) (st st' : Centipede) :
  one_by_one env binary input_vec st = Returns st' -> same_corpus st st'.
Proof.
  unfold one_by_one. intros E.
  apply obind_returns in E. destruct E as ([found st1] & Htry & E).
  apply try_one_by_one_returns in Htry.
  destruct Htry as (_ & _ & Hs & _). apply engine_same_corpus in Hs.
  simpl in E. destruct found; injection E as <-.
  - unfold same_corpus in *. simpl in Hs. exact Hs.
  - unfold same_corpus in *. simpl in *. exact Hs.
Qed.

Lemma ReportCrash_same_corpus (env : Environment) (binary : string)
      (input_vec : list ByteArray) (batch_result : BatchResult)
      (st st' : Centipede) :
  ReportCrash env binary input_vec batch_result st = Returns st' ->
  same_corpus st st'.
Proof.
  unfold ReportCrash.
  destruct (max_num_crash_reports env <=? num_crash_reports_ st).
  { intros E. injection E as <-. apply same_corpus_refl. }
  cbv zeta.
  match goal with
  | |- context [obind (CHECK _) (fun _ => if _ then obind _ ?k else _ ?s)] =>
      set (st1 := s)
  end.
  assert (Hst1 : same_corpus st st1).
  { subst st1.
    match goal with |- context [if ?c then _ else _] => destruct c end;
      unfold same_corpus; simpl; tauto. }
  intros E. apply obind_returns in E. destruct E as (_ & _ & E).
  destruct (num_outputs_read batch_result <? Z.of_nat (length input_vec)).
  - apply obind_returns in E. destruct E as (input & _ & E).
    apply obind_returns in E. destruct E as ([found st2] & Htry & E).
    apply TryOneInput_returns in Htry.
    destruct Htry as (_ & _ & Hs & _). apply engine_same_corpus in Hs.
    assert (Hs' : same_corpus st st2).
    { unfold same_corpus in *. simpl in Hs. intuition congruence. }
    simpl in E. destruct found.
    + injection E as <-. exact Hs'.
    + apply one_by_one_same_corpus in E.
      eapply same_corpus_trans; eassumption.
  - apply one_by_one_same_corpus in E.
    eapply same_corpus_trans; eassumption.
Qed.

End WithCollaborators.


(** A failing batch of three inputs whose second input crashes the
    target on its own; one output was read. The report executes that
    input first and writes it to [crashes/*]. *)
Example ReportCrash_example :
  (fun o => match o with
            | Returns st' => Some (observations (trace st'))
            | _ => None
            end)
    (@ReportCrash (simple_collaborators crashes_on_star (fun _ => []) true)
                  counting_rng shard_env "target" crash_batch
                  crash_batch_result
                  (initial_state crashes_on_star (fun _ => []) true))
  = Some [Ran [[Byte.x2a]] false; Wrote "crashes/*" [Byte.x2a]].
Proof. vm_compute. reflexivity. Qed.

End CrashFacts.

(** ** The corpus in the main loop *)
Module LoopFacts.
Import Loop.


Section WithCollaborators.
Context `{Collaborators} `{RandomSource} `{FeatureSet.Scoring}.

Import CrashFacts.


Lemma Add_returns (data : ByteArray) (fv : FeatureVec) (cmp_args : ByteArray)
      (fs : FeatureSet.t) (frontier : CoverageFrontier.t) (c c' : Corpus.t) :
  Corpus.Add data fv cmp_args fs frontier c = Returns c' ->
  Corpus.records_ c'
  = Corpus.records_ c
    ++ [{| Corpus.data := data; Corpus.features := fv;
           Corpus.cmp_args := cmp_args |}] /\
  Corpus.NumTotal c' = S (Corpus.NumTotal c).
Proof.
  unfold Corpus.Add. intros E.
  apply obind_returns in E. destruct E as (w & _ & E).
  injection E as <-. split; reflexivity.
Qed.


(** *** The dummy input *)


(** *** Sampling *)



(** *** Executing a batch *)

Lemma ExecuteAndReportCrash_returns (env : Environment) (binary : string)
      (input_vec : list ByteArray) (st : Centipede) success batch_result st' :
  ExecuteAndReportCrash env binary input_vec st
  = Returns (success, batch_result, st') ->
  same_corpus st st' /\
  batch_result = snd (fst (Execute binary input_vec (ext st))).
Proof.
  unfold ExecuteAndReportCrash, CallExecute.
  destruct (Execute binary input_vec (ext st)) as [[ok br] x]. simpl.
  intros E. apply obind_returns in E. destruct E as (st1 & Hst1 & E).
  injection E as <- <- <-. split; [|reflexivity].
  destruct ok.
  - injection Hst1 as <-. unfold same_corpus. simpl. tauto.
  - apply ReportCrash_same_corpus in Hst1.
    unfold same_corpus in *. simpl in Hst1. exact Hst1.
Qed.

Lemma run_extra_binaries_returns (env : Environment) (binaries : list string)
      (input_vec : list ByteArray) (acc acc' : bool * Centipede) :
  run_extra_binaries env binaries input_vec acc = Returns acc' ->
  same_corpus (snd acc) (snd acc').
Proof.
  revert acc. induction binaries as [|b rest IH]; intros acc E; simpl in E.
  - injection E as <-. apply same_corpus_refl.
  - apply obind_returns in E. destruct E as ([[ok br] st1] & Hex & E).
    apply ExecuteAndReportCrash_returns in Hex. destruct Hex as [Hs _].
    apply IH in E. simpl in E.
    eapply same_corpus_trans; eassumption.
Qed.

Lemma InputPassesFilter_same_corpus (env : Environment) (input : ByteArray)
      (st : Centipede) :
  same_corpus st (snd (InputPassesFilter env input st)).
Proof.
  unfold InputPassesFilter. destruct (input_filter_empty env).
  - apply same_corpus_refl.
  - destruct (run_input_filter input) as [interrupted ok].
    destruct interrupted; unfold same_corpus; simpl; tauto.
Qed.

(** *** Pruning after an addition *)






(** *** Loading another shard *)



(** *** The main loop *)




End WithCollaborators.



End LoopFacts.

(** ** Setting the knobs, and the edges of [Choose] and [GenerateBool] *)
Module KnobsSetFacts.
Import Knobs KnobsFacts.

Lemma sample_knobs_wf : wf sample_knobs.
Proof.
  split; [reflexivity|]. unfold sample_knobs. simpl.
  repeat constructor; unfold is_u8; lia.
Qed.

Lemma SetSpan_loop_ok (values : list Z) (count i : nat) (ks : list Z) :
  (i + count <= length values)%nat -> (i + count <= length ks)%nat ->
  exists ks',
    SetSpan_loop values i count ks = Returns ks' /\
    length ks' = length ks /\
    forall j : nat,
      ks' !! j = if decide (i <= j < i + count)%nat
                 then values !! j else ks !! j.
Proof.
  revert i ks. induction count as [|count IH]; intros i ks Hv Hk.
  - exists ks. split; [reflexivity|]. split; [reflexivity|].
    intros j. destruct (decide (i <= j < i + 0)%nat); [lia | reflexivity].
  - simpl. unfold span_at. rewrite Nat2Z.id.
    destruct (lookup_lt_is_Some_2 values i ltac:(lia)) as [v Hvi].
    rewrite Hvi. simpl.
    destruct (Nat.ltb_spec i (length ks)) as [Hi|Hi]; [|lia].
    destruct (IH (S i) (<[i := v]> ks)) as (ks' & E & Hlen & Hlook);
      [lia | rewrite length_insert; lia |].
    exists ks'. split; [exact E|]. rewrite length_insert in Hlen.
    split; [exact Hlen|]. intros j. rewrite Hlook.
    destruct (decide (S i <= j < S i + count)%nat) as [Ha|Ha];
      destruct (decide (i <= j < i + S count)%nat) as [Hb|Hb];
      try reflexivity; try lia.
    + destruct (Nat.eq_dec j i) as [->|Hne]; [|lia].
      rewrite list_lookup_insert_eq by lia. symmetry. exact Hvi.
    + rewrite list_lookup_insert_ne by lia. reflexivity.
Qed.

(** X1: [Set(values)] never reads or writes out of range; it sets the
    first [min(kNumKnobs, values.size())] knobs to the given values and
    leaves the others as they were. *)
Theorem SetSpan_spec (values : list Z) (k : Knobs) :
  wf k -> Forall is_u8 values ->
  exists k',
    SetSpan values k = Returns k' /\ wf k' /\
    forall id, valid_id id ->
      Value k' id
      = Returns (if id <? Z.of_nat (length values)
                 then default 0 (values !! Z.to_nat id)
                 else weight_of k id).
Proof.
  intros [Hlen Hall] Hvals. unfold SetSpan.
  set (n := Z.to_nat (Z.min kNumKnobs (Z.of_nat (length values)))).
  destruct (SetSpan_loop_ok values n 0 (knobs_ k)) as (ks & E & Hl & Hlook);
    [subst n; lia | subst n; lia |].
  rewrite E. simpl. eexists. split; [reflexivity|].
  assert (Hwf : wf {| knobs_ := ks |}).
  { split; [simpl; lia|]. simpl. apply Forall_lookup. intros j x Hj.
    rewrite Hlook in Hj.
    destruct (decide (0 <= j < 0 + n)%nat).
    - eapply Forall_lookup_1 in Hvals; eauto.
    - eapply Forall_lookup_1 in Hall; eauto. }
  split; [exact Hwf|]. intros id Hid.
  destruct (Value_valid _ id Hwf Hid) as [HV _]. rewrite HV. f_equal.
  unfold weight_of. simpl. rewrite Hlook. unfold valid_id, kNumKnobs in *.
  destruct (decide (0 <= Z.to_nat id < 0 + n)%nat) as [Hlt|Hge];
    destruct (Z.ltb_spec id (Z.of_nat (length values))) as [Hlt'|Hge'];
    subst n; try reflexivity; lia.
Qed.

Lemma SetSpan_spec_witness :
  exists k',
    SetSpan [7; 9] sample_knobs = Returns k' /\
    Value k' 1 = Returns 9 /\ Value k' 2 = Returns 2.
Proof.
  assert (Hvals : Forall is_u8 [7; 9])
    by (repeat constructor; unfold is_u8; lia).
  destruct (SetSpan_spec [7; 9] sample_knobs sample_knobs_wf Hvals)
    as (k' & E & _ & HV).
  exists k'. split; [exact E|]. split.
  - rewrite (HV 1) by (unfold valid_id, kNumKnobs; lia). reflexivity.
  - rewrite (HV 2) by (unfold valid_id, kNumKnobs; lia). reflexivity.
Defined.

(** *** All knobs equal *)

Lemma Set_wf (v : Z) (k : Knobs) : wf k -> is_u8 v -> wf (Set_ v k).
Proof.
  intros [Hlen _] Hv. split.
  - unfold Set_. simpl. rewrite length_map. exact Hlen.
  - unfold Set_. simpl. apply Forall_forall. intros x Hx.
    apply list_elem_of_fmap in Hx. destruct Hx as (y & -> & _). exact Hv.
Qed.

Lemma Set_weight_of (v : Z) (k : Knobs) (id : KnobId) :
  wf k -> valid_id id -> weight_of (Set_ v k) id = v.
Proof.
  intros [Hlen _] Hid. unfold weight_of, Set_. simpl.
  unfold valid_id in Hid.
  destruct (lookup_lt_is_Some_2 (knobs_ k) (Z.to_nat id) ltac:(lia))
    as [x Hx].
  rewrite list_lookup_fmap, Hx. reflexivity.
Qed.

Lemma Set_weight_sum (v : Z) (k : Knobs) (ids : list KnobId) :
  wf k -> Forall valid_id ids ->
  weight_sum (Set_ v k) ids = v * Z.of_nat (length ids).
Proof.
  intros Hk Hids. induction Hids as [|id ids Hid _ IH]; simpl; [lia|].
  rewrite IH, Set_weight_of by assumption. lia.
Qed.

(** X2: when all knobs hold the same value [v] (as after [Set(v)]),
    [Choose] is uniform: it returns [choices[random mod n]] for [v = 0] and
    [choices[(random mod (v * n)) / v]] otherwise; with all knobs 0 it
    behaves as with all knobs 1. *)
Theorem Choose_equal_knobs {T} (k : Knobs) (v : Z) (knob_ids : list KnobId)
        (choices : list T) (random : Z) :
  wf k -> is_u8 v -> Forall valid_id knob_ids ->
  length knob_ids = length choices -> choices <> [] ->
  is_u64 random -> Z.of_nat (length knob_ids) < 2 ^ 56 ->
  let n := Z.of_nat (length choices) in
  Choose (Set_ v k) knob_ids choices random
  = span_at choices (if v =? 0 then random mod n
                     else (random mod (v * n)) / v) /\
  Choose (Set_ 0 k) knob_ids choices random
  = Choose (Set_ 1 k) knob_ids choices random.
Proof.
  intros Hk Hv Hids Hlen Hne Hr Hsmall n.
  assert (Hgen : forall w, is_u8 w ->
            Choose (Set_ w k) knob_ids choices random
            = span_at choices (if w =? 0 then random mod n
                               else (random mod (w * n)) / w)).
  { clear v Hv. intros v Hv.
    pose proof (Set_wf v k Hk Hv) as Hk'.
    pose proof (Set_weight_sum v k knob_ids Hk Hids) as Hsum.
    unfold is_u8 in Hv. unfold Choose.
    assert (Hn : 0 < n)
      by (subst n; destruct choices; [congruence|simpl; lia]).
    destruct choices as [|c0 choices']; [congruence|].
    set (choices := c0 :: choices') in *.
    rewrite Hlen, Nat.eqb_refl. simpl negb. cbv iota.
    rewrite sum_values_ok by (try assumption; lia). unfold obind.
    rewrite Z.add_0_l, Hsum, Hlen. fold n.
    destruct (Z.eqb_spec v 0) as [->|Hv0].
    - rewrite Z.mul_0_l. reflexivity.
    - destruct (Z.eqb_spec (v * n) 0) as [Hz|_]; [nia|].
      pose proof (Z.mod_pos_bound random (v * n) ltac:(nia)) as Hm.
      destruct (scan_ok (Set_ v k) choices (random mod (v * n))
                        knob_ids [] Hk')
        as (idx & c & Hscan & Hc & Hlo & Hhi); simpl; try assumption;
        try lia.
      simpl in Hscan, Hlo, Hhi. change (Z.of_nat 0) with 0 in Hscan.
      rewrite Hscan.
      assert (Hidx : (idx < length knob_ids)%nat).
      { rewrite Hlen. eapply lookup_lt_Some. exact Hc. }
      rewrite Set_weight_sum in Hlo, Hhi
        by (try assumption; apply Forall_take; assumption).
      rewrite !length_take in Hlo, Hhi.
      rewrite Nat.min_l in Hlo, Hhi by lia.
      assert (Hq : random mod (v * n) / v = Z.of_nat idx).
      { symmetry. apply (Z.div_unique _ _ _ (random mod (v * n)
                                             - v * Z.of_nat idx)); lia. }
      rewrite Hq. unfold span_at. rewrite Nat2Z.id, Hc. reflexivity. }
  split; [apply Hgen; exact Hv|].
  rewrite (Hgen 0), (Hgen 1) by (unfold is_u8; lia).
  change (0 =? 0) with true. change (1 =? 0) with false. cbv iota.
  rewrite Z.div_1_r, Z.mul_1_l. reflexivity.
Qed.

Lemma Choose_equal_knobs_witness :
  Choose (Set_ 3 sample_knobs) [2; 3; 5] ["a"; "b"; "c"]%string 7
  = Returns "c"%string.
Proof.
  assert (Hv : is_u8 3) by (unfold is_u8; lia).
  assert (Hids : Forall valid_id [2; 3; 5]).
  { repeat constructor; unfold valid_id, kNumKnobs; lia. }
  assert (Hne : ["a"; "b"; "c"]%string <> []) by discriminate.
  assert (Hr : is_u64 7) by (unfold is_u64; lia).
  assert (Hs : Z.of_nat (length [2; 3; 5]) < 2 ^ 56) by (simpl; lia).
  destruct (Choose_equal_knobs sample_knobs 3 [2; 3; 5]
              ["a"; "b"; "c"]%string 7 sample_knobs_wf Hv Hids eq_refl
              Hne Hr Hs) as [E _].
  rewrite E. reflexivity.
Defined.

(** *** Bad arguments *)

Lemma sum_values_fatal (k : Knobs) (ids : list KnobId) (s : Z) :
  wf k -> Forall (fun id => 0 <= id) ids ->
  Exists (fun id => kNumKnobs <= id) ids ->
  sum_values k ids s = Fatal.
Proof.
  intros Hk Hpos Hbad. revert s.
  induction ids as [|id ids IH]; intros s; [inversion Hbad|].
  simpl. inversion Hpos as [|? ? Hid Hrest]; subst.
  destruct (Z_lt_le_dec id kNumKnobs) as [Hlt|Hge].
  - destruct (Value_valid k id Hk) as [HV _]; [split; assumption|].
    rewrite HV. simpl. apply IH; [assumption|].
    inversion Hbad; subst; [lia | assumption].
  - unfold Value. destruct (Z.leb_spec kNumKnobs id); [reflexivity | lia].
Qed.

Lemma not_Exists_valid (ids : list KnobId) :
  Forall (fun id => 0 <= id) ids ->
  ~ Exists (fun id => kNumKnobs <= id) ids -> Forall valid_id ids.
Proof.
  intros Hpos Hno. induction Hpos as [|id ids Hid _ IH]; constructor.
  - split; [exact Hid|].
    destruct (Z_lt_le_dec id kNumKnobs) as [Hlt|Hge]; [exact Hlt|].
    exfalso. apply Hno. left. exact Hge.
  - apply IH. intros Hex. apply Hno. right. exact Hex.
Qed.

(** X3: [Choose] traps exactly when [choices] is empty, the two spans
    differ in size or some knob id is not below [kNumKnobs]; otherwise it
    returns. The [__builtin_unreachable()] after the scan is never
    reached. *)
Theorem Choose_traps {T} (k : Knobs) (knob_ids : list KnobId)
        (choices : list T) (random : Z) :
  wf k -> Forall (fun id => 0 <= id) knob_ids ->
  is_u64 random -> Z.of_nat (length knob_ids) < 2 ^ 56 ->
  let bad := choices = [] \/ length knob_ids <> length choices
             \/ Exists (fun id => kNumKnobs <= id) knob_ids in
  (bad -> Choose k knob_ids choices random = Fatal) /\
  (~ bad -> exists c, Choose k knob_ids choices random = Returns c) /\
  (forall u, Choose k knob_ids choices random <> Undefined u).
Proof.
  intros Hk Hpos Hr Hsmall bad.
  assert (Hbad : bad -> Choose k knob_ids choices random = Fatal).
  { intros [Hb | [Hb | Hb]]; unfold Choose.
    - rewrite Hb. reflexivity.
    - destruct choices as [|c0 choices']; [reflexivity|].
      destruct (Nat.eqb_spec (length knob_ids) (length (c0 :: choices')));
        [contradiction | reflexivity].
    - destruct choices as [|c0 choices']; [reflexivity|].
      destruct (negb _); [reflexivity|].
      rewrite sum_values_fatal by assumption. reflexivity. }
  assert (Hgood : ~ bad ->
            exists c, Choose k knob_ids choices random = Returns c).
  { intros Hnb.
    assert (Hne : choices <> []) by (intros E; apply Hnb; left; exact E).
    assert (Hlen : length knob_ids = length choices).
    { destruct (Nat.eq_dec (length knob_ids) (length choices)) as [E|E];
        [exact E|]. exfalso. apply Hnb. right. left. exact E. }
    assert (Hids : Forall valid_id knob_ids).
    { apply not_Exists_valid; [assumption|]. intros E. apply Hnb.
      right. right. exact E. }
    pose proof (weight_sum_bounds k knob_ids Hk Hids) as Hsum.
    assert (Hn : 0 < Z.of_nat (length choices))
      by (destruct choices; [congruence|simpl; lia]).
    unfold Choose. destruct choices as [|c0 choices']; [congruence|].
    set (choices := c0 :: choices') in *.
    rewrite Hlen, Nat.eqb_refl. simpl negb. cbv iota.
    rewrite sum_values_ok by (try assumption; lia). unfold obind.
    rewrite Z.add_0_l.
    destruct (Z.eqb_spec (weight_sum k knob_ids) 0) as [Hz|Hnz].
    - assert (Hidx : (Z.to_nat (random mod Z.of_nat (length choices))
                      < length choices)%nat).
      { pose proof (Z.mod_pos_bound random (Z.of_nat (length choices))).
        lia. }
      destruct (lookup_lt_is_Some_2 choices _ Hidx) as [c Hc].
      exists c. unfold span_at. rewrite Hc. reflexivity.
    - pose proof (Z.mod_pos_bound random (weight_sum k knob_ids)
                                  ltac:(lia)) as Hm.
      destruct (scan_ok k choices (random mod weight_sum k knob_ids)
                        knob_ids [] Hk)
        as (idx & c & Hscan & _); simpl; try assumption; try lia.
      exists c. exact Hscan. }
  split; [exact Hbad|]. split; [exact Hgood|].
  intros u Hu.
  assert (Hdec : bad \/ ~ bad).
  { unfold bad. destruct choices as [|c0 choices'].
    - left. left. reflexivity.
    - destruct (Nat.eq_dec (length knob_ids) (length (c0 :: choices')))
        as [E|E]; [|left; right; left; exact E].
      destruct (decide (Exists (fun id => kNumKnobs <= id) knob_ids))
        as [E'|E'].
      + left. right. right. exact E'.
      + right. intros [Hb | [Hb | Hb]]; [discriminate | | ]; contradiction. }
  destruct Hdec as [Hb|Hb].
  - rewrite (Hbad Hb) in Hu. discriminate.
  - destruct (Hgood Hb) as [c Hc]. rewrite Hc in Hu. discriminate.
Qed.

Lemma Choose_traps_witness :
  Choose sample_knobs [2; 40] ["a"; "b"]%string 7 = Fatal.
Proof.
  assert (Hpos : Forall (fun id => 0 <= id) [2; 40])
    by (repeat constructor; lia).
  assert (Hr : is_u64 7) by (unfold is_u64; lia).
  assert (Hs : Z.of_nat (length [2; 40]) < 2 ^ 56) by (simpl; lia).
  destruct (Choose_traps sample_knobs [2; 40] ["a"; "b"]%string 7
              sample_knobs_wf Hpos Hr Hs) as [Hbad _].
  apply Hbad. right. right. right. left. unfold kNumKnobs. lia.
Defined.

(** *** Choices of weight zero *)

Lemma weight_sum_take_S (k : Knobs) (ids : list KnobId) (idx : nat)
      (id : KnobId) :
  ids !! idx = Some id ->
  weight_sum k (take (S idx) ids)
  = weight_sum k (take idx ids) + weight_of k id.
Proof.
  intros Hid. rewrite (take_S_r _ _ _ Hid), weight_sum_app. simpl. lia.
Qed.

(** X4: while some knob of [knob_ids] is positive, [Choose] never
    returns a choice whose knob is 0; in particular [Choose(choices,
    random)] returns one of [choices] whose knob value is positive. *)
Theorem Choose_skips_zero_knobs (k : Knobs) (random : Z) :
  wf k -> is_u64 random ->
  (forall (T : Type) (knob_ids : list KnobId) (choices : list T) (c : T),
      Forall valid_id knob_ids -> Z.of_nat (length knob_ids) < 2 ^ 56 ->
      0 < weight_sum k knob_ids ->
      Choose k knob_ids choices random = Returns c ->
      exists (idx : nat) (id : KnobId),
        knob_ids !! idx = Some id /\ choices !! idx = Some c /\
        0 < weight_of k id) /\
  (forall (choices : list KnobId) (id : KnobId),
      Forall valid_id choices -> Z.of_nat (length choices) < 2 ^ 56 ->
      0 < weight_sum k choices ->
      ChooseId k choices random = Returns id ->
      id ∈ choices /\ exists v, Value k id = Returns v /\ 0 < v).
Proof.
  intros Hk Hr.
  assert (Hgen : forall (T : Type) (knob_ids : list KnobId)
                        (choices : list T) (c : T),
      Forall valid_id knob_ids -> Z.of_nat (length knob_ids) < 2 ^ 56 ->
      0 < weight_sum k knob_ids ->
      Choose k knob_ids choices random = Returns c ->
      exists (idx : nat) (id : KnobId),
        knob_ids !! idx = Some id /\ choices !! idx = Some c /\
        0 < weight_of k id).
  { intros T knob_ids choices c Hids Hsmall Hpos E.
    pose proof (weight_sum_bounds k knob_ids Hk Hids) as Hsum.
    unfold Choose in E. destruct choices as [|c0 choices'];
      [discriminate|]. set (choices := c0 :: choices') in *.
    destruct (Nat.eqb_spec (length knob_ids) (length choices)) as [Hlen|];
      [|discriminate]. simpl negb in E. cbv iota in E.
    rewrite sum_values_ok in E by (try assumption; lia). unfold obind in E.
    rewrite Z.add_0_l in E.
    destruct (Z.eqb_spec (weight_sum k knob_ids) 0) as [Hz|_]; [lia|].
    pose proof (Z.mod_pos_bound random (weight_sum k knob_ids) Hpos) as Hm.
    destruct (scan_ok k choices (random mod weight_sum k knob_ids)
                      knob_ids [] Hk)
      as (idx & c' & Hscan & Hc & Hlo & Hhi); simpl; try assumption;
      try lia.
    simpl in Hscan, Hlo, Hhi. change (Z.of_nat 0) with 0 in Hscan.
    rewrite Hscan in E.
    injection E as ->.
    assert (Hidx : (idx < length knob_ids)%nat).
    { rewrite Hlen. eapply lookup_lt_Some. exact Hc. }
    destruct (lookup_lt_is_Some_2 knob_ids idx Hidx) as [id Hid].
    exists idx, id. split; [exact Hid|]. split; [exact Hc|].
    rewrite (weight_sum_take_S k knob_ids idx id Hid) in Hhi. lia. }
  split; [exact Hgen|].
  intros choices id Hids Hsmall Hpos E. unfold ChooseId in E.
  destruct (Hgen _ _ _ _ Hids Hsmall Hpos E) as (idx & id' & Hid & Hc & Hw).
  rewrite Hid in Hc. injection Hc as ->.
  split; [eapply list_elem_of_lookup_2; exact Hid|].
  exists (weight_of k id). split; [|exact Hw].
  apply Value_valid; [exact Hk|].
  rewrite Forall_forall in Hids. apply Hids.
  eapply list_elem_of_lookup_2. exact Hid.
Qed.

Lemma Choose_skips_zero_knobs_witness :
  ChooseId sample_knobs [0; 3; 0; 5] 6 = Returns 5 /\
  5 ∈ [0; 3; 0; 5] /\
  exists v, Value sample_knobs 5 = Returns v /\ 0 < v.
Proof.
  assert (Hr : is_u64 6) by (unfold is_u64; lia).
  assert (Hids : Forall valid_id [0; 3; 0; 5]).
  { repeat constructor; unfold valid_id, kNumKnobs; lia. }
  assert (Hs : Z.of_nat (length [0; 3; 0; 5]) < 2 ^ 56) by (simpl; lia).
  assert (Hpos : 0 < weight_sum sample_knobs [0; 3; 0; 5])
    by (vm_compute; reflexivity).
  split; [reflexivity|].
  exact (proj2 (Choose_skips_zero_knobs sample_knobs 6 sample_knobs_wf Hr)
               [0; 3; 0; 5] 5 Hids Hs Hpos eq_refl).
Defined.

(** *** [GenerateBool] *)

Lemma GenerateBool_by_value (k : Knobs) (id : KnobId) (default_value : bool)
      (random : Z) :
  wf k -> valid_id id ->
  let v := weight_of k id in
  GenerateBool k id default_value random
  = Returns (if (v =? 0) || (v =? 255) then default_value
             else if v =? 1 then false
             else if v =? 254 then true
             else random mod 252 <=? v - 2).
Proof.
  intros Hk Hid v. destruct (Value_valid k id Hk Hid) as [HV Hu8].
  fold v in HV, Hu8. unfold GenerateBool. rewrite HV. simpl.
  destruct ((v =? 0) || (v =? 255)) eqn:E0; [reflexivity|].
  destruct (Z.eqb_spec v 1); [reflexivity|].
  destruct (Z.eqb_spec v 254); [reflexivity|].
  apply orb_false_elim in E0. destruct E0 as [E0 E255].
  apply Z.eqb_neq in E0, E255. unfold is_u8 in Hu8.
  unfold wrap8. rewrite (Z.mod_small (v - 2)) by lia. reflexivity.
Qed.

(** X5: for knob values from 1 to 254, [GenerateBool] is monotone in
    the knob value: with the same [random], a knob with a larger value
    answers true whenever one with a smaller value does. *)
Theorem GenerateBool_monotone (k : Knobs) (id1 id2 : KnobId)
        (default_value : bool) (random : Z) :
  wf k -> valid_id id1 -> valid_id id2 ->
  1 <= weight_of k id1 -> weight_of k id1 <= weight_of k id2 ->
  weight_of k id2 <= 254 ->
  GenerateBool k id1 default_value random = Returns true ->
  GenerateBool k id2 default_value random = Returns true.
Proof.
  intros Hk H1 H2 Hlo Hle Hhi.
  rewrite !GenerateBool_by_value by assumption.
  set (v1 := weight_of k id1) in *. set (v2 := weight_of k id2) in *.
  pose proof (Z.mod_pos_bound random 252 ltac:(lia)) as Hm.
  destruct (Z.eqb_spec v1 0); [lia|]. destruct (Z.eqb_spec v1 255); [lia|].
  destruct (Z.eqb_spec v2 0); [lia|]. destruct (Z.eqb_spec v2 255); [lia|].
  simpl.
  destruct (Z.eqb_spec v1 1); [discriminate|].
  destruct (Z.eqb_spec v2 1); [lia|].
  destruct (Z.eqb_spec v2 254); [reflexivity|].
  destruct (Z.eqb_spec v1 254); [lia|].
  intros E. injection E as E. apply Z.leb_le in E.
  f_equal. apply Z.leb_le. lia.
Qed.

Lemma GenerateBool_monotone_witness :
  GenerateBool sample_knobs 5 false 3 = Returns true /\
  GenerateBool sample_knobs 9 false 3 = Returns true.
Proof.
  split; [reflexivity|].
  apply (GenerateBool_monotone sample_knobs 5 9 false 3 sample_knobs_wf);
    try (unfold valid_id, kNumKnobs; lia);
    try (vm_compute; discriminate); reflexivity.
Defined.

(** X6: for a knob value from 2 to 252 both answers of [GenerateBool]
    occur (true for [random = 0], false for [random = 251]); for the value
    253 the answer is true for every [random], as it is for 254. *)
Theorem GenerateBool_outcomes (k : Knobs) (id : KnobId)
        (default_value : bool) :
  wf k -> valid_id id ->
  let v := weight_of k id in
  (2 <= v <= 252 ->
   GenerateBool k id default_value 0 = Returns true /\
   GenerateBool k id default_value 251 = Returns false) /\
  (v = 253 ->
   forall random, GenerateBool k id default_value random = Returns true).
Proof.
  intros Hk Hid v. split.
  - intros Hv. rewrite !GenerateBool_by_value by assumption. fold v.
    destruct (Z.eqb_spec v 0); [lia|]. destruct (Z.eqb_spec v 255); [lia|].
    destruct (Z.eqb_spec v 1); [lia|]. destruct (Z.eqb_spec v 254); [lia|].
    simpl. split; f_equal.
    + apply Z.leb_le. change (0 mod 252) with 0. lia.
    + apply Z.leb_gt. change (251 mod 252) with 251. lia.
  - intros Hv random. rewrite GenerateBool_by_value by assumption. fold v.
    rewrite Hv. simpl. f_equal. apply Z.leb_le.
    pose proof (Z.mod_pos_bound random 252 ltac:(lia)). lia.
Qed.

Lemma GenerateBool_outcomes_witness :
  GenerateBool sample_knobs 7 true 0 = Returns true /\
  GenerateBool sample_knobs 7 true 251 = Returns false.
Proof.
  apply (GenerateBool_outcomes sample_knobs 7 true sample_knobs_wf).
  - unfold valid_id, kNumKnobs. lia.
  - vm_compute. split; discriminate.
Defined.

End KnobsSetFacts.

(** ** Every other shard can be picked *)
Module ShardCoverFacts.
Import Loop.

Lemma other_shard_index_small (env : Environment) (r : Z) :
  1 < total_shards env <= 2 ^ 63 ->
  0 <= my_shard_index env < total_shards env ->
  0 <= r < total_shards env - 1 ->
  other_shard_index env r
  = if my_shard_index env + 1 + r <? total_shards env
    then my_shard_index env + 1 + r
    else my_shard_index env + 1 + r - total_shards env.
Proof.
  unfold other_shard_index.
  set (T := total_shards env). set (m := my_shard_index env).
  intros HT Hm Hr.
  rewrite (wrap64_small (T - 1)) by (unfold is_u64; lia).
  rewrite (Z.mod_small r) by lia.
  rewrite (wrap64_small (m + 1)) by (unfold is_u64; lia).
  rewrite (wrap64_small (m + 1 + r)) by (unfold is_u64; lia).
  destruct (Z.ltb_spec (m + 1 + r) T) as [Hlt|Hge].
  - apply Z.mod_small. lia.
  - symmetry. apply (Zmod_unique _ _ 1). lia. lia.
Qed.

(** X7: the choice of the other shard reaches every shard but
    [my_shard_index], each for exactly one value of
    [rng() mod (total_shards - 1)]. *)
Theorem other_shard_covers_all (env : Environment) :
  1 < total_shards env <= 2 ^ 63 ->
  0 <= my_shard_index env < total_shards env ->
  (forall s, 0 <= s < total_shards env -> s <> my_shard_index env ->
     exists r, 0 <= r < total_shards env - 1 /\
               other_shard_index env r = s) /\
  (forall r1 r2,
      0 <= r1 < total_shards env - 1 -> 0 <= r2 < total_shards env - 1 ->
      other_shard_index env r1 = other_shard_index env r2 -> r1 = r2).
Proof.
  intros HT Hm. split.
  - intros s Hs Hne.
    destruct (Z_lt_le_dec (my_shard_index env) s) as [Hgt|Hle].
    + exists (s - my_shard_index env - 1). split; [lia|].
      rewrite other_shard_index_small by lia.
      destruct (Z.ltb_spec (my_shard_index env + 1
                            + (s - my_shard_index env - 1))
                           (total_shards env)); lia.
    + exists (s + total_shards env - my_shard_index env - 1).
      split; [lia|].
      rewrite other_shard_index_small by lia.
      destruct (Z.ltb_spec (my_shard_index env + 1
                            + (s + total_shards env
                               - my_shard_index env - 1))
                           (total_shards env)); lia.
  - intros r1 r2 H1 H2. rewrite !other_shard_index_small by lia.
    destruct (Z.ltb_spec (my_shard_index env + 1 + r1) (total_shards env));
      destruct (Z.ltb_spec (my_shard_index env + 1 + r2) (total_shards env));
      lia.
Qed.

Lemma other_shard_covers_all_witness :
  exists r, 0 <= r < 4 /\ other_shard_index shard_env r = 1.
Proof.
  destruct (other_shard_covers_all shard_env) as [Hsurj _].
  - simpl. lia.
  - simpl. lia.
  - destruct (Hsurj 1) as (r & Hr & E).
    + simpl. lia.
    + simpl. lia.
    + exists r. split; [exact Hr | exact E].
Defined.

End ShardCoverFacts.

(** ** The number of batches and the pulse *)
Module BatchCountFacts.
Import Loop.

Lemma land_odd_even (x y : Z) :
  Z.land (2 * x + 1) (2 * y) = 2 * Z.land x y.
Proof.
  apply Z.bits_inj'. intros n Hn. rewrite Z.land_spec.
  destruct (Z.eq_dec n 0) as [->|Hn0].
  - rewrite Z.testbit_odd_0, !Z.testbit_even_0. reflexivity.
  - replace n with (Z.succ (n - 1)) by lia.
    rewrite Z.testbit_odd_succ, !Z.testbit_even_succ by lia.
    rewrite Z.land_spec. reflexivity.
Qed.

Lemma land_even_odd_pos (a : Z) : 0 < a -> Z.land (2 * a) (2 * a + 1) <> 0.
Proof.
  intros Ha E.
  assert (Hb : Z.testbit (Z.land (2 * a) (2 * a + 1))
                         (Z.succ (Z.log2 a)) = true).
  { pose proof (Z.log2_nonneg a).
    rewrite Z.land_spec, Z.testbit_even_succ, Z.testbit_odd_succ by lia.
    rewrite Z.bit_log2 by lia. reflexivity. }
  rewrite E, Z.bits_0 in Hb. discriminate.
Qed.

Lemma land_pred_pos (p : positive) :
  Z.land (Z.pos p - 1) (Z.pos p) = 0 <-> exists k, 0 <= k /\ Z.pos p = 2 ^ k.
Proof.
  induction p as [p IH|p IH|].
  - split.
    + intros E. exfalso. apply (land_even_odd_pos (Z.pos p)); [lia|].
      replace (2 * Z.pos p) with (Z.pos p~1 - 1) by lia.
      replace (2 * Z.pos p + 1) with (Z.pos p~1) by lia. exact E.
    + intros (k & Hk & E). exfalso.
      destruct (Z.eq_dec k 0) as [->|Hk0]; [simpl in E; lia|].
      replace k with (Z.succ (k - 1)) in E by lia.
      rewrite Z.pow_succ_r in E by lia. lia.
  - replace (Z.pos p~0 - 1) with (2 * (Z.pos p - 1) + 1) by lia.
    replace (Z.pos p~0) with (2 * Z.pos p) at 1 by lia.
    rewrite land_odd_even. split.
    + intros E. assert (E' : Z.land (Z.pos p - 1) (Z.pos p) = 0) by lia.
      apply IH in E'. destruct E' as (k & Hk & E').
      exists (Z.succ k). split; [lia|].
      rewrite Z.pow_succ_r by lia. lia.
    + intros (k & Hk & E).
      destruct (Z.eq_dec k 0) as [->|Hk0]; [simpl in E; lia|].
      replace k with (Z.succ (k - 1)) in E by lia.
      rewrite Z.pow_succ_r in E by lia.
      assert (E' : Z.land (Z.pos p - 1) (Z.pos p) = 0).
      { apply IH. exists (k - 1). split; lia. }
      lia.
  - split; [|intros _; reflexivity].
    intros _. exists 0. split; [lia | reflexivity].
Qed.

(** X8: [((batch_index - 1) & batch_index) == 0] holds exactly for
    [batch_index = 0] and for the powers of two. *)
Theorem batch_is_power_of_two_spec (batch_index : Z) :
  is_u64 batch_index ->
  batch_is_power_of_two batch_index = true
  <-> batch_index = 0 \/ exists k, 0 <= k < 64 /\ batch_index = 2 ^ k.
Proof.
  unfold is_u64, batch_is_power_of_two. intros Hb.
  destruct batch_index as [|p|p]; [| |lia].
  - split; [intros _; left; reflexivity|]. intros _.
    rewrite Z.land_0_r. reflexivity.
  - rewrite wrap64_small by (unfold is_u64; lia).
    rewrite Z.eqb_eq, land_pred_pos. split.
    + intros (k & Hk & E). right. exists k. split; [|exact E].
      split; [exact Hk|]. rewrite E in Hb.
      apply (Z.pow_lt_mono_r_iff 2); lia.
    + intros [E | (k & Hk & E)]; [discriminate|]. exists k. split; [lia|].
      exact E.
Qed.

Lemma batch_is_power_of_two_spec_witness :
  batch_is_power_of_two 8 = true.
Proof.
  apply (batch_is_power_of_two_spec 8); [unfold is_u64; lia|].
  right. exists 3. split; [lia | reflexivity].
Defined.

(** X9: [(num_runs + batch_size - 1) / batch_size] is [num_runs /
    batch_size] rounded up as long as the sum does not wrap around; when
    it wraps around the number of batches is 0; a [batch_size] of 0 is a
    division by zero. *)
Theorem number_of_batches_rounds_up (env : Environment) :
  is_u64 (num_runs env) -> is_u64 (batch_size env) ->
  (0 < batch_size env -> num_runs env + batch_size env - 1 < 2 ^ 64 ->
   exists n,
     number_of_batches env = Returns n /\
     (n - 1) * batch_size env < num_runs env <= n * batch_size env) /\
  (0 < batch_size env -> 2 ^ 64 <= num_runs env + batch_size env - 1 ->
   number_of_batches env = Returns 0) /\
  (batch_size env = 0 ->
   number_of_batches env = Undefined division_by_zero).
Proof.
  unfold is_u64, number_of_batches.
  set (N := num_runs env). set (B := batch_size env). intros HN HB.
  assert (Hw : 0 < B ->
               wrap64 (wrap64 (N + B) - 1) = wrap64 (N + B - 1)).
  { intros Hpos. unfold wrap64. rewrite Zminus_mod_idemp_l. reflexivity. }
  split; [|split].
  - intros Hpos Hsmall. destruct (Z.eqb_spec B 0); [lia|].
    eexists. split; [reflexivity|]. rewrite Hw by assumption.
    rewrite wrap64_small by (unfold is_u64; lia).
    pose proof (Z.div_mod (N + B - 1) B ltac:(lia)) as Hdm.
    pose proof (Z.mod_pos_bound (N + B - 1) B Hpos) as Hm. nia.
  - intros Hpos Hbig. destruct (Z.eqb_spec B 0); [lia|].
    f_equal. rewrite Hw by assumption. unfold wrap64.
    rewrite <- (Zmod_unique (N + B - 1) (2 ^ 64) 1 (N + B - 1 - 2 ^ 64))
      by lia.
    apply Z.div_small. lia.
  - intros ->. reflexivity.
Qed.

Lemma number_of_batches_rounds_up_witness :
  exists n, number_of_batches shard_env = Returns n /\
            (n - 1) * 10 < 1000 <= n * 10.
Proof.
  destruct (number_of_batches_rounds_up shard_env) as [Hup _].
  - unfold is_u64. simpl. lia.
  - unfold is_u64. simpl. lia.
  - apply Hup; simpl; lia.
Defined.

End BatchCountFacts.

(** ** The counters of the engine *)
Module CounterFacts.
Import Loop CrashFacts.

Lemma written_app (tr evs : list Event) :
  reproducers_written (tr ++ evs)
  = reproducers_written tr + reproducers_written evs.
Proof.
  unfold reproducers_written.
  rewrite observations_app, List.filter_app, length_app. lia.
Qed.

Lemma written_nonneg (tr : list Event) : 0 <= reproducers_written tr.
Proof. unfold reproducers_written. lia. Qed.

Lemma no_reproducer_in_runs (inputs : list ByteArray) :
  List.filter is_reproducer (map (fun x => Ran [x] true) inputs) = [].
Proof. induction inputs as [|x l IH]; simpl; [reflexivity | exact IH]. Qed.

Section WithCollaborators.
Context `{Collaborators} `{RandomSource} `{FeatureSet.Scoring}.

Lemma quiet_refl (env : Environment) (st : Centipede) : quiet env st st.
Proof. unfold quiet. tauto. Qed.

Lemma quiet_trans (env : Environment) (a b c : Centipede) :
  quiet env a b -> quiet env b c -> quiet env a c.
Proof. unfold quiet. intros (-> & ? & ?) (-> & ? & ?). tauto. Qed.

(** A step that changes neither the counters nor the flag and writes
    no reproducer is quiet. *)
Lemma quiet_silent (env : Environment) (st st' : Centipede)
      (evs : list Event) :
  num_runs_ st' = num_runs_ st ->
  num_crash_reports_ st' = num_crash_reports_ st ->
  (early_exit_requested st = true -> early_exit_requested st' = true) ->
  trace st' = trace st ++ evs -> reproducers_written evs = 0 ->
  quiet env st st'.
Proof.
  intros Hr Hc He Ht Hw. unfold quiet, crash_reports_bounded.
  rewrite Hr, Hc, Ht, written_app, Hw. split; [reflexivity|].
  split; [exact He|]. intros _. lia.
Qed.

Ltac silent evs :=
  apply (quiet_silent _ _ _ evs); simpl;
  rewrite ?app_nil_r, <- ?app_assoc; auto.

Lemma sample_input_quiet (env : Environment) (st : Centipede)
      (input : ByteArray) (st' : Centipede) :
  sample_input env st = Returns (input, st') -> quiet env st st'.
Proof.
  unfold sample_input. destruct (rng_next (rng_ st)) as [r rng].
  intros E. apply obind_returns in E. destruct E as (x & _ & E).
  injection E as _ <-.
  silent [EvSample (Corpus.NumActive (corpus_ st))].
Qed.

Lemma sample_inputs_quiet (env : Environment) (n : nat) (st : Centipede)
      (inputs : list ByteArray) (st' : Centipede) :
  sample_inputs env n st = Returns (inputs, st') ->
  quiet env st st' /\ length inputs = n.
Proof.
  revert st inputs st'. induction n as [|n IH]; intros st inputs st' E;
    simpl in E.
  - injection E as <- <-. split; [apply quiet_refl | reflexivity].
  - apply obind_returns in E. destruct E as ([input st1] & E1 & E).
    apply obind_returns in E. destruct E as ([rest st2] & E2 & E).
    simpl in E, E2. injection E as <- <-.
    apply sample_input_quiet in E1. apply IH in E2.
    destruct E2 as [E2 Hlen]. split.
    + eapply quiet_trans; eassumption.
    + simpl. rewrite Hlen. reflexivity.
Qed.

Lemma CallExecute_quiet (env : Environment) (binary : string)
      (inputs : list ByteArray) (st : Centipede) :
  quiet env st (snd (CallExecute binary inputs st)) /\
  fst (fst (CallExecute binary inputs st))
  = fst (fst (Execute binary inputs (ext st))).
Proof.
  unfold CallExecute.
  destruct (Execute binary inputs (ext st)) as [[success br] x]. simpl.
  split; [|reflexivity].
  silent [EvExecute binary inputs success].
Qed.

Lemma engine_same_one_more (st st' : Centipede) :
  engine_same st st' -> one_more st st'.
Proof. unfold engine_same, one_more. tauto. Qed.

Lemma TryOneInput_written (env : Environment) (binary : string)
      (input : ByteArray) (st : Centipede) (found : bool) (st' : Centipede) :
  TryOneInput env binary input st = Returns (found, st') ->
  one_more st st' /\
  reproducers_written (trace st')
  = reproducers_written (trace st) + (if found then 1 else 0).
Proof.
  intros E. apply TryOneInput_returns in E.
  destruct E as (evs & Ht & Hs & Hobs).
  split; [apply engine_same_one_more; exact Hs|].
  rewrite Ht, written_app. f_equal. unfold reproducers_written.
  rewrite Hobs. destruct found; reflexivity.
Qed.

Lemma try_one_by_one_written (env : Environment) (binary : string)
      (inputs : list ByteArray) (st : Centipede) (found : bool)
      (st' : Centipede) :
  try_one_by_one env binary inputs st = Returns (found, st') ->
  one_more st st' /\
  reproducers_written (trace st')
  = reproducers_written (trace st) + (if found then 1 else 0).
Proof.
  intros E. apply try_one_by_one_returns in E.
  destruct E as (evs & Ht & Hs & Hobs).
  split; [apply engine_same_one_more; exact Hs|].
  rewrite Ht, written_app. f_equal. unfold reproducers_written.
  destruct found.
  - destruct Hobs as (k & input & _ & ->).
    rewrite List.filter_app, no_reproducer_in_runs. reflexivity.
  - rewrite Hobs, no_reproducer_in_runs. reflexivity.
Qed.

Lemma one_by_one_written (env : Environment) (binary : string)
      (input_vec : list ByteArray) (st st' : Centipede) :
  one_by_one env binary input_vec st = Returns st' ->
  one_more st st' /\
  reproducers_written (trace st) <= reproducers_written (trace st')
  <= reproducers_written (trace st) + 1.
Proof.
  unfold one_by_one. intros E.
  apply obind_returns in E. destruct E as ([found st1] & Htry & E).
  apply try_one_by_one_written in Htry. destruct Htry as [Hs Hw].
  simpl in E, Hs, Hw. rewrite written_app in Hw.
  change (reproducers_written [EvLog "executing inputs one-by-one"])
    with 0 in Hw.
  destruct found; injection E as <-.
  - split; [exact Hs | lia].
  - unfold one_more in *. simpl. rewrite written_app.
    change (reproducers_written
              [EvLog "crash was not observed when running inputs one-by-one"])
      with 0.
    split; [exact Hs | lia].
Qed.

Lemma ReportCrash_quiet (env : Environment) (binary : string)
      (input_vec : list ByteArray) (batch_result : BatchResult)
      (st st' : Centipede) :
  ReportCrash env binary input_vec batch_result st = Returns st' ->
  quiet env st st' /\
  early_exit_requested st' = early_exit_requested st /\
  reproducers_written (trace st) <= reproducers_written (trace st')
  <= reproducers_written (trace st) + 1.
Proof.
  unfold ReportCrash.
  destruct (Z.leb_spec (max_num_crash_reports env) (num_crash_reports_ st))
    as [Hge|Hlt].
  { intros E. injection E as <-. split; [apply quiet_refl|].
    split; [reflexivity | lia]. }
  cbv zeta.
  match goal with
  | |- context [obind (CHECK _) (fun _ => if _ then obind _ ?k else _ ?s)] =>
      set (st1 := s)
  end.
  assert (Hst1 : num_runs_ st1 = num_runs_ st /\
                 num_crash_reports_ st1 = wrap64 (num_crash_reports_ st + 1) /\
                 early_exit_requested st1 = early_exit_requested st /\
                 reproducers_written (trace st1)
                 = reproducers_written (trace st)).
  { subst st1.
    match goal with |- context [if ?c then _ else _] => destruct c end;
      simpl; rewrite ?written_app;
      repeat match goal with
             | |- context [reproducers_written [EvLog ?m]] =>
                 change (reproducers_written [EvLog m]) with 0
             end;
      repeat split; lia. }
  destruct Hst1 as (Hr1 & Hc1 & He1 & Hw1).
  assert (Hfin : forall st2,
             one_more st1 st2 ->
             reproducers_written (trace st1) <= reproducers_written (trace st2)
             <= reproducers_written (trace st1) + 1 ->
             quiet env st st2 /\
             early_exit_requested st2 = early_exit_requested st /\
             reproducers_written (trace st) <= reproducers_written (trace st2)
             <= reproducers_written (trace st) + 1).
  { intros st2 (Hr2 & Hc2 & He2) Hw2. unfold quiet, crash_reports_bounded.
    rewrite Hr2, Hr1, He2, He1, Hc2, Hc1.
    split; [|split; [reflexivity | lia]].
    split; [reflexivity|]. split; [tauto|].
    unfold is_u64. intros Hmax [Hb1 Hb2].
    pose proof (written_nonneg (trace st)).
    rewrite wrap64_small by (unfold is_u64; lia). lia. }
  intros E. apply obind_returns in E. destruct E as (_ & _ & E).
  destruct (num_outputs_read batch_result <? Z.of_nat (length input_vec)).
  - apply obind_returns in E. destruct E as (input & _ & E).
    apply obind_returns in E. destruct E as ([found st2] & Htry & E).
    apply TryOneInput_written in Htry. destruct Htry as [Hs Hw].
    simpl in Hs, Hw. rewrite written_app in Hw.
    change (reproducers_written [EvLog "executing input"]) with 0 in Hw.
    simpl in E. destruct found.
    + injection E as <-. apply Hfin; [exact Hs | lia].
    + apply one_by_one_written in E. destruct E as [Hs' Hw'].
      apply Hfin; [|lia].
      unfold one_more in *. simpl in *. intuition congruence.
  - apply one_by_one_written in E. destruct E as [Hs' Hw'].
    apply Hfin; assumption.
Qed.

Section WithEnvironment.
Variable env : Environment.

Lemma ExecuteAndReportCrash_quiet (binary : string)
      (input_vec : list ByteArray) (st : Centipede) success batch_result st' :
  ExecuteAndReportCrash env binary input_vec st
  = Returns (success, batch_result, st') ->
  quiet env st st' /\
  success = fst (fst (Execute binary input_vec (ext st))) /\
  batch_result = snd (fst (Execute binary input_vec (ext st))) /\
  early_exit_requested st' = early_exit_requested st.
Proof.
  unfold ExecuteAndReportCrash.
  pose proof (CallExecute_quiet env binary input_vec st) as [Hq Hs].
  unfold CallExecute in *.
  destruct (Execute binary input_vec (ext st)) as [[s br] x]. simpl in *.
  intros E. apply obind_returns in E. destruct E as (st1 & E1 & E).
  injection E as <- <- <-. destruct s.
  - injection E1 as <-. split; [exact Hq|]. repeat split; reflexivity.
  - apply ReportCrash_quiet in E1.
    destruct E1 as (E1 & He & _).
    split; [eapply quiet_trans; eassumption|].
    split; [reflexivity|]. split; [reflexivity|]. rewrite He. reflexivity.
Qed.

Lemma run_extra_binaries_quiet (binaries : list string)
      (input_vec : list ByteArray) (acc acc' : bool * Centipede) :
  run_extra_binaries env binaries input_vec acc = Returns acc' ->
  quiet env (snd acc) (snd acc') /\
  early_exit_requested (snd acc') = early_exit_requested (snd acc) /\
  (fst acc = false -> fst acc' = false).
Proof.
  revert acc. induction binaries as [|b rest IH]; intros acc E; simpl in E.
  - injection E as <-. split; [apply quiet_refl|]. tauto.
  - apply obind_returns in E. destruct E as ([[ok br] st1] & E1 & E).
    apply ExecuteAndReportCrash_quiet in E1.
    destruct E1 as (Hq & _ & _ & He).
    apply IH in E. simpl in E. destruct E as (Hq' & He' & Hf).
    split; [eapply quiet_trans; eassumption|].
    split; [congruence|].
    intros Hacc. apply Hf. rewrite Hacc. apply andb_false_r.
Qed.

Lemma InputPassesFilter_quiet (input : ByteArray) (st : Centipede) :
  quiet env st (snd (InputPassesFilter env input st)).
Proof.
  unfold InputPassesFilter. destruct (input_filter_empty env);
    [apply quiet_refl|].
  destruct (run_input_filter input) as [interrupted ok]. simpl.
  destruct interrupted; [|apply quiet_refl]. silent (@nil Event).
Qed.

Lemma PruneCorpus_quiet (st st' : Centipede) :
  PruneCorpus env st = Returns st' -> quiet env st st'.
Proof.
  unfold PruneCorpus. intros E.
  apply obind_returns in E. destruct E as ([[removed c] rng] & _ & E).
  injection E as <-. silent (@nil Event).
Qed.

Lemma RunBatch_input_quiet (input : ByteArray) (fv : FeatureVec)
      (acc acc' : Centipede * bool) :
  RunBatch_input env input fv acc = Returns acc' ->
  quiet env (fst acc) (fst acc').
Proof.
  destruct acc as [st gained]. unfold RunBatch_input.
  destruct (FeatureSet.CountUnseenAndPruneFrequentFeatures (fs_ st) fv)
    as [unseen fv'].
  destruct (negb (unseen =? 0)%nat);
    [|intros E; injection E as <-; apply quiet_refl].
  pose proof (InputPassesFilter_quiet input st) as Hq.
  destruct (InputPassesFilter env input st) as [passes st1]. simpl in Hq.
  destruct passes; simpl negb; cbv iota;
    [|intros E; injection E as <-; exact Hq].
  intros E. apply obind_returns in E. destruct E as (_ & _ & E).
  apply obind_returns in E. destruct E as (st2 & E2 & E).
  apply obind_returns in E. destruct E as (st3 & E3 & E).
  injection E as <-. simpl.
  assert (Hq2 : quiet env st1 st2).
  { destruct (function_filter fv).
    - apply obind_returns in E2. destruct E2 as (c & _ & E2).
      injection E2 as <-. silent (@nil Event).
    - injection E2 as <-. silent (@nil Event). }
  assert (Hq3 : quiet env st2 st3).
  { match type of E3 with (if ?c then _ else _) = _ => destruct c end.
    - apply PruneCorpus_quiet. exact E3.
    - injection E3 as <-. apply quiet_refl. }
  eapply quiet_trans; [exact Hq|]. eapply quiet_trans; eassumption.
Qed.

Lemma RunBatch_inputs_quiet (input_vec : list ByteArray)
      (fvs : list FeatureVec) (acc acc' : Centipede * bool) :
  RunBatch_inputs env input_vec fvs acc = Returns acc' ->
  quiet env (fst acc) (fst acc').
Proof.
  revert fvs acc. induction input_vec as [|input rest IH];
    intros fvs acc E; simpl in E.
  - injection E as <-. apply quiet_refl.
  - destruct fvs as [|fv fvs']; [injection E as <-; apply quiet_refl|].
    apply obind_returns in E. destruct E as (acc1 & E1 & E).
    apply RunBatch_input_quiet in E1. apply IH in E.
    eapply quiet_trans; eassumption.
Qed.

(** What [RunBatch] does to the counters: either it takes the
    exit-on-crash path, or it counts the inputs of the batch. *)
Lemma RunBatch_counters (input_vec : list ByteArray) (st : Centipede)
      (gained : bool) (st' : Centipede) :
  RunBatch env input_vec st = Returns (gained, st') ->
  (early_exit_requested st = true -> early_exit_requested st' = true) /\
  (is_u64 (max_num_crash_reports env) ->
   crash_reports_bounded env st -> crash_reports_bounded env st') /\
  ((gained = false /\ early_exit_requested st' = true /\
    exit_on_crash env = true /\ num_runs_ st' = num_runs_ st)
   \/ num_runs_ st'
      = wrap64 (num_runs_ st + Z.of_nat (length input_vec))).
Proof.
  unfold RunBatch. intros E.
  apply obind_returns in E. destruct E as ([[success br] st1] & E1 & E).
  apply ExecuteAndReportCrash_quiet in E1. destruct E1 as (Hq1 & _ & _ & _).
  apply obind_returns in E. destruct E as (_ & _ & E).
  apply obind_returns in E. destruct E as ([success2 st2] & E2 & E).
  apply run_extra_binaries_quiet in E2. simpl in E2.
  destruct E2 as (Hq2 & _ & _).
  pose proof (quiet_trans _ _ _ _ Hq1 Hq2) as (Hr & He & Hb).
  destruct (negb success2 && exit_on_crash env) eqn:Hexit.
  - injection E as <- <-. simpl.
    apply andb_prop in Hexit. destruct Hexit as [_ Hexit].
    split; [reflexivity|]. split.
    + intros Hmax Hbd. apply Hb in Hbd; [|exact Hmax].
      unfold crash_reports_bounded in *.
      simpl. rewrite written_app.
      change (reproducers_written [EvLog "exiting soon"]) with 0. lia.
    + left. tauto.
  - apply obind_returns in E. destruct E as (_ & _ & E).
    apply obind_returns in E. destruct E as ([st3 g] & E3 & E).
    injection E as <- <-. apply RunBatch_inputs_quiet in E3.
    simpl in E3. destruct E3 as (Hr3 & He3 & Hb3). simpl in *.
    split; [tauto|]. split; [|right; congruence].
    intros Hmax Hbd. apply Hb3; [exact Hmax|]. apply Hb in Hbd; [|exact Hmax].
    unfold crash_reports_bounded in *. simpl. exact Hbd.
Qed.

Lemma LoadShard_records_quiet (rerun : bool)
      (records : list Corpus.CorpusRecord)
      (acc acc' : Centipede * nat * list ByteArray) :
  LoadShard_records rerun records acc = Returns acc' ->
  quiet env (fst (fst acc)) (fst (fst acc')).
Proof.
  revert acc. induction records as [|cr rest IH]; intros acc E; simpl in E.
  - injection E as <-. apply quiet_refl.
  - destruct acc as [[st added] to_rerun].
    destruct (Corpus.features cr) as [|f fs'] eqn:Hf.
    + apply IH in E. exact E.
    + destruct (FeatureSet.CountUnseenAndPruneFrequentFeatures
                  (fs_ st) (f :: fs')) as [unseen fv].
      destruct (negb (unseen =? 0)%nat).
      * apply obind_returns in E. destruct E as (c & _ & E).
        apply IH in E. simpl in E. simpl.
        eapply quiet_trans; [|exact E]. silent (@nil Event).
      * apply IH in E. exact E.
Qed.

Lemma LoadShard_no_rerun_quiet (shard_index : Z) (st st' : Centipede) :
  LoadShard_no_rerun shard_index st = Returns st' -> quiet env st st'.
Proof.
  unfold LoadShard_no_rerun.
  destruct (ReadCorpusRecords shard_index (ext st)) as [records x].
  intros E. apply obind_returns in E.
  destruct E as ([[st1 added] q] & E1 & E).
  apply LoadShard_records_quiet in E1. simpl in E1.
  injection E as <-.
  eapply quiet_trans; [silent (@nil Event)|].
  eapply quiet_trans; [exact E1|].
  destruct (added =? 0)%nat; [apply quiet_refl|].
  silent [EvLog "load-shard"].
Qed.

Lemma LoadOtherShard_quiet (batch_index : Z) (st st' : Centipede) :
  LoadOtherShard env batch_index st = Returns st' -> quiet env st st'.
Proof.
  unfold LoadOtherShard.
  destruct (load_other_shard_fires env batch_index);
    [|intros E; injection E as <-; apply quiet_refl].
  destruct (rng_next (rng_ st)) as [r rng].
  intros E. apply obind_returns in E. destruct E as (other & _ & E).
  apply LoadShard_no_rerun_quiet in E.
  eapply quiet_trans; [|exact E]. silent (@nil Event).
Qed.

(** One batch of the main loop: the [CHECK_LT] held, and [new_runs]
    grew by the size of the mutated batch, as did [num_runs_] unless an
    early exit was requested. *)
Lemma FuzzingLoop_batch_counters (batch_index : Z) (st : Centipede)
      (new_runs : Z) (st' : Centipede) (new_runs' : Z) :
  FuzzingLoop_batch env batch_index (st, new_runs) = Returns (st', new_runs') ->
  new_runs < num_runs env /\
  (early_exit_requested st = true -> early_exit_requested st' = true) /\
  (is_u64 (max_num_crash_reports env) ->
   crash_reports_bounded env st -> crash_reports_bounded env st') /\
  exists size : Z,
    new_runs' = wrap64 (new_runs + size) /\
    (early_exit_requested st' = true
     \/ num_runs_ st' = wrap64 (num_runs_ st + size)) /\
    (mutate_keeps_size -> 0 <= batch_size env ->
     size = Z.min (batch_size env) (num_runs env - new_runs)).
Proof.
  unfold FuzzingLoop_batch. intros E.
  apply obind_returns in E. destruct E as (u & Hchk & E).
  apply CHECK_returns, Z.ltb_lt in Hchk.
  apply obind_returns in E. destruct E as ([sampled st1] & E1 & E).
  apply sample_inputs_quiet in E1. destruct E1 as [Hq1 Hlen].
  assert (Hm : mutate_keeps_size ->
               length (fst (Mutate sampled (ext st1))) = length sampled)
    by (intros Hmut; apply Hmut).
  destruct (Mutate sampled (ext st1)) as [input_vec x]. simpl in Hm.
  apply obind_returns in E. destruct E as ([gained st2] & E2 & E).
  apply RunBatch_counters in E2. simpl in E2.
  destruct E2 as (He2 & Hb2 & Hr2).
  apply obind_returns in E. destruct E as (st3 & E3 & E).
  injection E as <- <-. apply LoadOtherShard_quiet in E3.
  match type of E3 with quiet _ ?s _ => set (st2' := s) in * end.
  assert (Hlog : num_runs_ st2' = num_runs_ st2 /\
                 early_exit_requested st2' = early_exit_requested st2 /\
                 (crash_reports_bounded env st2 ->
                  crash_reports_bounded env st2')).
  { subst st2'. unfold crash_reports_bounded.
    destruct gained;
      destruct (Z.land (wrap64 (batch_index - 1)) batch_index =? 0);
      simpl; rewrite ?written_app;
      repeat match goal with
             | |- context [reproducers_written [EvLog ?m]] =>
                 change (reproducers_written [EvLog m]) with 0
             end;
      repeat split; try lia. }
  destruct Hlog as (Hr2' & He2' & Hb2').
  destruct Hq1 as (Hr1 & He1 & Hb1). destruct E3 as (Hr3 & He3 & Hb3).
  split; [exact Hchk|]. split; [|split].
  - intros Hex. apply He3. rewrite He2'. apply He2. simpl. apply He1.
    exact Hex.
  - intros Hmax Hbd. apply Hb3; [exact Hmax|]. apply Hb2'.
    apply Hb2; [exact Hmax|]. apply Hb1 in Hbd; [|exact Hmax].
    unfold crash_reports_bounded in *. simpl. exact Hbd.
  - exists (Z.of_nat (length input_vec)). split; [reflexivity|]. split.
    + destruct Hr2 as [(_ & Hex & _) | Hr2].
      * left. apply He3. rewrite He2'. exact Hex.
      * right. rewrite Hr3, Hr2', Hr2. simpl. rewrite Hr1. reflexivity.
    + intros Hmut HB. rewrite (Hm Hmut), Hlen. lia.
Qed.

(** Once an early exit is requested, the main loop runs no batch. *)
Lemma FuzzingLoop_batches_stopped (n : nat) (batch_index : Z)
      (acc : Centipede * Z) :
  early_exit_requested (fst acc) = true ->
  FuzzingLoop_batches env n batch_index acc = Returns acc.
Proof. intros He. destruct n; simpl; [|rewrite He]; reflexivity. Qed.

Lemma FuzzingLoop_batches_bounded (n : nat) (batch_index : Z)
      (acc acc' : Centipede * Z) :
  is_u64 (max_num_crash_reports env) ->
  FuzzingLoop_batches env n batch_index acc = Returns acc' ->
  crash_reports_bounded env (fst acc) ->
  crash_reports_bounded env (fst acc').
Proof.
  intros Hmax. revert batch_index acc.
  induction n as [|n IH]; intros batch_index acc E Hbd; simpl in E.
  - injection E as <-. exact Hbd.
  - destruct (early_exit_requested (fst acc)); [injection E as <-; exact Hbd|].
    apply obind_returns in E. destruct E as ([st1 r1] & E1 & E).
    destruct acc as [st r].
    apply FuzzingLoop_batch_counters in E1.
    destruct E1 as (_ & _ & Hb & _).
    apply IH in E; [exact E|]. simpl. apply Hb; assumption.
Qed.

(** X10: over the main loop of [FuzzingLoop], every reproducer written
    is counted in [num_crash_reports_], and the counter does not exceed
    [max_num_crash_reports]: at most that many reproducers are written. *)
Theorem crash_reports_stay_bounded (st st' : Centipede) :
  is_u64 (max_num_crash_reports env) ->
  crash_reports_bounded env st ->
  FuzzingLoop_after_load env st = Returns st' ->
  crash_reports_bounded env st' /\
  reproducers_written (trace st') <= max_num_crash_reports env.
Proof.
  intros Hmax Hbd E.
  assert (Hb' : crash_reports_bounded env st');
    [|split; [exact Hb' | unfold crash_reports_bounded in Hb'; lia]].
  unfold FuzzingLoop_after_load in E.
  apply obind_returns in E. destruct E as (st1 & E1 & E).
  apply obind_returns in E. destruct E as (n & _ & E).
  apply obind_returns in E. destruct E as ([st2 r2] & E2 & E).
  injection E as <-.
  assert (Hbd1 : crash_reports_bounded env (start_of_main_loop st1)).
  { unfold add_dummy_if_empty in E1.
    destruct (Corpus.NumTotal (corpus_ st) =? 0)%nat.
    - apply obind_returns in E1. destruct E1 as (c & _ & E1).
      injection E1 as <-. unfold crash_reports_bounded in *. simpl.
      rewrite written_app. change (reproducers_written [EvLog "init-done:"])
        with 0. lia.
    - injection E1 as <-. unfold crash_reports_bounded in *. simpl.
      rewrite written_app. change (reproducers_written [EvLog "init-done:"])
        with 0. lia. }
  apply FuzzingLoop_batches_bounded in E2; [|exact Hmax | exact Hbd1].
  unfold crash_reports_bounded in *. simpl in *. rewrite written_app.
  change (reproducers_written [EvLog "end-fuzz"]) with 0. lia.
Qed.

Lemma FuzzingLoop_batches_S (n : nat) (batch_index : Z)
      (acc : Centipede * Z) :
  FuzzingLoop_batches env (S n) batch_index acc
  = if early_exit_requested (fst acc) then Returns acc
    else acc <~ FuzzingLoop_batch env batch_index acc ;;
         FuzzingLoop_batches env n (wrap64 (batch_index + 1)) acc.
Proof. reflexivity. Qed.

Lemma batch_new_runs_S (n : nat) (batch_index : Z) (acc : Centipede * Z) :
  batch_new_runs env (S n) batch_index acc
  = if early_exit_requested (fst acc) then []
    else snd acc
         :: match FuzzingLoop_batch env batch_index acc with
            | Returns acc =>
                batch_new_runs env n (wrap64 (batch_index + 1)) acc
            | _ => []
            end.
Proof. reflexivity. Qed.

(** The counters of the main loop after [j] full batches. *)
Lemma FuzzingLoop_batches_counters (k : nat) (j n batch_index : Z)
      (st : Centipede) (r : Z) :
  mutate_keeps_size -> is_u64 (num_runs env) -> 0 < batch_size env ->
  (n - 1) * batch_size env < num_runs env ->
  0 <= j -> j + Z.of_nat k <= n ->
  r = Z.min (j * batch_size env) (num_runs env) ->
  Forall (fun new_runs => new_runs < num_runs env)
         (batch_new_runs env k batch_index (st, r)) /\
  forall st' r',
    FuzzingLoop_batches env k batch_index (st, r) = Returns (st', r') ->
    early_exit_requested st' = false ->
    r' = Z.min ((j + Z.of_nat k) * batch_size env) (num_runs env) /\
    (is_u64 (num_runs_ st) ->
     num_runs_ st' = wrap64 (num_runs_ st + (r' - r))).
Proof.
  intros Hmut HN HB Hn. revert j batch_index st r.
  induction k as [|k IH]; intros j batch_index st r Hj Hjk Hr.
  - split; [constructor|]. intros st' r' E He. simpl in E.
    injection E as <- <-. split; [rewrite Hr; f_equal; lia|].
    intros Hu. rewrite Z.sub_diag, Z.add_0_r. symmetry.
    apply wrap64_small. exact Hu.
  - assert (Hjn : j * batch_size env < num_runs env) by nia.
    assert (Hrj : r = j * batch_size env) by lia.
    assert (Hstep : forall st1 r1,
               FuzzingLoop_batch env batch_index (st, r) = Returns (st1, r1) ->
               r1 = Z.min ((j + 1) * batch_size env) (num_runs env) /\
               (early_exit_requested st1 = true
                \/ num_runs_ st1 = wrap64 (num_runs_ st + (r1 - r)))).
    { intros st1 r1 E1. apply FuzzingLoop_batch_counters in E1.
      destruct E1 as (_ & _ & _ & size & Hr1 & Hruns & Hsize).
      specialize (Hsize Hmut ltac:(lia)). unfold is_u64 in HN.
      rewrite wrap64_small in Hr1 by (unfold is_u64; nia).
      split; [nia|]. replace (r1 - r) with size by lia. exact Hruns. }
    split.
    + rewrite batch_new_runs_S. unfold fst, snd.
      destruct (early_exit_requested st); [constructor|].
      constructor; [lia|].
      destruct (FuzzingLoop_batch env batch_index (st, r))
        as [[st1 r1]| |] eqn:E1; [|constructor..].
      destruct (Hstep st1 r1 eq_refl) as [Hr1 _].
      apply (IH (j + 1)); [lia | lia | exact Hr1].
    + intros st' r' E He. rewrite FuzzingLoop_batches_S in E.
      unfold fst in E.
      destruct (early_exit_requested st) eqn:Hex.
      { injection E as <- <-. congruence. }
      apply obind_returns in E. destruct E as ([st1 r1] & E1 & E).
      destruct (Hstep st1 r1 E1) as [Hr1 Hruns].
      destruct Hruns as [Hex1|Hruns].
      { rewrite FuzzingLoop_batches_stopped in E by exact Hex1.
        injection E as <- <-. congruence. }
      destruct (IH (j + 1) (wrap64 (batch_index + 1)) st1 r1
                   ltac:(lia) ltac:(lia) Hr1) as [_ IH'].
      destruct (IH' st' r' E He) as [Hr' Hruns'].
      split; [rewrite Hr'; f_equal; lia|].
      intros Hu. rewrite Hruns' by (rewrite Hruns; apply wrap64_range).
      rewrite Hruns. unfold wrap64. rewrite Zplus_mod_idemp_l.
      f_equal. lia.
Qed.

Lemma number_of_batches_no_wrap :
  is_u64 (num_runs env) -> 0 < batch_size env ->
  num_runs env + batch_size env - 1 < 2 ^ 64 ->
  exists n,
    number_of_batches env = Returns n /\
    (n - 1) * batch_size env < num_runs env <= n * batch_size env.
Proof.
  unfold is_u64, number_of_batches.
  set (N := num_runs env). set (B := batch_size env). intros HN Hpos Hsmall.
  destruct (Z.eqb_spec B 0); [lia|].
  eexists. split; [reflexivity|].
  unfold wrap64. rewrite Zminus_mod_idemp_l.
  rewrite (Z.mod_small (N + B - 1)) by lia.
  pose proof (Z.div_mod (N + B - 1) B ltac:(lia)) as Hdm.
  pose proof (Z.mod_pos_bound (N + B - 1) B Hpos) as Hm. nia.
Qed.

(** X11: with a mutator that keeps the size of a batch,
    [CHECK_LT(new_runs, env_.num_runs)] holds at the start of every batch
    of the main loop, and when the loop ends without a request for an
    early exit, both [new_runs] and [num_runs_] equal [env_.num_runs]. *)
Theorem main_loop_counts_runs (st : Centipede) :
  mutate_keeps_size ->
  is_u64 (num_runs env) -> 0 < batch_size env ->
  num_runs env + batch_size env - 1 < 2 ^ 64 ->
  exists n,
    number_of_batches env = Returns n /\
    Forall (fun new_runs => new_runs < num_runs env)
           (batch_new_runs env (Z.to_nat n) 0 (start_of_main_loop st, 0)) /\
    forall st' new_runs,
      FuzzingLoop_batches env (Z.to_nat n) 0 (start_of_main_loop st, 0)
      = Returns (st', new_runs) ->
      early_exit_requested st' = false ->
      new_runs = num_runs env /\ num_runs_ st' = num_runs env.
Proof.
  intros Hmut HN HB Hsmall.
  destruct (number_of_batches_no_wrap HN HB Hsmall) as (n & En & Hn).
  exists n. split; [exact En|].
  assert (Hn0 : 0 <= n) by (unfold is_u64 in HN; nia).
  destruct (FuzzingLoop_batches_counters (Z.to_nat n) 0 n 0
              (start_of_main_loop st) 0 Hmut HN HB ltac:(lia) ltac:(lia)
              ltac:(lia))
    as [Hall Hend].
  { unfold is_u64 in HN. lia. }
  split; [exact Hall|]. intros st' new_runs E He.
  destruct (Hend st' new_runs E He) as [Hr Hruns].
  assert (Hr' : new_runs = num_runs env).
  { rewrite Hr. rewrite Z2Nat.id by lia. lia. }
  split; [exact Hr'|].
  change (num_runs_ (start_of_main_loop st)) with 0 in Hruns.
  rewrite Hruns by (unfold is_u64; lia).
  rewrite Hr'.
  replace (0 + (num_runs env - 0)) with (num_runs env) by lia.
  apply wrap64_small. exact HN.
Qed.

(** X12: when the execution of a batch fails and [exit_on_crash] is
    set, [RunBatch] returns false and requests an early exit, and leaves
    the feature set, the corpus and [num_runs_] as they were. *)
Theorem RunBatch_exit_on_crash (input_vec : list ByteArray) (st : Centipede)
        (gained : bool) (st' : Centipede) :
  exit_on_crash env = true ->
  fst (fst (Execute (binary env) input_vec (ext st))) = false ->
  RunBatch env input_vec st = Returns (gained, st') ->
  gained = false /\ early_exit_requested st' = true /\
  same_corpus st st' /\ num_runs_ st' = num_runs_ st.
Proof.
  intros Hexit Hfail E. unfold RunBatch in E.
  apply obind_returns in E. destruct E as ([[success br] st1] & E1 & E).
  pose proof (LoopFacts.ExecuteAndReportCrash_returns _ _ _ _ _ _ _ E1)
    as [Hs1 _].
  apply ExecuteAndReportCrash_quiet in E1.
  destruct E1 as ((Hr1 & _) & Hsucc & _ & _).
  apply obind_returns in E. destruct E as (_ & _ & E).
  apply obind_returns in E. destruct E as ([success2 st2] & E2 & E).
  pose proof (LoopFacts.run_extra_binaries_returns _ _ _ _ _ E2) as Hs2.
  apply run_extra_binaries_quiet in E2. simpl in E2, Hs2.
  destruct E2 as ((Hr2 & _) & _ & Hf).
  rewrite Hf in E by congruence. rewrite Hexit in E. simpl in E.
  injection E as <- <-. split; [reflexivity|]. split; [reflexivity|].
  split.
  - unfold same_corpus in *. simpl. intuition congruence.
  - simpl. congruence.
Qed.

End WithEnvironment.
End WithCollaborators.

Lemma observed_Some {A B} (f : A -> B) (o : outcome A) (b : B) :
  observed f o = Some b -> exists a, o = Returns a /\ f a = b.
Proof.
  destruct o as [a| |u]; simpl; intros E; [|discriminate..].
  injection E as <-. exists a. split; reflexivity.
Qed.

Lemma crash_reports_stay_bounded_witness :
  exists st',
    @FuzzingLoop_after_load crashing_collaborators counting_rng
      FeatureSet.test_scoring crashing_env crashing_start = Returns st' /\
    num_runs_ st' = 3 /\
    reproducers_written (trace st') <= 1.
Proof.
  destruct (observed_Some num_runs_
              (@FuzzingLoop_after_load crashing_collaborators counting_rng
                 FeatureSet.test_scoring crashing_env crashing_start) 3)
    as (st' & E & Hruns); [vm_compute; reflexivity|].
  exists st'. split; [exact E|]. split; [exact Hruns|].
  apply (@crash_reports_stay_bounded crashing_collaborators counting_rng
           FeatureSet.test_scoring crashing_env crashing_start st').
  - unfold is_u64. simpl. lia.
  - unfold crash_reports_bounded. simpl. vm_compute. split; discriminate.
  - exact E.
Defined.

Lemma main_loop_counts_runs_witness :
  exists st',
    @FuzzingLoop_batches crashing_collaborators counting_rng
      FeatureSet.test_scoring crashing_env 3 0
      (start_of_main_loop crashing_ready, 0) = Returns (st', 3) /\
    num_runs_ st' = 3.
Proof.
  destruct (@main_loop_counts_runs crashing_collaborators counting_rng
              FeatureSet.test_scoring crashing_env crashing_ready)
    as (n & En & _ & Hend).
  - intros v x. reflexivity.
  - unfold is_u64. simpl. lia.
  - simpl. lia.
  - simpl. lia.
  - injection En as <-.
    destruct (observed_Some
                (fun r : Centipede * Z => (early_exit_requested (fst r), snd r))
                (@FuzzingLoop_batches crashing_collaborators counting_rng
                   FeatureSet.test_scoring crashing_env 3 0
                   (start_of_main_loop crashing_ready, 0)) (false, 3))
      as ([st' r] & E & Hobs); [vm_compute; reflexivity|].
    simpl in Hobs. injection Hobs as He ->.
    exists st'. split; [exact E|].
    exact (proj2 (Hend st' 3 E He)).
Defined.

Lemma RunBatch_exit_on_crash_witness :
  exists st',
    @RunBatch crashing_collaborators counting_rng FeatureSet.test_scoring
      exit_env [[Byte.x01]] crashing_start = Returns (false, st') /\
    early_exit_requested st' = true /\ num_runs_ st' = 0.
Proof.
  destruct (observed_Some fst
              (@RunBatch crashing_collaborators counting_rng
                 FeatureSet.test_scoring exit_env [[Byte.x01]]
                 crashing_start) false)
    as ([g st'] & E & Hg); [vm_compute; reflexivity|].
  simpl in Hg. subst g. exists st'. split; [exact E|].
  destruct (@RunBatch_exit_on_crash crashing_collaborators counting_rng
              FeatureSet.test_scoring exit_env [[Byte.x01]] crashing_start
              false st' eq_refl eq_refl E) as (_ & He & _ & Hr).
  split; [exact He | exact Hr].
Defined.

End CounterFacts.

(** ** Loading and merging shards *)
Module LoadShardFacts.
Import Loop CrashFacts CounterFacts.

Lemma executed_batches_app (l1 l2 : list Event) :
  executed_batches (l1 ++ l2) = executed_batches l1 ++ executed_batches l2.
Proof. unfold executed_batches. apply flat_map_app. Qed.

Section WithCollaborators.
Context `{Collaborators} `{RandomSource} `{FeatureSet.Scoring}.

Lemma corpus_grows_refl (st : Centipede) : corpus_grows st st.
Proof. exists []. rewrite app_nil_r. reflexivity. Qed.

Lemma corpus_grows_trans (a b c : Centipede) :
  corpus_grows a b -> corpus_grows b c -> corpus_grows a c.
Proof.
  intros [n1 E1] [n2 E2]. exists (n1 ++ n2).
  rewrite E2, E1, app_assoc. reflexivity.
Qed.

Lemma same_corpus_grows (st st' : Centipede) :
  same_corpus st st' -> corpus_grows st st'.
Proof.
  intros (_ & E & _). exists []. rewrite E, app_nil_r. reflexivity.
Qed.

(** X13: the loop of [LoadShard] over the records of a shard only
    appends to the corpus: [added_to_corpus], [NumActive] and [NumTotal]
    grow by the number of records appended, whose inputs are, in order,
    inputs of records with features; the inputs of the records without
    features are queued for the rerun, in order, when [rerun] is set, and
    nothing is queued otherwise. *)
Theorem LoadShard_records_accounting (rerun : bool)
        (records : list Corpus.CorpusRecord) (st : Centipede) (added : nat)
        (to_rerun : list ByteArray) (st' : Centipede) (added' : nat)
        (to_rerun' : list ByteArray) :
  LoadShard_records rerun records (st, added, to_rerun)
  = Returns (st', added', to_rerun') ->
  to_rerun'
  = to_rerun
    ++ (if rerun
        then map Corpus.data (List.filter without_features records)
        else []) /\
  exists new,
    Corpus.records_ (corpus_ st') = Corpus.records_ (corpus_ st) ++ new /\
    added' = (added + length new)%nat /\
    Corpus.NumTotal (corpus_ st')
    = (Corpus.NumTotal (corpus_ st) + length new)%nat /\
    sublist (map Corpus.data new)
            (map Corpus.data
                 (List.filter (fun cr => negb (without_features cr))
                              records)).
Proof.
  revert st added to_rerun.
  induction records as [|cr rest IH]; intros st added to_rerun E;
    simpl in E.
  - injection E as <- <- <-. split.
    + destruct rerun; simpl; rewrite app_nil_r; reflexivity.
    + exists []. rewrite app_nil_r. simpl.
      split; [reflexivity|]. split; [lia|]. split; [lia|]. constructor.
  - unfold without_features at 1 2. simpl List.filter.
    destruct (Corpus.features cr) as [|f fs'] eqn:Hf.
    + apply IH in E. destruct E as (Hq & new & Hrec & Hadd & Htot & Hsub).
      split.
      * rewrite Hq. destruct rerun; simpl; [|reflexivity].
        rewrite <- app_assoc. reflexivity.
      * exists new. simpl. repeat split; assumption.
    + simpl negb. cbv iota.
      destruct (FeatureSet.CountUnseenAndPruneFrequentFeatures
                  (fs_ st) (f :: fs')) as [unseen fv].
      destruct (negb (unseen =? 0)%nat).
      * apply obind_returns in E. destruct E as (c & Hadd & E).
        apply LoopFacts.Add_returns in Hadd. destruct Hadd as [Hrec1 Htot1].
        apply IH in E. simpl in E.
        destruct E as (Hq & new & Hrec & Hadd & Htot & Hsub).
        split; [exact Hq|].
        eexists (_ :: new). rewrite Hrec, Hrec1, <- app_assoc. simpl.
        split; [reflexivity|]. split; [lia|]. split; [lia|].
        simpl in Hrec1. apply sublist_skip. exact Hsub.
      * apply IH in E. destruct E as (Hq & new & Hrec & Hadd & Htot & Hsub).
        split; [exact Hq|]. exists new. repeat split; try assumption.
        simpl. apply sublist_cons. exact Hsub.
Qed.


(** *** What a batch does to the trace and to the corpus *)

Lemma RunBatch_input_steady (env : Environment) (input : ByteArray)
      (fv : FeatureVec) (acc acc' : Centipede * bool) :
  RunBatch_input env input fv acc = Returns acc' ->
  trace (fst acc') = trace (fst acc) /\
  (prune_frequency env = 0 -> corpus_grows (fst acc) (fst acc')).
Proof.
  destruct acc as [st gained]. unfold RunBatch_input.
  destruct (FeatureSet.CountUnseenAndPruneFrequentFeatures (fs_ st) fv)
    as [unseen fv'].
  destruct (negb (unseen =? 0)%nat);
    [|intros E; injection E as <-; split;
      [reflexivity | intros _; apply corpus_grows_refl]].
  assert (Hf : trace (snd (InputPassesFilter env input st)) = trace st /\
               corpus_ (snd (InputPassesFilter env input st)) = corpus_ st).
  { unfold InputPassesFilter. destruct (input_filter_empty env);
      [split; reflexivity|].
    destruct (run_input_filter input) as [interrupted ok].
    destruct interrupted; split; reflexivity. }
  destruct (InputPassesFilter env input st) as [passes st1].
  simpl in Hf. destruct Hf as [Ht1 Hc1].
  destruct passes; simpl negb; cbv iota.
  2:{ intros E. injection E as <-. simpl. split; [exact Ht1|].
      intros _. exists []. rewrite Hc1, app_nil_r. reflexivity. }
  intros E. apply obind_returns in E. destruct E as (_ & _ & E).
  apply obind_returns in E. destruct E as (st2 & E2 & E).
  apply obind_returns in E. destruct E as (st3 & E3 & E).
  injection E as <-. simpl.
  assert (H2' : trace st2 = trace st1 /\
                exists new, Corpus.records_ (corpus_ st2)
                            = Corpus.records_ (corpus_ st1) ++ new).
  { destruct (function_filter fv).
    - apply obind_returns in E2. destruct E2 as (c & Hadd & E2).
      injection E2 as <-. simpl. split; [reflexivity|].
      apply LoopFacts.Add_returns in Hadd. destruct Hadd as [Hrec _].
      simpl in Hrec. eexists. exact Hrec.
    - injection E2 as <-. simpl. split; [reflexivity|].
      exists []. rewrite app_nil_r. reflexivity. }
  destruct H2' as [Ht2 [new Hrec2]].
  destruct (Z.eqb_spec (prune_frequency env) 0) as [Hp|Hp].
  - simpl in E3. injection E3 as <-. split; [congruence|].
    intros _. exists new. rewrite Hrec2, Hc1. reflexivity.
  - split; [|intros Hp'; contradiction].
    simpl negb in E3. rewrite andb_true_l in E3.
    match type of E3 with (if ?c then _ else _) = _ => destruct c end.
    + unfold PruneCorpus in E3. apply obind_returns in E3.
      destruct E3 as ([[removed c] rng] & _ & E3). injection E3 as <-.
      simpl. congruence.
    + injection E3 as <-. congruence.
Qed.

Lemma RunBatch_inputs_steady (env : Environment)
      (input_vec : list ByteArray) (fvs : list FeatureVec)
      (acc acc' : Centipede * bool) :
  RunBatch_inputs env input_vec fvs acc = Returns acc' ->
  trace (fst acc') = trace (fst acc) /\
  (prune_frequency env = 0 -> corpus_grows (fst acc) (fst acc')).
Proof.
  revert fvs acc. induction input_vec as [|input rest IH];
    intros fvs acc E; simpl in E.
  - injection E as <-. split; [reflexivity|].
    intros _. apply corpus_grows_refl.
  - destruct fvs as [|fv fvs'].
    { injection E as <-. split; [reflexivity|].
      intros _. apply corpus_grows_refl. }
    apply obind_returns in E. destruct E as (acc1 & E1 & E).
    apply RunBatch_input_steady in E1. apply IH in E.
    destruct E1 as [Ht1 Hg1]. destruct E as [Ht Hg].
    split; [congruence|]. intros Hp.
    eapply corpus_grows_trans; [apply Hg1 | apply Hg]; exact Hp.
Qed.

Lemma RunBatch_grows (env : Environment) (input_vec : list ByteArray)
      (st : Centipede) (gained : bool) (st' : Centipede) :
  prune_frequency env = 0 ->
  RunBatch env input_vec st = Returns (gained, st') -> corpus_grows st st'.
Proof.
  intros Hp E. unfold RunBatch in E.
  apply obind_returns in E. destruct E as ([[success br] st1] & E1 & E).
  apply LoopFacts.ExecuteAndReportCrash_returns in E1.
  destruct E1 as [Hs1 _].
  apply obind_returns in E. destruct E as (_ & _ & E).
  apply obind_returns in E. destruct E as ([success2 st2] & E2 & E).
  apply LoopFacts.run_extra_binaries_returns in E2. simpl in E2.
  pose proof (same_corpus_trans _ _ _ Hs1 E2) as Hs.
  destruct (negb success2 && exit_on_crash env).
  - injection E as <- <-. apply same_corpus_grows.
    unfold same_corpus in *. simpl. exact Hs.
  - apply obind_returns in E. destruct E as (_ & _ & E).
    apply obind_returns in E. destruct E as ([st3 g] & E3 & E).
    injection E as <- <-. apply RunBatch_inputs_steady in E3.
    destruct E3 as [_ Hg]. specialize (Hg Hp). simpl in Hg.
    eapply corpus_grows_trans; [apply same_corpus_grows; exact Hs|].
    destruct Hg as [new Hrec]. exists new. exact Hrec.
Qed.

Lemma ExecuteAndReportCrash_succeeds (env : Environment) (binary : string)
      (input_vec : list ByteArray) (st : Centipede) success batch_result st' :
  all_succeed ->
  ExecuteAndReportCrash env binary input_vec st
  = Returns (success, batch_result, st') ->
  success = true /\
  trace st' = trace st ++ [EvExecute binary input_vec true].
Proof.
  intros Hall. unfold ExecuteAndReportCrash, CallExecute.
  pose proof (Hall binary input_vec (ext st)) as Hok.
  destruct (Execute binary input_vec (ext st)) as [[ok br] x].
  simpl in Hok. subst ok. simpl. intros E. injection E as <- <- <-.
  split; reflexivity.
Qed.

Lemma run_extra_binaries_succeeds (env : Environment)
      (binaries : list string) (input_vec : list ByteArray)
      (acc acc' : bool * Centipede) :
  all_succeed ->
  run_extra_binaries env binaries input_vec acc = Returns acc' ->
  fst acc' = fst acc /\
  exists evs,
    trace (snd acc') = trace (snd acc) ++ evs /\
    executed_batches evs = replicate (length binaries) input_vec.
Proof.
  intros Hall. revert acc.
  induction binaries as [|b rest IH]; intros acc E; simpl in E.
  - injection E as <-. split; [reflexivity|]. exists [].
    rewrite app_nil_r. split; reflexivity.
  - apply obind_returns in E. destruct E as ([[ok br] st1] & E1 & E).
    apply ExecuteAndReportCrash_succeeds in E1; [|exact Hall].
    destruct E1 as [-> Ht1]. apply IH in E. simpl in E.
    destruct E as (Hf & evs & Ht & Hex). split; [exact Hf|].
    exists (EvExecute b input_vec true :: evs).
    rewrite Ht, Ht1, <- app_assoc. split; [reflexivity|].
    simpl. rewrite <- Hex. reflexivity.
Qed.

Lemma RunBatch_executes (env : Environment) (input_vec : list ByteArray)
      (st : Centipede) (gained : bool) (st' : Centipede) :
  all_succeed ->
  RunBatch env input_vec st = Returns (gained, st') ->
  exists evs,
    trace st' = trace st ++ evs /\
    executed_batches evs
    = replicate (S (length (extra_binaries env))) input_vec.
Proof.
  intros Hall E. unfold RunBatch in E.
  apply obind_returns in E. destruct E as ([[success br] st1] & E1 & E).
  apply ExecuteAndReportCrash_succeeds in E1; [|exact Hall].
  destruct E1 as [-> Ht1].
  apply obind_returns in E. destruct E as (_ & _ & E).
  apply obind_returns in E. destruct E as ([success2 st2] & E2 & E).
  apply run_extra_binaries_succeeds in E2; [|exact Hall]. simpl in E2.
  destruct E2 as (-> & evs & Ht2 & Hex). simpl in E.
  apply obind_returns in E. destruct E as (_ & _ & E).
  apply obind_returns in E. destruct E as ([st3 g] & E3 & E).
  injection E as <- <-. apply RunBatch_inputs_steady in E3.
  destruct E3 as [Ht3 _]. simpl in Ht3.
  exists (EvExecute (binary env) input_vec true :: evs).
  rewrite Ht3, Ht2, Ht1, <- app_assoc. split; [reflexivity|].
  simpl. rewrite Hex. reflexivity.
Qed.

(** *** The rerun loop *)

Lemma rerun_loop_cons (env : Environment) (fuel : nat) (input : ByteArray)
      (rest : list ByteArray) (st : Centipede) :
  rerun_loop env (S fuel) (input :: rest) st
  = let to_rerun := input :: rest in
    let kept := (length to_rerun
                 - Z.to_nat (Z.min (Z.of_nat (length to_rerun))
                                   (batch_size env)))%nat in
    match RunBatch env (drop kept to_rerun) st with
    | Returns (gained, st) =>
        rerun_loop env fuel (take kept to_rerun)
                   (if gained then emit (EvLog "rerun-old") st else st)
    | Fatal => Some Fatal
    | Undefined u => Some (Undefined u)
    end.
Proof. reflexivity. Qed.

Lemma rerun_loop_terminates (env : Environment) (fuel : nat)
      (to_rerun : list ByteArray) (st : Centipede) :
  1 <= batch_size env -> (length to_rerun <= fuel)%nat ->
  exists o, rerun_loop env fuel to_rerun st = Some o.
Proof.
  intros HB. revert to_rerun st.
  induction fuel as [|fuel IH]; intros to_rerun st Hlen.
  - destruct to_rerun; [|simpl in Hlen; lia]. eexists. reflexivity.
  - destruct to_rerun as [|input rest]; [eexists; reflexivity|].
    rewrite rerun_loop_cons. cbv zeta.
    set (q := input :: rest) in *.
    set (kept := (length q - Z.to_nat (Z.min (Z.of_nat (length q))
                                             (batch_size env)))%nat).
    destruct (RunBatch env (drop kept q) st) as [[gained st1]| |u];
      [|eexists; reflexivity..].
    apply IH. rewrite length_take. subst kept q. simpl length in *. lia.
Qed.

Lemma rerun_loop_executes (env : Environment) (fuel : nat)
      (to_rerun : list ByteArray) (st st' : Centipede) :
  all_succeed -> 1 <= batch_size env ->
  rerun_loop env fuel to_rerun st = Some (Returns st') ->
  exists evs batches,
    trace st' = trace st ++ evs /\
    executed_batches evs
    = concat (map (replicate (S (length (extra_binaries env)))) batches) /\
    concat (rev batches) = to_rerun /\
    Forall (fun batch => (1 <= length batch)%nat /\
                         Z.of_nat (length batch) <= batch_size env) batches.
Proof.
  intros Hall HB. revert to_rerun st.
  induction fuel as [|fuel IH]; intros to_rerun st E.
  - destruct to_rerun; [|discriminate]. injection E as <-.
    exists [], []. rewrite app_nil_r. repeat split. constructor.
  - destruct to_rerun as [|input rest].
    { injection E as <-. exists [], []. rewrite app_nil_r.
      repeat split. constructor. }
    rewrite rerun_loop_cons in E. cbv zeta in E.
    set (q := input :: rest) in *.
    set (kept := (length q - Z.to_nat (Z.min (Z.of_nat (length q))
                                             (batch_size env)))%nat) in *.
    destruct (RunBatch env (drop kept q) st) as [[gained st1]| |u] eqn:ER;
      [|discriminate..].
    apply RunBatch_executes in ER; [|exact Hall].
    destruct ER as (evs1 & Ht1 & Hex1).
    apply IH in E. destruct E as (evs2 & batches & Ht2 & Hex2 & Hcat & Hsz).
    exists (evs1 ++ (if gained then [EvLog "rerun-old"] else []) ++ evs2),
           (drop kept q :: batches).
    split; [|split; [|split]].
    + rewrite Ht2. destruct gained; simpl; rewrite Ht1, <- ?app_assoc;
        reflexivity.
    + rewrite !executed_batches_app, Hex1, Hex2.
      destruct gained; reflexivity.
    + simpl. rewrite concat_app, Hcat. simpl. rewrite app_nil_r.
      apply take_drop.
    + constructor; [|exact Hsz]. rewrite length_drop.
      subst kept q. simpl length. lia.
Qed.

Lemma rerun_loop_grows (env : Environment) (fuel : nat)
      (to_rerun : list ByteArray) (st st' : Centipede) :
  prune_frequency env = 0 ->
  rerun_loop env fuel to_rerun st = Some (Returns st') ->
  corpus_grows st st'.
Proof.
  intros Hp. revert to_rerun st.
  induction fuel as [|fuel IH]; intros to_rerun st E.
  - destruct to_rerun; [|discriminate]. injection E as <-.
    apply corpus_grows_refl.
  - destruct to_rerun as [|input rest].
    { injection E as <-. apply corpus_grows_refl. }
    rewrite rerun_loop_cons in E. cbv zeta in E.
    destruct (RunBatch env _ st) as [[gained st1]| |u] eqn:ER;
      [|discriminate..].
    apply RunBatch_grows in ER; [|exact Hp]. apply IH in E.
    eapply corpus_grows_trans; [exact ER|].
    destruct gained; exact E.
Qed.

(** X14: with [env_.batch_size >= 1] the rerun loop of [LoadShard]
    ends within one iteration per input; when no execution fails, each
    binary is run once on each batch, the batches have between 1 and
    [batch_size] inputs, and, taken from the last to the first, they make
    up the inputs to rerun. *)
Theorem rerun_loop_reruns_each_once (env : Environment)
        (to_rerun : list ByteArray) (st : Centipede) :
  1 <= batch_size env ->
  exists o,
    rerun_loop env (length to_rerun) to_rerun st = Some o /\
    (all_succeed ->
     forall st', o = Returns st' ->
       exists evs batches,
         trace st' = trace st ++ evs /\
         executed_batches evs
         = concat (map (replicate (S (length (extra_binaries env))))
                       batches) /\
         concat (rev batches) = to_rerun /\
         Forall (fun batch => (1 <= length batch)%nat /\
                              Z.of_nat (length batch) <= batch_size env)
                batches).
Proof.
  intros HB.
  destruct (rerun_loop_terminates env (length to_rerun) to_rerun st HB
                                  ltac:(lia)) as [o Eo].
  exists o. split; [exact Eo|]. intros Hall st' ->.
  eapply rerun_loop_executes; eassumption.
Qed.

(** X15: with [env_.batch_size = 0] the rerun loop of [LoadShard]
    never ends by returning when there is an input to rerun: every
    iteration runs an empty batch and leaves [to_rerun] as it is. *)
Theorem rerun_loop_needs_batch_size (env : Environment) (fuel : nat)
        (to_rerun : list ByteArray) (st : Centipede) :
  batch_size env = 0 -> to_rerun <> [] ->
  finished (rerun_loop env fuel to_rerun st) = false.
Proof.
  intros HB Hne. revert st.
  induction fuel as [|fuel IH]; intros st.
  - destruct to_rerun; [congruence | reflexivity].
  - destruct to_rerun as [|input rest]; [congruence|].
    rewrite rerun_loop_cons. cbv zeta. rewrite HB.
    rewrite Z.min_r by lia. change (Z.to_nat 0) with 0%nat.
    rewrite Nat.sub_0_r, take_ge by lia.
    destruct (RunBatch env _ st) as [[gained st1]| |u];
      [apply IH | reflexivity..].
Qed.

(** *** [LoadShard] and [MergeFromOtherCorpus] *)

Lemma LoadShard_records_grows (rerun : bool)
      (records : list Corpus.CorpusRecord)
      (acc acc' : Centipede * nat * list ByteArray) :
  LoadShard_records rerun records acc = Returns acc' ->
  corpus_grows (fst (fst acc)) (fst (fst acc')) /\
  (rerun = false -> snd acc' = snd acc).
Proof.
  revert acc. induction records as [|cr rest IH]; intros acc E; simpl in E.
  - injection E as <-. split; [apply corpus_grows_refl | reflexivity].
  - destruct acc as [[st added] to_rerun].
    destruct (Corpus.features cr) as [|f fs'] eqn:Hf.
    + apply IH in E. simpl in *. destruct E as [Hg Hq].
      split; [exact Hg|]. intros ->. apply Hq. reflexivity.
    + destruct (FeatureSet.CountUnseenAndPruneFrequentFeatures
                  (fs_ st) (f :: fs')) as [unseen fv].
      destruct (negb (unseen =? 0)%nat).
      * apply obind_returns in E. destruct E as (c & Hadd & E).
        apply LoopFacts.Add_returns in Hadd. destruct Hadd as [Hrec _].
        apply IH in E. simpl in *. destruct E as [Hg Hq].
        split; [|exact Hq].
        eapply corpus_grows_trans; [|exact Hg].
        eexists. simpl. exact Hrec.
      * apply IH in E. exact E.
Qed.

(** The call of the main loop, [LoadShard(env_, shard, /*rerun=*/false)],
    is [LoadShard_no_rerun]. *)
Lemma LoadShard_without_rerun (env : Environment) (shard_index : Z)
      (st : Centipede) :
  LoadShard env ReadCorpusRecords shard_index false st
  = Some (LoadShard_no_rerun shard_index st).
Proof.
  unfold LoadShard, LoadShard_no_rerun.
  destruct (ReadCorpusRecords shard_index (ext st)) as [records x].
  destruct (LoadShard_records false records (set_ext x st, 0%nat, []))
    as [[[st1 added] q]| |u] eqn:E; [|reflexivity..].
  apply LoadShard_records_grows in E. destruct E as [_ Hq].
  simpl in Hq. rewrite Hq by reflexivity. reflexivity.
Qed.

Lemma LoadShard_grows (env : Environment)
      (read : Z -> ExternalState -> list Corpus.CorpusRecord * ExternalState)
      (shard_index : Z) (rerun : bool) (st st' : Centipede) :
  prune_frequency env = 0 \/ rerun = false ->
  LoadShard env read shard_index rerun st = Some (Returns st') ->
  corpus_grows st st'.
Proof.
  intros Hp. unfold LoadShard.
  destruct (read shard_index (ext st)) as [records x].
  destruct (LoadShard_records rerun records (set_ext x st, 0%nat, []))
    as [[[st1 added] q]| |u] eqn:E; [|discriminate..].
  apply LoadShard_records_grows in E. destruct E as [Hg Hq].
  simpl in Hg, Hq.
  assert (Hg' : corpus_grows st (if (added =? 0)%nat then st1
                                 else emit (EvLog "load-shard") st1)).
  { destruct Hg as [new Hrec]. exists new.
    destruct (added =? 0)%nat; exact Hrec. }
  destruct q as [|input rest].
  - intros E. injection E as <-. exact Hg'.
  - destruct Hp as [Hp | ->]; [|specialize (Hq eq_refl); discriminate].
    intros E. apply rerun_loop_grows in E; [|exact Hp].
    eapply corpus_grows_trans; [exact Hg'|].
    destruct E as [new Hrec]. exists new. exact Hrec.
Qed.

Lemma get_range_app (c : Corpus.t) (pre new : list Corpus.CorpusRecord) :
  Corpus.records_ c = pre ++ new ->
  get_range c (length pre) (length new) = Returns (map Corpus.data new).
Proof.
  revert pre. induction new as [|r new IH]; intros pre Hrec; simpl.
  - reflexivity.
  - unfold Corpus.Get, span_at. rewrite Nat2Z.id, Hrec.
    rewrite lookup_app_r by lia. rewrite Nat.sub_diag. simpl.
    specialize (IH (pre ++ [r])). rewrite length_app in IH. simpl in IH.
    rewrite Nat.add_1_r in IH. rewrite IH; [reflexivity|].
    rewrite Hrec, <- app_assoc. reflexivity.
Qed.

(** X16: with pruning switched off ([prune_frequency = 0]),
    [CHECK_GE(new_corpus_size, initial_corpus_size)] of
    [MergeFromOtherCorpus] holds whenever [LoadShard] returns, and the
    inputs appended to the corpus file of the own shard are those of the
    records the merge added to the corpus, in order. *)
Theorem MergeFromOtherCorpus_appends (env : Environment)
        (read_merge_from : Z -> ExternalState
                           -> list Corpus.CorpusRecord * ExternalState)
        (corpus_path : string) (shard_index_to_merge : Z)
        (st st1 : Centipede) :
  prune_frequency env = 0 ->
  RemoteFileOpen_ok corpus_path = true ->
  LoadShard env read_merge_from shard_index_to_merge true
            (emit (EvLog "MergeFromOtherCorpus") st)
  = Some (Returns st1) ->
  exists st2 new,
    MergeFromOtherCorpus env read_merge_from corpus_path
                         shard_index_to_merge st
    = Some (Returns (st2, map Corpus.data new)) /\
    Corpus.records_ (corpus_ st2) = Corpus.records_ (corpus_ st) ++ new /\
    same_corpus st1 st2.
Proof.
  intros Hp Hopen E. unfold MergeFromOtherCorpus. cbv zeta. rewrite E.
  apply LoadShard_grows in E; [|left; exact Hp].
  destruct E as [new Hrec]. simpl in Hrec.
  unfold Corpus.NumActive. simpl corpus_. rewrite Hrec, length_app.
  destruct (Nat.leb_spec (length (Corpus.records_ (corpus_ st)))
                         (length (Corpus.records_ (corpus_ st))
                          + length new)) as [_|Hlt]; [|lia].
  simpl obind.
  replace (length (Corpus.records_ (corpus_ st)) + length new
           - length (Corpus.records_ (corpus_ st)))%nat
    with (length new) by lia.
  destruct (Nat.ltb_spec (length (Corpus.records_ (corpus_ st)))
                         (length (Corpus.records_ (corpus_ st))
                          + length new)) as [Hlt|Hge].
  - rewrite (get_range_app _ _ _ Hrec). simpl. rewrite Hopen. simpl.
    exists (emit (EvLog "merge: new inputs added") st1), new.
    split; [reflexivity|]. simpl. split; [exact Hrec|].
    unfold same_corpus. simpl. tauto.
  - assert (Hnil : new = []) by (destruct new; [reflexivity|simpl in Hge; lia]).
    subst new. exists st1, []. split; [reflexivity|].
    split; [exact Hrec | apply same_corpus_refl].
Qed.

End WithCollaborators.

Lemma finished_true {A} (o : option (outcome A)) :
  finished o = true -> exists a, o = Some (Returns a).
Proof.
  destruct o as [[a| |u]|]; simpl; intros E; [|discriminate..].
  exists a. reflexivity.
Qed.

Lemma unfiltered_all_succeed : @all_succeed unfiltered_collaborators.
Proof.
  intros binary inputs x. simpl. apply negb_true_iff.
  induction inputs as [|i l IH]; [reflexivity | exact IH].
Qed.

Lemma LoadShard_records_accounting_witness :
  exists st',
    @LoadShard_records unfiltered_collaborators counting_rng
      FeatureSet.test_scoring true two_records (unfiltered_start, O, [])
    = Returns (st', 1%nat, [[Byte.x01]]) /\
    Corpus.NumTotal (corpus_ st') = 1%nat.
Proof.
  destruct (observed_Some
              (fun r : Centipede * nat * list ByteArray =>
                 (snd (fst r), snd r))
              (@LoadShard_records unfiltered_collaborators counting_rng
                 FeatureSet.test_scoring true two_records
                 (unfiltered_start, O, [])) (1%nat, [[Byte.x01]]))
    as ([[st' added] q] & E & Hobs); [vm_compute; reflexivity|].
  simpl in Hobs. injection Hobs as -> ->.
  exists st'. split; [exact E|].
  destruct (@LoadShard_records_accounting unfiltered_collaborators
              counting_rng FeatureSet.test_scoring true two_records
              unfiltered_start O [] st' 1%nat [[Byte.x01]] E)
    as (_ & new & _ & Hadd & Htot & _).
  rewrite Htot. simpl in *. lia.
Defined.

Lemma rerun_loop_reruns_each_once_witness :
  exists st' batches,
    @rerun_loop unfiltered_collaborators counting_rng
      FeatureSet.test_scoring rerun_env 3 three_inputs unfiltered_start
    = Some (Returns st') /\
    executed_batches (trace st') = concat (map (replicate 1) batches) /\
    concat (rev batches) = three_inputs.
Proof.
  destruct (@rerun_loop_reruns_each_once unfiltered_collaborators
              counting_rng FeatureSet.test_scoring rerun_env three_inputs
              unfiltered_start) as (o & Eo & Hrun); [simpl; lia|].
  destruct (finished_true
              (@rerun_loop unfiltered_collaborators counting_rng
                 FeatureSet.test_scoring rerun_env 3 three_inputs
                 unfiltered_start)) as [st' E]; [vm_compute; reflexivity|].
  change (length three_inputs) with 3%nat in Eo. rewrite E in Eo.
  injection Eo as <-.
  destruct (Hrun unfiltered_all_succeed st' eq_refl)
    as (evs & batches & Ht & Hex & Hcat & _).
  exists st', batches. split; [exact E|]. split; [|exact Hcat].
  rewrite Ht. exact Hex.
Defined.

Lemma rerun_loop_needs_batch_size_witness :
  finished (@rerun_loop unfiltered_collaborators counting_rng
              FeatureSet.test_scoring zero_batch_env 7 three_inputs
              unfiltered_start) = false.
Proof.
  apply (@rerun_loop_needs_batch_size unfiltered_collaborators counting_rng
           FeatureSet.test_scoring zero_batch_env 7 three_inputs
           unfiltered_start eq_refl).
  discriminate.
Defined.

Lemma MergeFromOtherCorpus_appends_witness :
  exists st2 new,
    @MergeFromOtherCorpus unfiltered_collaborators counting_rng
      FeatureSet.test_scoring rerun_env (fun _ x => (two_records, x))
      "corpus.0" 0 unfiltered_start
    = Some (Returns (st2, map Corpus.data new)) /\
    Corpus.records_ (corpus_ st2) = new.
Proof.
  destruct (finished_true
              (@LoadShard unfiltered_collaborators counting_rng
                 FeatureSet.test_scoring rerun_env
                 (fun _ x => (two_records, x)) 0 true
                 (emit (EvLog "MergeFromOtherCorpus") unfiltered_start)))
    as [st1 E]; [vm_compute; reflexivity|].
  destruct (@MergeFromOtherCorpus_appends unfiltered_collaborators
              counting_rng FeatureSet.test_scoring rerun_env
              (fun _ x => (two_records, x)) "corpus.0" 0 unfiltered_start
              st1 eq_refl eq_refl E) as (st2 & new & EM & Hrec & _).
  exists st2, new. split; [exact EM | exact Hrec].
Defined.

End LoadShardFacts.

(** ** What a crash report touches *)
Module ReportFacts.
Import Loop CrashFacts CounterFacts.

Section WithCollaborators.
Context `{Collaborators} `{RandomSource} `{FeatureSet.Scoring}.

Lemma TryOneInput_of_the_batch (env : Environment) (binary : string)
      (input_vec : list ByteArray) (input : ByteArray) (st : Centipede)
      (found : bool) (st' : Centipede) :
  input ∈ input_vec ->
  TryOneInput env binary input st = Returns (found, st') ->
  exists evs,
    trace st' = trace st ++ evs /\
    Forall (of_the_batch env input_vec) (observations evs).
Proof.
  intros Hin E. apply TryOneInput_returns in E.
  destruct E as (evs & Ht & _ & Hobs). exists evs. split; [exact Ht|].
  rewrite Hobs. destruct found; repeat constructor; simpl; eauto.
Qed.

Lemma try_one_by_one_of_the_batch (env : Environment) (binary : string)
      (input_vec inputs : list ByteArray) (st : Centipede) (found : bool)
      (st' : Centipede) :
  inputs ⊆ input_vec ->
  try_one_by_one env binary inputs st = Returns (found, st') ->
  exists evs,
    trace st' = trace st ++ evs /\
    Forall (of_the_batch env input_vec) (observations evs).
Proof.
  revert st. induction inputs as [|input rest IH]; intros st Hsub E;
    simpl in E.
  - injection E as <- <-. exists []. rewrite app_nil_r.
    split; [reflexivity | constructor].
  - apply obind_returns in E. destruct E as ([f1 st1] & E1 & E).
    apply (TryOneInput_of_the_batch env binary input_vec) in E1;
      [|apply Hsub; left].
    destruct E1 as (evs1 & Ht1 & Hok1). simpl in E. destruct f1.
    + injection E as <- <-. exists evs1. split; assumption.
    + apply IH in E; [|intros x Hx; apply Hsub; right; exact Hx].
      destruct E as (evs2 & Ht2 & Hok2). exists (evs1 ++ evs2).
      rewrite Ht2, Ht1, app_assoc. split; [reflexivity|].
      rewrite observations_app. apply Forall_app. split; assumption.
Qed.

Lemma one_by_one_of_the_batch (env : Environment) (binary : string)
      (input_vec : list ByteArray) (st st' : Centipede) :
  one_by_one env binary input_vec st = Returns st' ->
  exists evs,
    trace st' = trace st ++ evs /\
    Forall (of_the_batch env input_vec) (observations evs).
Proof.
  unfold one_by_one. intros E.
  apply obind_returns in E. destruct E as ([found st1] & E1 & E).
  apply (try_one_by_one_of_the_batch env binary input_vec) in E1;
    [|intros x Hx; exact Hx].
  destruct E1 as (evs & Ht & Hok). simpl in Ht, E.
  destruct found; injection E as <-.
  - exists (EvLog "executing inputs one-by-one" :: evs).
    rewrite Ht, <- app_assoc. split; [reflexivity | exact Hok].
  - exists (EvLog "executing inputs one-by-one" :: evs
            ++ [EvLog
                  "crash was not observed when running inputs one-by-one"]).
    simpl. rewrite Ht, <- !app_assoc. split; [reflexivity|].
    change (observations (?a :: ?l)) with (observe_event a ++ observations l).
    simpl. rewrite observations_app. simpl. rewrite app_nil_r. exact Hok.
Qed.

(** X17: whatever the result of a batch, [ReportCrash] leaves the
    feature set and the corpus alone, runs the target on single inputs of
    the batch only, and writes at most one file: an input of the batch,
    under its hash in the crash reproducer directory. *)
Theorem ReportCrash_only_batch_inputs (env : Environment) (binary : string)
        (input_vec : list ByteArray) (batch_result : BatchResult)
        (st st' : Centipede) :
  ReportCrash env binary input_vec batch_result st = Returns st' ->
  same_corpus st st' /\
  exists evs,
    trace st' = trace st ++ evs /\
    Forall (of_the_batch env input_vec) (observations evs) /\
    reproducers_written evs <= 1.
Proof.
  intros E. split; [eapply ReportCrash_same_corpus; exact E|].
  assert (Hw : exists evs, trace st' = trace st ++ evs /\
                           Forall (of_the_batch env input_vec)
                                  (observations evs)).
  { unfold ReportCrash in E.
    destruct (max_num_crash_reports env <=? num_crash_reports_ st).
    { injection E as <-. exists []. rewrite app_nil_r.
      split; [reflexivity | constructor]. }
    cbv zeta in E.
    match type of E with
    | context [obind (CHECK _) (fun _ => if _ then obind _ ?k else _ ?s)] =>
        set (st1 := s) in *
    end.
    assert (Hst1 : exists evs1, trace st1 = trace st ++ evs1 /\
                                observations evs1 = []).
    { subst st1.
      match goal with |- context [if ?c then _ else _] => destruct c end;
        simpl; rewrite <- ?app_assoc; eexists; split; try reflexivity;
        reflexivity. }
    destruct Hst1 as (evs1 & Ht1 & Hobs1).
    assert (Hfin : forall st2 evs2,
               trace st2 = trace st1 ++ evs2 ->
               Forall (of_the_batch env input_vec) (observations evs2) ->
               exists evs, trace st2 = trace st ++ evs /\
                           Forall (of_the_batch env input_vec)
                                  (observations evs)).
    { intros st2 evs2 Ht2 Hok2. exists (evs1 ++ evs2).
      rewrite Ht2, Ht1, app_assoc. split; [reflexivity|].
      rewrite observations_app, Hobs1. exact Hok2. }
    apply obind_returns in E. destruct E as (_ & _ & E).
    destruct (num_outputs_read batch_result <? Z.of_nat (length input_vec)).
    - apply obind_returns in E. destruct E as (input & Hin & E).
      assert (Hin' : input ∈ input_vec).
      { unfold span_at in Hin.
        destruct (input_vec !! Z.to_nat (num_outputs_read batch_result))
          eqn:Hl; [|discriminate].
        injection Hin as <-. eapply list_elem_of_lookup_2. exact Hl. }
      apply obind_returns in E. destruct E as ([found st2] & Htry & E).
      apply (TryOneInput_of_the_batch env binary input_vec) in Htry;
        [|exact Hin'].
      destruct Htry as (evs2 & Ht2 & Hok2). simpl in Ht2, E.
      rewrite <- app_assoc in Ht2.
      destruct found.
      + injection E as <-.
        apply (Hfin st2 (EvLog "executing input" :: evs2)); assumption.
      + apply one_by_one_of_the_batch in E.
        destruct E as (evs3 & Ht3 & Hok3).
        apply (Hfin st' (EvLog "executing input" :: evs2 ++ evs3)).
        * rewrite Ht3, Ht2, <- app_assoc. reflexivity.
        * change (observations (?a :: ?l))
            with (observe_event a ++ observations l).
          simpl. rewrite observations_app. apply Forall_app.
          split; assumption.
    - apply one_by_one_of_the_batch in E.
      destruct E as (evs3 & Ht3 & Hok3). apply (Hfin st' evs3); assumption. }
  destruct Hw as (evs & Ht & Hok). exists evs.
  split; [exact Ht|]. split; [exact Hok|].
  apply ReportCrash_quiet in E. destruct E as (_ & _ & Hw).
  rewrite Ht, written_app in Hw. lia.
Qed.

End WithCollaborators.

Lemma ReportCrash_only_batch_inputs_witness :
  exists st',
    @ReportCrash (simple_collaborators crashes_on_star (fun _ => []) true)
                 counting_rng shard_env "target" crash_batch
                 crash_batch_result
                 (initial_state crashes_on_star (fun _ => []) true)
    = Returns st' /\
    reproducers_written (trace st') <= 1.
Proof.
  destruct (observed_Some (fun _ : Centipede => tt)
              (@ReportCrash
                 (simple_collaborators crashes_on_star (fun _ => []) true)
                 counting_rng shard_env "target" crash_batch
                 crash_batch_result
                 (initial_state crashes_on_star (fun _ => []) true)) tt)
    as (st' & E & _); [vm_compute; reflexivity|].
  exists st'. split; [exact E|].
  destruct (@ReportCrash_only_batch_inputs
              (simple_collaborators crashes_on_star (fun _ => []) true)
              counting_rng shard_env "target"
              crash_batch crash_batch_result _ st' E)
    as (_ & evs & Ht & _ & Hw).
  rewrite Ht. exact Hw.
Defined.

End ReportFacts.

Module BatchCorpusFacts.
Import Loop CrashFacts.

Lemma elem_of_removelast {A} (x : A) (l : list A) :
  x ∈ removelast l -> x ∈ l.
Proof.
  induction l as [|a l IH]; simpl; [intros Hx; exact Hx|].
  destruct l as [|b l'].
  - intros Hx. inversion Hx.
  - intros Hx. apply elem_of_cons in Hx. destruct Hx as [->|Hx].
    + apply list_elem_of_here.
    + apply list_elem_of_further. apply IH. exact Hx.
Qed.

Lemma elem_of_swap_remove {A} (idx : nat) (x : A) (l : list A) :
  x ∈ Corpus.swap_remove idx l -> x ∈ l.
Proof.
  unfold Corpus.swap_remove. destruct (last l) as [y|] eqn:Hl;
    [|intros Hx; exact Hx].
  intros Hx. apply elem_of_removelast in Hx.
  apply list_elem_of_lookup in Hx. destruct Hx as [i Hi].
  apply list_lookup_insert_Some in Hi.
  destruct Hi as [(_ & <- & _)|(_ & Hi)].
  - apply last_Some in Hl. destruct Hl as [l' ->].
    apply elem_of_app. right. apply list_elem_of_here.
  - apply list_elem_of_lookup. exists i. exact Hi.
Qed.

Section WithRng.
Context `{RandomSource}.

Lemma remove_random_keeps (excess : nat) (rs : list Corpus.CorpusRecord)
      (ws : list Z) (rng : Rng) rs' ws' rng' :
  Corpus.remove_random excess rs ws rng = Returns (rs', ws', rng') ->
  forall r, r ∈ rs' -> r ∈ rs.
Proof.
  revert rs ws rng. induction excess as [|n IH]; intros rs ws rng E; simpl in E.
  - injection E as <- _ _. intros r Hr. exact Hr.
  - destruct (rng_next rng) as [x rng1].
    destruct (Corpus.positive_indices ws
                !! Z.to_nat (x mod Z.of_nat
                                     (length (Corpus.positive_indices ws))))
      as [idx|]; [|discriminate].
    intros r Hr. eapply elem_of_swap_remove. eapply IH; eassumption.
Qed.

Context `{FeatureSet.Scoring}.

(** Pruning only removes records. *)
Lemma Prune_keeps (fs : FeatureSet.t) (frontier : CoverageFrontier.t)
      (max_corpus_size : nat) (rng : Rng) (c : Corpus.t) n c' rng' :
  Corpus.Prune fs frontier max_corpus_size rng c = Returns (n, c', rng') ->
  forall r, r ∈ Corpus.records_ c' -> r ∈ Corpus.records_ c.
Proof.
  unfold Corpus.Prune. intros E.
  apply obind_returns in E. destruct E as (u & _ & E).
  apply obind_returns in E. destruct E as (scored & Hs & E).
  apply obind_returns in E. destruct E as ([[rs ws] rng1] & Hr & E).
  injection E as _ <- _. simpl.
  apply CorpusFacts.fresh_weights_survivors in Hs.
  intros r Hin. eapply remove_random_keeps in Hin; [|exact Hr].
  rewrite Hs in Hin. apply list_elem_of_In, filter_In in Hin.
  apply list_elem_of_In, Hin.
Qed.

End WithRng.

Section WithCollaborators.
Context `{Collaborators} `{RandomSource} `{FeatureSet.Scoring}.

Lemma RunBatch_input_origin (env : Environment) (input : ByteArray)
      (fv : FeatureVec) (st : Centipede) (gained : bool)
      (st' : Centipede) (gained' : bool) :
  RunBatch_input env input fv (st, gained) = Returns (st', gained') ->
  (gained' = false -> gained = false /\ same_corpus st st') /\
  (forall r, r ∈ Corpus.records_ (corpus_ st') ->
     r ∈ Corpus.records_ (corpus_ st) \/
     (Corpus.data r = input /\ Corpus.features r <> [])).
Proof.
  unfold RunBatch_input.
  destruct (FeatureSet.CountUnseenAndPruneFrequentFeatures (fs_ st) fv)
    as [unseen fv'].
  destruct (negb (unseen =? 0)%nat).
  2:{ intros E. injection E as <- <-. split.
      - intros Hg. split; [exact Hg | apply same_corpus_refl].
      - intros r Hr. left. exact Hr. }
  pose proof (LoopFacts.InputPassesFilter_same_corpus env input st) as Hf.
  destruct (InputPassesFilter env input st) as [passes st1]. simpl in Hf.
  destruct passes; simpl negb; cbv iota.
  2:{ intros E. injection E as <- <-. split.
      - intros Hg. split; [exact Hg | exact Hf].
      - intros r Hr. left. destruct Hf as (_ & Hc & _).
        rewrite <- Hc. exact Hr. }
  intros E. apply obind_returns in E. destruct E as (u & Hchk & E).
  apply CHECK_returns in Hchk.
  apply obind_returns in E. destruct E as (st2 & E2 & E).
  apply obind_returns in E. destruct E as (st3 & E3 & E).
  injection E as <- <-. split; [discriminate|].
  destruct Hf as (_ & Hc & _).
  assert (H2 : forall r, r ∈ Corpus.records_ (corpus_ st2) ->
                 r ∈ Corpus.records_ (corpus_ st) \/
                 (Corpus.data r = input /\ Corpus.features r <> [])).
  { destruct (function_filter fv).
    - apply obind_returns in E2. destruct E2 as (c & Hadd & E2).
      injection E2 as <-. simpl.
      apply LoopFacts.Add_returns in Hadd. destruct Hadd as [Hrec _].
      simpl in Hrec. rewrite Hrec, Hc. intros r Hr.
      apply elem_of_app in Hr. destruct Hr as [Hr|Hr]; [left; exact Hr|].
      apply list_elem_of_singleton in Hr. subst r. right. simpl.
      split; [reflexivity|].
      destruct fv'; [discriminate Hchk | discriminate].
    - injection E2 as <-. simpl. rewrite Hc. intros r Hr. left. exact Hr. }
  match type of E3 with (if ?c then _ else _) = _ => destruct c end.
  - unfold PruneCorpus in E3. apply obind_returns in E3.
    destruct E3 as ([[removed c] rng] & Hp & E3). injection E3 as <-.
    simpl. intros r Hr. apply H2. eapply Prune_keeps; eassumption.
  - injection E3 as <-. exact H2.
Qed.

Lemma RunBatch_inputs_origin (env : Environment)
      (input_vec : list ByteArray) (fvs : list FeatureVec)
      (st : Centipede) (gained : bool) (st' : Centipede) (gained' : bool) :
  RunBatch_inputs env input_vec fvs (st, gained) = Returns (st', gained') ->
  (gained' = false -> gained = false /\ same_corpus st st') /\
  (forall r, r ∈ Corpus.records_ (corpus_ st') ->
     r ∈ Corpus.records_ (corpus_ st) \/
     (Corpus.data r ∈ input_vec /\ Corpus.features r <> [])).
Proof.
  revert fvs st gained.
  induction input_vec as [|input rest IH]; intros fvs st gained E;
    simpl in E.
  - injection E as <- <-. split.
    + intros Hg. split; [exact Hg | apply same_corpus_refl].
    + intros r Hr. left. exact Hr.
  - destruct fvs as [|fv fvs'].
    { injection E as <- <-. split.
      - intros Hg. split; [exact Hg | apply same_corpus_refl].
      - intros r Hr. left. exact Hr. }
    apply obind_returns in E. destruct E as ([st1 g1] & E1 & E).
    apply RunBatch_input_origin in E1. apply IH in E.
    destruct E1 as [Hg1 Ho1]. destruct E as [Hg Ho]. split.
    + intros Hg'. destruct (Hg Hg') as [-> Hs].
      destruct (Hg1 eq_refl) as [-> Hs1].
      split; [reflexivity|]. eapply same_corpus_trans; eassumption.
    + intros r Hr. destruct (Ho r Hr) as [Hr1|(Hd & Hrest)].
      * destruct (Ho1 r Hr1) as [Hr0|(Hd & Hrest)]; [left; exact Hr0|].
        right. split; [|exact Hrest]. rewrite Hd. apply list_elem_of_here.
      * right. split; [|exact Hrest]. apply list_elem_of_further. exact Hd.
Qed.

(** X22: what [RunBatch] may put into the corpus. Every record of the
    corpus after a batch was there before, or holds an input of the batch
    with a non-empty feature vector, also when the corpus is pruned on
    the way; and a batch that reports no new coverage leaves the feature
    set, the corpus and the frontier as they were. *)
Theorem RunBatch_adds_only_batch_inputs (env : Environment)
        (input_vec : list ByteArray) (st : Centipede) (gained : bool)
        (st' : Centipede) :
  RunBatch env input_vec st = Returns (gained, st') ->
  (gained = false -> same_corpus st st') /\
  (forall r, r ∈ Corpus.records_ (corpus_ st') ->
     r ∈ Corpus.records_ (corpus_ st) \/
     (Corpus.data r ∈ input_vec /\ Corpus.features r <> [])).
Proof.
  intros E. unfold RunBatch in E.
  apply obind_returns in E. destruct E as ([[success br] st1] & E1 & E).
  apply LoopFacts.ExecuteAndReportCrash_returns in E1.
  destruct E1 as [Hs1 _].
  apply obind_returns in E. destruct E as (u1 & _ & E).
  apply obind_returns in E. destruct E as ([success2 st2] & E2 & E).
  apply LoopFacts.run_extra_binaries_returns in E2. simpl in E2.
  pose proof (same_corpus_trans _ _ _ Hs1 E2) as Hs.
  destruct (negb success2 && exit_on_crash env).
  - injection E as <- <-.
    assert (Hs' : same_corpus st
                    (RequestEarlyExit (emit (EvLog "exiting soon") st2))).
    { unfold same_corpus in *. simpl. exact Hs. }
    split; [intros _; exact Hs'|].
    intros r Hr. left. destruct Hs' as (_ & Hc & _).
    rewrite <- Hc. exact Hr.
  - apply obind_returns in E. destruct E as (u2 & _ & E).
    apply obind_returns in E. destruct E as ([st3 g] & E3 & E).
    injection E as <- <-. simpl.
    apply RunBatch_inputs_origin in E3. destruct E3 as [Hg Ho].
    assert (Hs' : same_corpus st
                    (set_num_runs
                       (wrap64 (num_runs_ st2
                                + Z.of_nat (length input_vec))) st2)).
    { unfold same_corpus in *. simpl. exact Hs. }
    split.
    + intros Hg'. destruct (Hg Hg') as [_ Hs3].
      eapply same_corpus_trans; eassumption.
    + intros r Hr. destruct (Ho r Hr) as [Hr0|Hnew]; [left|right; exact Hnew].
      destruct Hs' as (_ & Hc & _). rewrite <- Hc. exact Hr0.
Qed.

End WithCollaborators.

Lemma RunBatch_adds_only_batch_inputs_witness :
  exists st',
    @RunBatch unfiltered_collaborators counting_rng FeatureSet.test_scoring
      rerun_env three_inputs unfiltered_start = Returns (true, st') /\
    Forall (fun r => Corpus.data r ∈ three_inputs /\ Corpus.features r <> [])
           (Corpus.records_ (corpus_ st')).
Proof.
  destruct (CounterFacts.observed_Some fst
              (@RunBatch unfiltered_collaborators counting_rng
                 FeatureSet.test_scoring rerun_env three_inputs
                 unfiltered_start) true)
    as ([g st'] & E & Hg); [vm_compute; reflexivity|].
  simpl in Hg. subst g. exists st'. split; [exact E|].
  destruct (@RunBatch_adds_only_batch_inputs unfiltered_collaborators
              counting_rng FeatureSet.test_scoring rerun_env three_inputs
              unfiltered_start true st' E) as [_ Ho].
  apply Forall_forall. intros r Hr.
  destruct (Ho r Hr) as [Hold|Hnew]; [inversion Hold | exact Hnew].
Defined.

End BatchCorpusFacts.

(** ** Exporting a local directory *)
Module ExportFacts.
Import CorpusExport.

Lemma wrap64_add_l (x y : Z) : wrap64 (wrap64 x + y) = wrap64 (x + y).
Proof. unfold wrap64. apply Zplus_mod_idemp_l. Qed.

Lemma wrap64_add_r (x y : Z) : wrap64 (x + wrap64 y) = wrap64 (x + y).
Proof. unfold wrap64. apply Zplus_mod_idemp_r. Qed.

Lemma length_concat_insert {A} (ls : list (list A)) (i : nat) (l : list A)
      (x : A) :
  ls !! i = Some l ->
  length (concat (<[i := l ++ [x]]> ls)) = S (length (concat ls)).
Proof.
  revert i. induction ls as [|l0 ls IH]; intros i Hi; [discriminate|].
  destruct i as [|i]; simpl in *.
  - injection Hi as ->. rewrite !length_app. simpl. lia.
  - rewrite !length_app, (IH i Hi). lia.
Qed.

Section WithFiles.
Context `{Files}.

Lemma shard_paths_ok (total_shards : Z) (entries : list DirEntry)
      (sharded : list (list DirEntry)) (n : Z) :
  0 < total_shards -> length sharded = Z.to_nat total_shards ->
  exists sharded',
    shard_paths total_shards entries (sharded, n)
    = Returns (sharded',
               if existsb is_regular_file entries
               then wrap64 (n + Z.of_nat (length (List.filter is_regular_file
                                                              entries)))
               else n) /\
    length sharded' = Z.to_nat total_shards /\
    length (concat sharded')
    = (length (concat sharded)
       + length (List.filter is_regular_file entries))%nat /\
    forall s : nat,
      sharded' !! s
      = (fun paths => paths
                      ++ paths_of_shard total_shards (Z.of_nat s) entries)
          <$> sharded !! s.
Proof.
  intros HT. revert sharded n.
  induction entries as [|e rest IH]; intros sharded n Hlen.
  - exists sharded. simpl. split; [reflexivity|]. split; [exact Hlen|].
    split; [lia|]. intros s. destruct (sharded !! s); simpl;
      [rewrite app_nil_r|]; reflexivity.
  - simpl shard_paths. unfold paths_of_shard. simpl.
    destruct (is_regular_file e) eqn:Hreg; simpl.
    + destruct (Z.eqb_spec total_shards 0); [lia|].
      pose proof (Z.mod_pos_bound (filename_hash e) total_shards HT) as Hm.
      set (shard := Z.to_nat (filename_hash e mod total_shards)).
      destruct (lookup_lt_is_Some_2 sharded shard ltac:(subst shard; lia))
        as [paths Hpaths].
      rewrite Hpaths.
      destruct (IH (<[shard := paths ++ [e]]> sharded) (wrap64 (n + 1)))
        as (sharded' & E & Hlen' & Hcat & Hlook);
        [rewrite length_insert; exact Hlen|].
      exists sharded'. split.
      * rewrite E. f_equal. f_equal.
        destruct (existsb is_regular_file rest) eqn:Hex.
        -- rewrite wrap64_add_l. f_equal. lia.
        -- assert (Hnil : List.filter is_regular_file rest = []).
           { clear -Hex. induction rest as [|x l IHl]; [reflexivity|].
             simpl in *. apply orb_false_elim in Hex.
             destruct Hex as [-> Hex]. apply IHl. exact Hex. }
           rewrite Hnil. reflexivity.
      * split; [exact Hlen'|]. split.
        -- rewrite Hcat, (length_concat_insert _ _ _ _ Hpaths). simpl. lia.
        -- intros s. rewrite Hlook. fold (paths_of_shard total_shards
                                            (Z.of_nat s) rest).
           destruct (Nat.eq_dec s shard) as [->|Hne].
           ++ rewrite list_lookup_insert_eq by (subst shard; lia).
              rewrite Hpaths. simpl. subst shard. rewrite Z2Nat.id by lia.
              rewrite Z.eqb_refl. rewrite <- app_assoc. reflexivity.
           ++ rewrite list_lookup_insert_ne by congruence.
              destruct (Z.eqb_spec (filename_hash e mod total_shards)
                                   (Z.of_nat s)) as [Heq|_];
                [subst shard; lia | reflexivity].
    + destruct (IH sharded n Hlen) as (sharded' & E & Hlen' & Hcat & Hlook).
      exists sharded'. split; [exact E|]. split; [exact Hlen'|].
      split; [exact Hcat|]. intros s. rewrite Hlook. reflexivity.
Qed.

Lemma add_inputs_ok (existing : list string) (paths : list DirEntry)
      (shard_data : ByteArray) (a i : Z) :
  exists a' i',
    add_inputs existing paths (shard_data, a, i)
    = (shard_data ++ pack_all (new_inputs existing paths), a', i') /\
    wrap64 (a' + i') = wrap64 (a + i + Z.of_nat (length paths)).
Proof.
  revert shard_data a i. induction paths as [|p rest IH];
    intros shard_data a i.
  - exists a, i. simpl. unfold pack_all, new_inputs. simpl.
    rewrite app_nil_r, Z.add_0_r. split; reflexivity.
  - simpl add_inputs. unfold new_inputs. simpl map. simpl List.filter.
    destruct (contains existing (Hash (contents p))); simpl negb; cbv iota;
      fold (new_inputs existing rest).
    + destruct (IH shard_data a (wrap64 (i + 1))) as (a' & i' & E & Hw).
      exists a', i'. split; [exact E|]. rewrite Hw.
      replace (a + wrap64 (i + 1) + Z.of_nat (length rest))
        with (a + Z.of_nat (length rest) + wrap64 (i + 1)) by lia.
      rewrite wrap64_add_r. f_equal. simpl length. lia.
    + destruct (IH (shard_data ++ PackBytesForAppendFile (contents p))
                   (wrap64 (a + 1)) i) as (a' & i' & E & Hw).
      exists a', i'. split.
      * etransitivity; [exact E|]. unfold pack_all. simpl. rewrite <- app_assoc.
        reflexivity.
      * rewrite Hw, <- !Z.add_assoc, wrap64_add_l. f_equal.
        simpl length. lia.
Qed.

Lemma export_shards_ok (count : nat) (shard : Z)
      (sharded : list (list DirEntry)) (files : gmap Z ByteArray) (a i : Z) :
  0 <= shard ->
  (forall s, shard <= s < shard + Z.of_nat count ->
             RemoteFileOpen_append_ok s = true) ->
  (Z.to_nat shard + count <= length sharded)%nat ->
  exists files' a' i',
    export_shards count shard sharded files a i = Returns (files', a', i') /\
    wrap64 (a' + i')
    = wrap64 (a + i
              + Z.of_nat (length (concat (take count
                                            (drop (Z.to_nat shard) sharded)))))
    /\
    forall s,
      files' !! s
      = if decide (shard <= s < shard + Z.of_nat count)
        then Some (default [] (files !! s)
                   ++ pack_all (new_inputs
                                  (existing_hashes files s)
                                  (default [] (sharded !! Z.to_nat s))))
        else files !! s.
Proof.
  revert shard files a i.
  induction count as [|count IH]; intros shard files a i Hs Hopen Hlen.
  - exists files, a, i. simpl. rewrite Z.add_0_r.
    split; [reflexivity|]. split; [reflexivity|]. intros s.
    destruct (decide (shard <= s < shard + Z.of_nat 0)); [lia | reflexivity].
  - simpl export_shards. unfold span_at.
    destruct (lookup_lt_is_Some_2 sharded (Z.to_nat shard) ltac:(lia))
      as [paths Hpaths].
    rewrite Hpaths. simpl obind.
    destruct (add_inputs_ok (existing_hashes files shard) paths [] a i)
      as (a1 & i1 & E1 & Hw1).
    match goal with
    | |- context [add_inputs ?e ?p ?acc] =>
        replace (add_inputs e p acc)
          with ([] ++ pack_all (new_inputs e p), a1, i1)
          by (symmetry; exact E1)
    end.
    rewrite Hopen by lia. simpl obind.
    set (files1 := <[shard := _]> files).
    destruct (IH (shard + 1) files1 a1 i1 ltac:(lia)) as
      (files' & a' & i' & E & Hw & Hlook).
    { intros s Hs'. apply Hopen. lia. }
    { rewrite Z2Nat.inj_add by lia. simpl. lia. }
    exists files', a', i'. split; [exact E|]. split.
    + rewrite Hw. rewrite Z2Nat.inj_add by lia.
      change (Z.to_nat 1) with 1%nat.
      rewrite <- drop_drop.
      rewrite (drop_S _ _ _ Hpaths) at 2. simpl take. simpl concat.
      rewrite length_app. rewrite Nat2Z.inj_add.
      replace (drop 1 (drop (Z.to_nat shard) sharded))
        with (drop (S (Z.to_nat shard)) sharded)
        by (rewrite drop_drop; f_equal; lia).
      rewrite <- (wrap64_add_l (a1 + i1)), Hw1, wrap64_add_l.
      f_equal. lia.
    + intros s. rewrite Hlook.
      destruct (decide (shard + 1 <= s < shard + 1 + Z.of_nat count))
        as [Hin|Hout];
        destruct (decide (shard <= s < shard + Z.of_nat (S count)))
          as [Hin'|Hout']; try lia.
      * unfold existing_hashes. subst files1.
        rewrite !lookup_insert_ne by lia. reflexivity.
      * assert (s = shard) by lia. subst s files1.
        rewrite lookup_insert_eq, Hpaths. reflexivity.
      * subst files1. rewrite lookup_insert_ne by lia. reflexivity.
Qed.


Lemma concat_replicate_nil {A} (n : nat) :
  concat (replicate n (@nil A)) = [].
Proof. induction n as [|n IH]; simpl; [reflexivity | exact IH]. Qed.

Lemma no_regular_file (entries : list DirEntry) :
  existsb is_regular_file entries = false ->
  List.filter is_regular_file entries = [].
Proof.
  induction entries as [|e l IH]; simpl; [reflexivity|].
  intros E. apply orb_false_elim in E. destruct E as [-> E].
  apply IH. exact E.
Qed.

Lemma Export_returns (total_shards : Z) (entries : list DirEntry)
      (files : gmap Z ByteArray) :
  0 < total_shards ->
  (forall s, 0 <= s < total_shards -> RemoteFileOpen_append_ok s = true) ->
  exists files',
    ExportCorpusFromLocalDir total_shards entries files
    = Returns (files', 0) /\
    forall s,
      files' !! s
      = if decide (0 <= s < total_shards)
        then Some (default [] (files !! s)
                   ++ exported total_shards files s entries)
        else files !! s.
Proof.
  intros HT Hopen. unfold ExportCorpusFromLocalDir.
  destruct (shard_paths_ok total_shards entries
              (replicate (Z.to_nat total_shards) []) 0 HT)
    as (sharded & E1 & Hlen & Hcat & Hpaths);
    [apply length_replicate|].
  rewrite E1. simpl obind. rewrite concat_replicate_nil in Hcat.
  simpl in Hcat.
  destruct (export_shards_ok (Z.to_nat total_shards) 0 sharded files 0 0
              ltac:(lia)) as (files' & a' & i' & E2 & Hw & Hlook).
  { intros s Hs. apply Hopen. lia. }
  { simpl. lia. }
  rewrite E2. simpl obind.
  change (Z.to_nat 0) with 0%nat in Hw. rewrite drop_0 in Hw.
  rewrite take_ge in Hw by lia. rewrite Hcat in Hw. simpl in Hw.
  assert (Hchk : (if existsb is_regular_file entries
                  then wrap64 (0 + Z.of_nat (length (List.filter
                                                       is_regular_file
                                                       entries)))
                  else 0)
                 = wrap64 (a' + i')).
  { rewrite Hw. destruct (existsb is_regular_file entries) eqn:Hex.
    - reflexivity.
    - rewrite no_regular_file by exact Hex. reflexivity. }
  rewrite Hchk, Z.eqb_refl. simpl obind.
  exists files'. split; [reflexivity|]. intros s. rewrite Hlook.
  rewrite Z.add_0_l, Z2Nat.id by lia.
  destruct (decide (0 <= s < total_shards)) as [Hs|Hs]; [|reflexivity].
  unfold exported. rewrite Hpaths.
  rewrite lookup_replicate_2 by lia. simpl.
  rewrite Z2Nat.id by lia. reflexivity.
Qed.

(** X18: with at least one shard and shard files that can be opened,
    [ExportCorpusFromLocalDir] returns 0, so its final [CHECK_EQ] holds;
    the file of every shard is only appended to, by the packed inputs of
    the regular files whose file-name hash modulo [total_shards] is the
    shard and whose hash is not in the shard yet, in directory order.
    Without shards, a regular file in the directory is a division by
    zero. *)
Theorem Export_spec (total_shards : Z) (entries : list DirEntry)
        (files : gmap Z ByteArray) :
  (0 < total_shards ->
   (forall s, 0 <= s < total_shards -> RemoteFileOpen_append_ok s = true) ->
   exists files',
     ExportCorpusFromLocalDir total_shards entries files
     = Returns (files', 0) /\
     forall s,
       files' !! s
       = if decide (0 <= s < total_shards)
         then Some (default [] (files !! s)
                    ++ exported total_shards files s entries)
         else files !! s) /\
  (total_shards = 0 ->
   ExportCorpusFromLocalDir total_shards entries files
   = if existsb is_regular_file entries
     then Undefined division_by_zero
     else Returns (files, 0)).
Proof.
  split; [apply Export_returns|].
  intros ->. unfold ExportCorpusFromLocalDir.
  change (replicate (Z.to_nat 0) []) with (@nil (list DirEntry)).
  induction entries as [|e rest IH]; [reflexivity|].
  simpl shard_paths. simpl existsb.
  destruct (is_regular_file e); [reflexivity|]. exact IH.
Qed.

Lemma contains_elem_of (existing : list string) (hash : string) :
  contains existing hash = true <-> hash ∈ existing.
Proof.
  unfold contains. rewrite existsb_exists. split.
  - intros (x & Hin & Heq). apply String.eqb_eq in Heq. subst x.
    apply list_elem_of_In. exact Hin.
  - intros Hin. exists hash. split; [apply list_elem_of_In; exact Hin|].
    apply String.eqb_refl.
Qed.

Lemma unpack_pack_all (well_packed : ByteArray -> Prop) (data : ByteArray)
      (inputs : list ByteArray) :
  unpack_reads_back well_packed -> well_packed data ->
  well_packed (data ++ pack_all inputs) /\
  UnpackedHashes (data ++ pack_all inputs)
  = UnpackedHashes data ++ map Hash inputs.
Proof.
  intros [_ Hlaw]. revert data.
  induction inputs as [|x l IH]; intros data Hd.
  - unfold pack_all. simpl. rewrite !app_nil_r. split; [exact Hd|reflexivity].
  - unfold pack_all. simpl. rewrite app_assoc.
    destruct (Hlaw data x Hd) as [Hd' Hu].
    destruct (IH _ Hd') as [Hd'' Hu'']. split; [exact Hd''|].
    unfold pack_all in Hu''. rewrite Hu'', Hu, <- app_assoc. reflexivity.
Qed.

(** X19: exporting the same directory a second time adds nothing,
    provided the hashes of the packed inputs are read back from a shard
    file. *)
Theorem Export_idempotent (well_packed : ByteArray -> Prop)
        (total_shards : Z) (entries : list DirEntry)
        (files files' : gmap Z ByteArray) (result : Z) :
  unpack_reads_back well_packed ->
  0 < total_shards ->
  (forall s, 0 <= s < total_shards -> RemoteFileOpen_append_ok s = true) ->
  (forall s data, files !! s = Some data -> well_packed data) ->
  ExportCorpusFromLocalDir total_shards entries files
  = Returns (files', result) ->
  ExportCorpusFromLocalDir total_shards entries files'
  = Returns (files', 0).
Proof.
  intros Hlaw HT Hopen Hwp E.
  destruct (Export_returns total_shards entries files HT Hopen)
    as (f1 & E1 & Hlook1).
  rewrite E1 in E. injection E as <- <-.
  destruct (Export_returns total_shards entries f1 HT Hopen)
    as (f2 & E2 & Hlook2).
  rewrite E2. f_equal. f_equal. apply map_eq. intros s.
  rewrite Hlook2.
  destruct (decide (0 <= s < total_shards)) as [Hs|Hs]; [|reflexivity].
  assert (Hnone : exported total_shards f1 s entries = []).
  { unfold exported at 1.
    set (paths := paths_of_shard total_shards s entries).
    assert (Hex : forall x, x ∈ map contents paths ->
                            Hash x ∈ existing_hashes f1 s).
    { intros x Hx. unfold existing_hashes at 1. rewrite Hlook1.
      destruct (decide (0 <= s < total_shards)) as [_|]; [|contradiction].
      unfold exported. fold paths.
      assert (Hd : well_packed (default [] (files !! s))).
      { destruct (files !! s) as [d|] eqn:Hf; simpl;
          [eapply Hwp; exact Hf | apply Hlaw]. }
      destruct (unpack_pack_all well_packed _
                  (new_inputs (existing_hashes files s) paths) Hlaw Hd)
        as [_ ->].
      apply elem_of_app.
      destruct (contains (existing_hashes files s) (Hash x)) eqn:Hc.
      - left. apply contains_elem_of in Hc. unfold existing_hashes in Hc.
        destruct (files !! s) as [d|]; simpl; [exact Hc|].
        inversion Hc.
      - right. apply list_elem_of_fmap. exists x. split; [reflexivity|].
        unfold new_inputs. apply list_elem_of_In, filter_In.
        split; [apply list_elem_of_In; exact Hx|]. rewrite Hc. reflexivity. }
    unfold new_inputs.
    assert (Hf : List.filter
                   (fun input => negb (contains (existing_hashes f1 s)
                                                (Hash input)))
                   (map contents paths) = []).
    { induction (map contents paths) as [|x l IH]; [reflexivity|].
      simpl. rewrite (proj2 (contains_elem_of _ _) (Hex x ltac:(left))).
      simpl. apply IH. intros y Hy. apply Hex. right. exact Hy. }
    rewrite Hf. reflexivity. }
  rewrite Hnone, app_nil_r. pose proof (Hlook1 s) as Hl.
  destruct (decide (0 <= s < total_shards)) as [_|]; [|contradiction].
  rewrite Hl. simpl. symmetry. exact Hl.
Qed.

End WithFiles.

Lemma Export_spec_witness :
  exists files',
    @ExportCorpusFromLocalDir toy_files 2 toy_dir ∅ = Returns (files', 0) /\
    files' !! 0 = Some [Byte.x62] /\
    files' !! 1 = Some [Byte.x61; Byte.x61].
Proof.
  destruct (@Export_spec toy_files 2 toy_dir ∅) as [Hgood _].
  destruct Hgood as (files' & E & Hlook); [lia | reflexivity |].
  exists files'. split; [exact E|].
  rewrite !Hlook. split; reflexivity.
Defined.

Lemma toy_reads_back : @unpack_reads_back toy_files (fun _ => True).
Proof.
  split; [exact I|]. intros data input _. split; [exact I|].
  simpl. rewrite map_app. reflexivity.
Qed.

Lemma Export_idempotent_witness :
  exists files',
    @ExportCorpusFromLocalDir toy_files 2 toy_dir ∅ = Returns (files', 0) /\
    @ExportCorpusFromLocalDir toy_files 2 toy_dir files'
    = Returns (files', 0).
Proof.
  destruct (@Export_returns toy_files 2 toy_dir ∅) as (files' & E & _);
    [lia | reflexivity |].
  exists files'. split; [exact E|].
  apply (@Export_idempotent toy_files (fun _ => True) 2 toy_dir ∅ files' 0
           toy_reads_back); [lia | reflexivity | | exact E].
  intros s data Hs. exact I.
Defined.

End ExportFacts.

(** ** The data-flow callback *)
Module SancovFacts.
Import Sancov.

Lemma offset_in_range (start size x : Z) :
  is_u64 start -> 0 <= size -> start + size <= 2 ^ 64 -> is_u64 x ->
  (size <=? wrap64 (x - start))
  = negb ((start <=? x) && (x <? start + size)).
Proof.
  unfold is_u64, wrap64. intros Hs Hsz Hend Hx.
  destruct (Z.leb_spec start x) as [Hle|Hlt]; simpl.
  - rewrite Z.mod_small by lia.
    destruct (Z.ltb_spec x (start + size)); simpl;
      [apply Z.leb_gt | apply Z.leb_le]; lia.
  - rewrite <- (Zmod_unique (x - start) (2 ^ 64) (-1) (x - start + 2 ^ 64))
      by lia.
    apply Z.leb_le. lia.
Qed.

(** X20: [TraceLoad] forms a feature exactly when data-flow features
    are on and both the caller PC and the address of the load lie in the
    main object; the offsets it passes on are those from the start of the
    main object. *)
Theorem TraceLoad_in_main_object (state : RunnerState)
        (caller_pc load_addr : Z) :
  is_u64 (main_object_start_address state) ->
  0 <= main_object_size state ->
  main_object_start_address state + main_object_size state <= 2 ^ 64 ->
  is_u64 caller_pc -> is_u64 load_addr ->
  TraceLoad state caller_pc load_addr
  = if use_dataflow_features state
       && in_main_object state caller_pc && in_main_object state load_addr
    then Some (caller_pc - main_object_start_address state,
               load_addr - main_object_start_address state,
               main_object_size state)
    else None.
Proof.
  intros Hs Hsz Hend Hpc Haddr. unfold TraceLoad, in_main_object.
  destruct (use_dataflow_features state); [|reflexivity]. simpl negb.
  cbv iota. rewrite !offset_in_range by assumption. simpl andb.
  destruct ((main_object_start_address state <=? caller_pc)
            && (caller_pc <? main_object_start_address state
                             + main_object_size state)) eqn:E1;
    [|reflexivity].
  destruct ((main_object_start_address state <=? load_addr)
            && (load_addr <? main_object_start_address state
                             + main_object_size state)) eqn:E2;
    [|reflexivity].
  simpl. apply andb_prop in E1, E2. destruct E1 as [E1 _], E2 as [E2 _].
  apply Z.leb_le in E1, E2. unfold is_u64 in *.
  rewrite !wrap64_small by (unfold is_u64; lia). reflexivity.
Qed.

Lemma TraceLoad_in_main_object_witness :
  TraceLoad sample_state 65540 69000 = Some (4, 3464, 4096) /\
  TraceLoad sample_state 65540 70000 = None /\
  TraceLoad sample_state 100 69000 = None.
Proof.
  assert (H : forall pc addr, is_u64 pc -> is_u64 addr ->
            TraceLoad sample_state pc addr
            = if use_dataflow_features sample_state
                 && in_main_object sample_state pc
                 && in_main_object sample_state addr
              then Some (pc - 65536, addr - 65536, 4096) else None).
  { intros pc addr Hpc Haddr.
    apply (TraceLoad_in_main_object sample_state pc addr);
      unfold is_u64; simpl; try lia; assumption. }
  repeat split; rewrite H by (unfold is_u64; lia); reflexivity.
Defined.

End SancovFacts.

(** ** The name of the puzzle script *)
Module RunPuzzleFacts.
Import RunPuzzle.








End RunPuzzleFacts.
